(** * BlackRoad Invoice Manager: a shallow embedding of [invoice.py]

    The development follows the source file top-down:
    - [PyFloat]: the binary64 arithmetic the monetary fields are computed
      with (Python [float], [round], [sum]);
    - [Text], [Calendar]: the string and date primitives the code relies on
      (SQLite's [LIKE] and text comparison, [date.isoformat],
      [datetime.fromisoformat], date arithmetic);
    - [LineItem], [Invoice]: the two dataclasses and their derived fields;
    - the SQLite store (two tables) and the operations on it, written in an
      error monad with explicit state passing: a statement that raises
      leaves the store as it was (the [with conn:] block rolls back);
    - the invariants of the stores the operations build;
    - the properties of the operations, each stated on this embedding. *)

From Stdlib Require Import ZArith QArith Qpower List Bool Lia.
From Stdlib Require Import String Ascii.
From Stdlib Require Import Sorting.Sorted Sorting.Permutation.
From Stdlib Require Import SpecFloat.
Import ListNotations.

Open Scope string_scope.
Open Scope Z_scope.
Open Scope list_scope.

(* ------------------------------------------------------------------ *)
(** * Python floats *)
(* ------------------------------------------------------------------ *)

Module PyFloat.

(** A Python [float] is an IEEE 754 binary64 value: 53 bits of precision,
    exponent of the infinities 1024.  The operations are the ones of the
    standard library's specification of floating-point arithmetic, all of
    them rounding to nearest, ties to even. *)
Definition prec : Z := 53.
Definition emax : Z := 1024.

Definition float : Type := spec_float.

Definition fadd : float -> float -> float := SFadd prec emax.
Definition fsub : float -> float -> float := SFsub prec emax.
Definition fmul : float -> float -> float := SFmul prec emax.
Definition fdiv : float -> float -> float := SFdiv prec emax.

Definition feqb : float -> float -> bool := SFeqb.
Definition fleb : float -> float -> bool := SFleb.

Definition is_nan (x : float) : bool :=
  match x with S754_nan => true | _ => false end.

Definition is_finite (x : float) : bool :=
  match x with S754_zero _ | S754_finite _ _ _ => true | _ => false end.

(** The values a Python [float] can take: the mantissa of a finite one
    has at most 53 bits, exactly 53 unless the exponent is the least one,
    and the exponent is in range. *)
Definition is_binary64 (x : float) : bool := valid_binary prec emax x.

(** The rational number a zero or finite float stands for,
    [(-1)^s * m * 2^e]; an infinity or a NaN stands for none. *)
Definition value (x : float) : option Q :=
  match x with
  | S754_zero _ => Some 0%Q
  | S754_finite s m e =>
      Some (inject_Z (cond_Zopp s (Zpos m)) * Qpower 2 e)%Q
  | S754_infinity _ | S754_nan => None
  end.

(** [x] is a number of the interval [[0, 1]]. *)
Definition within_unit (x : float) : Prop :=
  exists q : Q, value x = Some q /\ (0 <= q)%Q /\ (q <= 1)%Q.

(** The integer [n] as the unrounded value [n * 2^0]. *)
Definition exact (n : Z) : spec_float :=
  match n with
  | Z0 => S754_zero false
  | Zpos p => S754_finite false p 0
  | Zneg p => S754_finite true p 0
  end.

(** [float(n)] for a Python [int]: the nearest binary64 value.  (CPython
    raises [OverflowError] where this gives an infinity; the integers the
    program converts are day counts and list lengths.) *)
Definition of_int (n : Z) : float := binary_normalize prec emax n 0 false.

(** The binary64 value nearest to the fraction [n / d]: Python's [n / d]
    on two [int]s ([d <> 0]), which is correctly rounded. *)
Definition ratio (n d : Z) : float := fdiv (exact n) (exact d).

(** A decimal literal [m * 10^-k], as the Python parser reads it: the
    nearest binary64 value.  [literal 1250 2] is [12.50]. *)
Definition literal (m : Z) (k : Z) : float := ratio m (10 ^ k).

(** The integer nearest to [a / b] for [0 <= a], [0 < b], ties to even. *)
Definition half_even (a b : Z) : Z :=
  let q := a / b in
  let r := a mod b in
  match 2 * r ?= b with
  | Lt => q
  | Gt => q + 1
  | Eq => if Z.even q then q else q + 1
  end.

(** [round(x, ndigits)] on a [float], for [0 <= ndigits] (the program uses
    1 and 2).  CPython prints the exact binary value of [x] with [ndigits]
    decimals, correctly rounded with ties to even, and reads the decimal
    back, again correctly rounded; infinities and NaN round to themselves
    and a result of zero keeps the sign of [x].  A finite [x] whose
    exponent is not negative is an integer, and its decimal is read back
    as [x]. *)
Definition py_round (x : float) (ndigits : Z) : float :=
  match x with
  | S754_finite s m e =>
      let p := 10 ^ ndigits in
      let q := if 0 <=? e then Zpos m * 2 ^ e * p
               else half_even (Zpos m * p) (2 ^ (- e)) in
      match q with
      | Zpos k => fdiv (S754_finite s k 0) (exact p)
      | _ => S754_zero s
      end
  | _ => x
  end.

(** What rounding to [nd] decimals means, stated without [round]: [y]
    is [x] rounded when, for a finite [x], [y] is the float nearest to
    the decimal [q / 10^nd] of the sign of [x], where [q] is the integer
    nearest to [|x| * 10^nd] and the even one when two are as near (a [q]
    of zero gives the zero of the sign of [x]); an infinity or a NaN
    rounds to itself, and so does a zero.  [|x| * 10^nd] is the fraction
    [n / d] of the two integers below. *)
Definition rounded (nd : Z) (x y : float) : Prop :=
  match x with
  | S754_finite s m e =>
      let n := Zpos m * 10 ^ nd * 2 ^ Z.max e 0 in
      let d := 2 ^ Z.max (- e) 0 in
      exists q,
        0 <= q
        /\ 2 * Z.abs (n - q * d) <= d
        /\ (2 * Z.abs (n - q * d) = d -> Z.even q = true)
        /\ y = (if q =? 0 then S754_zero s
                else literal (cond_Zopp s q) nd)
  | _ => y = x
  end.

(** Python numbers as the program produces them: [sum] starts from the
    [int] 0, [len] and day counts are [int]s, the rest are [float]s. *)
Inductive pynum : Type :=
  | Int (n : Z)
  | Float (x : float).

(** The coercion Python applies to an [int] operand that meets a [float]. *)
Definition to_float (a : pynum) : float :=
  match a with
  | Int n => of_int n
  | Float x => x
  end.

(** [a + x] for a number [a] and a float [x]. *)
Definition nadd (a : pynum) (x : float) : pynum :=
  Float (fadd (to_float a) x).

(** [sum(xs)] over floats: the items are added from left to right to the
    start value, the [int] 0.  (CPython from 3.12 on carries a
    compensation term along; the sum is embedded as the left fold that
    defines it.) *)
Definition py_sum (xs : list float) : pynum :=
  fold_left nadd xs (Int 0).

(** [round(a, ndigits)] with [0 <= ndigits]: an [int] is returned as it
    is. *)
Definition round_number (a : pynum) (ndigits : Z) : pynum :=
  match a with
  | Int n => Int n
  | Float x => Float (py_round x ndigits)
  end.

(** The same for a number: an [int] is left as it is. *)
Definition rounded_number (nd : Z) (a b : pynum) : Prop :=
  match a with
  | Int n => b = Int n
  | Float x => exists y, b = Float y /\ rounded nd x y
  end.

End PyFloat.

Import PyFloat.

(* ------------------------------------------------------------------ *)
(** * Text *)
(* ------------------------------------------------------------------ *)

(** A text is the string of the bytes of its UTF-8 encoding, which is
    what Python hands to SQLite and gets back from it.  The BINARY
    collation compares the bytes; [LIKE] reads them as characters. *)
Module Text.

(** The character of a decimal digit [0 <= d <= 9]. *)
Definition digit (d : Z) : ascii := ascii_of_N (48 + Z.to_N d).

Fixpoint decimal_aux (fuel : nat) (n : Z) (acc : string) : string :=
  match fuel with
  | O => acc
  | S fuel' =>
      let acc' := String (digit (n mod 10)) acc in
      if n <? 10 then acc' else decimal_aux fuel' (n / 10) acc'
  end.

(** [str(n)] for an [int] [0 <= n]: a number has no more decimal digits
    than binary ones. *)
Definition decimal (n : Z) : string :=
  decimal_aux (S (Z.to_nat (Z.log2 n))) n EmptyString.

Fixpoint zeros (k : nat) : string :=
  match k with
  | O => EmptyString
  | S k' => String "0" (zeros k')
  end.

(** [f"{n:0wd}"] for [0 <= n]: at least [w] digits, zeros on the left. *)
Definition format_d (w : nat) (n : Z) : string :=
  let s := decimal n in
  (zeros (w - String.length s) ++ s)%string.

(** The value of a decimal digit character. *)
Definition digit_value (c : ascii) : option Z :=
  let n := Z.of_N (N_of_ascii c) in
  if (48 <=? n) && (n <=? 57) then Some (n - 48) else None.

(** The value of a string of decimal digits, most significant first. *)
Fixpoint parse_digits (s : string) (acc : Z) : option Z :=
  match s with
  | EmptyString => Some acc
  | String c s' =>
      match digit_value c with
      | Some d => parse_digits s' (10 * acc + d)
      | None => None
      end
  end.

(** SQLite compares TEXT values under the BINARY collation: byte by byte,
    a proper prefix first. *)
Definition lt (a b : string) : bool := String.ltb a b.
Definition le (a b : string) : bool := String.leb a b.

(** [LIKE] takes its pattern and its text as C strings of UTF-8: each
    ends at its first NUL, and is read a character at a time by
    [sqlite3Utf8Read].  A byte below [0xC0] is a character by itself; a
    byte from [0xC0] on starts a character that takes in the
    continuation bytes ([0x80] to [0xBF]) after it, six bits each into an
    unsigned 32-bit number that starts from the entry of the lead byte in
    the table [sqlite3Utf8Trans1]; a result below [0x80], a surrogate,
    [0xFFFE] or [0xFFFF] is read as [0xFFFD]. *)
Definition continuation (n : N) : bool := ((128 <=? n) && (n <? 192))%N.

Definition utf8_trans1 (n : N) : N :=
  (if n <? 224 then n - 192
   else if n <? 240 then n - 224
   else if n <? 248 then n - 240
   else if n <? 252 then n - 248
   else if n <? 254 then n - 252
   else 0)%N.

Definition utf8_shift (c n : N) : N := ((c * 64 + n mod 64) mod 4294967296)%N.

Definition utf8_close (c : N) : N :=
  (if (c <? 128) || (N.land c 4294965248 =? 55296)
      || (N.land c 4294967294 =? 65534)
   then 65533 else c)%N.

(** The character a lead byte has opened, if one is open. *)
Definition flush (pending : option N) : list N :=
  match pending with
  | Some c => [utf8_close c]
  | None => []
  end.

Fixpoint read (pending : option N) (s : string) : list N :=
  match s with
  | EmptyString => flush pending
  | String b s' =>
      let n := N_of_ascii b in
      match pending, continuation n with
      | Some c, true => read (Some (utf8_shift c n)) s'
      | _, _ =>
          (flush pending
           ++ (if n =? 0 then []
               else if n <? 192 then n :: read None s'
               else read (Some (utf8_trans1 n)) s'))%N%list
      end
  end.

(** The characters [LIKE] sees in a text. *)
Definition chars (s : string) : list N := read None s.

(** SQLite folds the 26 upper-case ASCII letters, and nothing else, when
    [LIKE] compares two characters. *)
Definition tolower (c : N) : N :=
  (if (65 <=? c) && (c <=? 90) then c + 32 else c)%N.

Definition same_char (c d : N) : bool :=
  ((c =? d)
   || ((c <? 128) && (d <? 128) && (tolower c =? tolower d)))%N.

(** [s LIKE p] on the characters, as SQLite evaluates it by default (no
    ESCAPE clause, [case_sensitive_like] off): [%] (37) matches any run
    of characters, [_] (95) any one character, any other character
    itself up to ASCII case. *)
Fixpoint like_chars (p s : list N) : bool :=
  match p with
  | [] => match s with [] => true | _ :: _ => false end
  | c :: p' =>
      if (c =? 37)%N then
        (fix any (s : list N) : bool :=
           like_chars p' s
           || match s with
              | [] => false
              | _ :: s' => any s'
              end) s
      else
        match s with
        | [] => false
        | d :: s' => ((c =? 95)%N || same_char c d) && like_chars p' s'
        end
  end.

Definition like (p s : string) : bool := like_chars (chars p) (chars s).

(** [needle] occurs in [hay] as a contiguous run of characters. *)
Definition substring_of (needle hay : string) : Prop :=
  exists pre post, hay = (pre ++ needle ++ post)%string.

(** The two as tests. *)
Fixpoint starts_with (needle hay : string) : bool :=
  match needle, hay with
  | EmptyString, _ => true
  | String c n', String d h' => Ascii.eqb c d && starts_with n' h'
  | String _ _, EmptyString => false
  end.

Fixpoint contains (needle hay : string) : bool :=
  starts_with needle hay
  || match hay with
     | EmptyString => false
     | String _ h' => contains needle h'
     end.





End Text.

(* ------------------------------------------------------------------ *)
(** * Dates and times *)
(* ------------------------------------------------------------------ *)

(** The part of Python's [datetime] module the program calls, after its
    reference implementation: the proleptic Gregorian calendar, years 1
    to 9999. *)
Module Calendar.

Record date : Type := mkdate { year : Z; month : Z; day : Z }.

Record datetime : Type := mkdatetime
  { dt_date : date;
    hour : Z;
    minute : Z;
    second : Z;
    microsecond : Z }.

Definition MINYEAR : Z := 1.
Definition MAXYEAR : Z := 9999.
Definition _MAXORDINAL : Z := 3652059.

Definition _DAYS_IN_MONTH : list Z :=
  [-1; 31; 28; 31; 30; 31; 30; 31; 31; 30; 31; 30; 31].

Definition _DAYS_BEFORE_MONTH : list Z :=
  [-1; 0; 31; 59; 90; 120; 151; 181; 212; 243; 273; 304; 334].

Definition _is_leap (y : Z) : bool :=
  (y mod 4 =? 0) && (negb (y mod 100 =? 0) || (y mod 400 =? 0)).

Definition _days_before_year (y : Z) : Z :=
  let y := y - 1 in
  y * 365 + y / 4 - y / 100 + y / 400.

Definition _days_in_month (y m : Z) : Z :=
  if (m =? 2) && _is_leap y then 29
  else nth (Z.to_nat m) _DAYS_IN_MONTH 0.

Definition _days_before_month (y m : Z) : Z :=
  nth (Z.to_nat m) _DAYS_BEFORE_MONTH 0
  + (if (2 <? m) && _is_leap y then 1 else 0).

Definition _ymd2ord (y m d : Z) : Z :=
  _days_before_year y + _days_before_month y m + d.

Definition _DI400Y : Z := _days_before_year 401.
Definition _DI100Y : Z := _days_before_year 101.
Definition _DI4Y : Z := _days_before_year 5.

Definition _ord2ymd (n : Z) : date :=
  let n := n - 1 in
  let n400 := n / _DI400Y in
  let n := n mod _DI400Y in
  let y := n400 * 400 + 1 in
  let n100 := n / _DI100Y in
  let n := n mod _DI100Y in
  let n4 := n / _DI4Y in
  let n := n mod _DI4Y in
  let n1 := n / 365 in
  let n := n mod 365 in
  let y := y + n100 * 100 + n4 * 4 + n1 in
  if (n1 =? 4) || (n100 =? 4) then mkdate (y - 1) 12 31
  else
    let leapyear := (n1 =? 3) && (negb (n4 =? 24) || (n100 =? 3)) in
    let m := Z.shiftr (n + 50) 5 in
    let preceding :=
      nth (Z.to_nat m) _DAYS_BEFORE_MONTH 0
      + (if (2 <? m) && leapyear then 1 else 0) in
    if n <? preceding then
      let m := m - 1 in
      let preceding :=
        preceding
        - (nth (Z.to_nat m) _DAYS_IN_MONTH 0
           + (if (m =? 2) && leapyear then 1 else 0)) in
      mkdate y m (n - preceding + 1)
    else mkdate y m (n - preceding + 1).

(** The dates a [date] object can hold. *)
Definition valid (d : date) : bool :=
  (MINYEAR <=? year d) && (year d <=? MAXYEAR)
  && (1 <=? month d) && (month d <=? 12)
  && (1 <=? day d) && (day d <=? _days_in_month (year d) (month d)).

Definition toordinal (d : date) : Z := _ymd2ord (year d) (month d) (day d).

(** Calendar order. *)
Definition before (a b : date) : Prop :=
  year a < year b
  \/ (year a = year b
      /\ (month a < month b \/ (month a = month b /\ day a < day b))).

(** [(a - b).days] *)
Definition days_between (a b : date) : Z := toordinal a - toordinal b.

(** [date.isoformat()]: [YYYY-MM-DD]. *)
Definition date_isoformat (d : date) : string :=
  (Text.format_d 4 (year d) ++ "-" ++ Text.format_d 2 (month d)
   ++ "-" ++ Text.format_d 2 (day d))%string.

(** [datetime.isoformat()]: the microseconds are left out when zero. *)
Definition isoformat (t : datetime) : string :=
  (date_isoformat (dt_date t) ++ "T" ++ Text.format_d 2 (hour t)
   ++ ":" ++ Text.format_d 2 (minute t)
   ++ ":" ++ Text.format_d 2 (second t)
   ++ (if (microsecond t =? 0)%Z then EmptyString
       else "." ++ Text.format_d 6 (microsecond t)))%string.

(** [datetime.fromisoformat(s).date()] on the format [date.isoformat]
    writes, the only one the program stores: four digits, a dash, two
    digits, a dash, two digits, and the three numbers a date.  [None]
    stands for the [ValueError] Python raises.  (Recent Python versions
    read further ISO 8601 forms as well; they are not embedded.) *)
Definition date_fromisoformat (s : string) : option date :=
  if negb (Nat.eqb (String.length s) 10) then None
  else
    match Text.parse_digits (String.substring 0 4 s) 0,
          Text.parse_digits (String.substring 5 2 s) 0,
          Text.parse_digits (String.substring 8 2 s) 0 with
    | Some y, Some m, Some d =>
        if String.eqb (String.substring 4 1 s) "-"
           && String.eqb (String.substring 7 1 s) "-"
           && valid (mkdate y m d)
        then Some (mkdate y m d)
        else None
    | _, _, _ => None
    end.

End Calendar.

(* ------------------------------------------------------------------ *)
(** * The dataclasses *)
(* ------------------------------------------------------------------ *)

Module LineItem.

Record t : Type := make
  { description : string;
    qty : float;
    unit_price : float }.

Definition total (self : t) : float :=
  py_round (fmul (qty self) (unit_price self)) 2.

End LineItem.

Module Invoice.

Record t : Type := make
  { id : string;
    number : string;
    client_name : string;
    client_email : string;
    line_items : list LineItem.t;
    tax_rate : float;
    discount : float;
    status : string;
    due_date : string;
    created_at : string;
    paid_at : option string;
    payment_method : option string;
    notes : string;
    currency : string }.

Definition subtotal (self : t) : pynum :=
  round_number (py_sum (map LineItem.total (line_items self))) 2.

Definition discount_amount (self : t) : float :=
  py_round (fmul (to_float (subtotal self)) (discount self)) 2.

Definition taxable_amount (self : t) : float :=
  py_round (fsub (to_float (subtotal self)) (discount_amount self)) 2.

Definition tax_amount (self : t) : float :=
  py_round (fmul (taxable_amount self) (tax_rate self)) 2.

Definition total (self : t) : float :=
  py_round (fadd (taxable_amount self) (tax_amount self)) 2.

End Invoice.

(* ------------------------------------------------------------------ *)
(** * Exceptions *)
(* ------------------------------------------------------------------ *)

(** The exceptions the program raises itself ([ValueError] for a rejected
    argument or transition, [KeyError] for an unknown id) and those its
    libraries raise on the paths embedded here: [sqlite3.IntegrityError]
    for a constraint of a table, [OverflowError] for a date out of range,
    [sqlite3.OperationalError] for a statement SQLite refuses. *)
Inductive exn : Type :=
  | ValueError (msg : string)
  | KeyError (msg : string)
  | IntegrityError
  | OverflowError
  | OperationalError (msg : string).

Inductive result (A : Type) : Type :=
  | Ok (a : A)
  | Raise (e : exn).

Arguments Ok {A} a.
Arguments Raise {A} e.

Definition bind {A B : Type} (r : result A) (k : A -> result B) : result B :=
  match r with
  | Ok a => k a
  | Raise e => Raise e
  end.

Notation "x <- r ;; k" := (bind r (fun x => k))
  (at level 61, r at next level, right associativity).

Fixpoint mapM {A B : Type} (f : A -> result B) (l : list A)
  : result (list B) :=
  match l with
  | [] => Ok []
  | a :: l' => b <- f a ;; bs <- mapM f l' ;; Ok (b :: bs)
  end.

(* ------------------------------------------------------------------ *)
(** * The store *)
(* ------------------------------------------------------------------ *)

(** A row of table [invoices]. *)
Module Row.

Record t : Type := make
  { id : string;
    number : string;
    client_name : string;
    client_email : string;
    tax_rate : float;
    discount : float;
    status : string;
    due_date : string;
    created_at : string;
    paid_at : option string;
    payment_method : option string;
    notes : string;
    currency : string }.

Definition set_status (v : string) (r : t) : t :=
  make (id r) (number r) (client_name r) (client_email r) (tax_rate r)
       (discount r) v (due_date r) (created_at r) (paid_at r)
       (payment_method r) (notes r) (currency r).

Definition set_paid (at_ method : string) (r : t) : t :=
  make (id r) (number r) (client_name r) (client_email r) (tax_rate r)
       (discount r) "paid" (due_date r) (created_at r) (Some at_)
       (Some method) (notes r) (currency r).

End Row.

(** A row of table [line_items]. *)
Module ItemRow.

Record t : Type := make
  { id : string;
    invoice_id : string;
    description : string;
    qty : float;
    unit_price : float;
    position : Z }.

End ItemRow.

Record db : Type := mkdb
  { invoices : list Row.t;
    line_items : list ItemRow.t }.

(** The store after [init_db]. *)
Definition empty_db : db := mkdb [] [].

(** ORDER BY, as a stable insertion sort: [leb a b] says that [a] may
    come before [b]. *)
Section OrderBy.

Context {A : Type} (leb : A -> A -> bool).

Fixpoint insert_by (x : A) (l : list A) : list A :=
  match l with
  | [] => [x]
  | y :: l' => if leb x y then x :: l else y :: insert_by x l'
  end.

Fixpoint order_by (l : list A) : list A :=
  match l with
  | [] => []
  | x :: l' => insert_by x (order_by l')
  end.

End OrderBy.

Module Sql.

(** [SELECT * FROM invoices WHERE id=?] with [fetchone()]. *)
Definition select_invoice (d : db) (invoice_id : string) : option Row.t :=
  find (fun r => String.eqb (Row.id r) invoice_id) (invoices d).

(** [SELECT * FROM line_items WHERE invoice_id=? ORDER BY position]. *)
Definition select_line_items (d : db) (invoice_id : string)
  : list ItemRow.t :=
  order_by (fun a b => ItemRow.position a <=? ItemRow.position b)
    (filter (fun l => String.eqb (ItemRow.invoice_id l) invoice_id)
       (line_items d)).

(** A NaN is bound as NULL, which a [REAL NOT NULL] column refuses. *)
Definition real_not_null (x : float) : bool := negb (is_nan x).

(** What a REAL column gives back for a float written to it: SQLite
    keeps a float that is a whole number as an integer, so that a
    negative zero comes back as [0.0]; every other value comes back as
    it was written. *)
Definition real (x : float) : float :=
  match x with
  | S754_zero _ => S754_zero false
  | _ => x
  end.

(** The rows as their tables hold them. *)
Definition stored_invoice (r : Row.t) : Row.t :=
  Row.make (Row.id r) (Row.number r) (Row.client_name r)
    (Row.client_email r) (real (Row.tax_rate r)) (real (Row.discount r))
    (Row.status r) (Row.due_date r) (Row.created_at r) (Row.paid_at r)
    (Row.payment_method r) (Row.notes r) (Row.currency r).

Definition stored_item (l : ItemRow.t) : ItemRow.t :=
  ItemRow.make (ItemRow.id l) (ItemRow.invoice_id l) (ItemRow.description l)
    (real (ItemRow.qty l)) (real (ItemRow.unit_price l))
    (ItemRow.position l).

(** [INSERT INTO invoices]: [id] is the primary key, [number] is UNIQUE,
    [tax_rate] and [discount] are NOT NULL. *)
Definition insert_invoice (d : db) (r : Row.t) : result db :=
  if existsb (fun r' => String.eqb (Row.id r') (Row.id r)) (invoices d)
     || existsb (fun r' => String.eqb (Row.number r') (Row.number r))
          (invoices d)
     || negb (real_not_null (Row.tax_rate r))
     || negb (real_not_null (Row.discount r))
  then Raise IntegrityError
  else Ok (mkdb (invoices d ++ [stored_invoice r]) (line_items d)).

(** [INSERT INTO line_items]: [id] is the primary key, [qty] and
    [unit_price] are NOT NULL.  (SQLite does not enforce the REFERENCES
    clause unless asked to.) *)
Definition insert_line_item (d : db) (l : ItemRow.t) : result db :=
  if existsb (fun l' => String.eqb (ItemRow.id l') (ItemRow.id l))
       (line_items d)
     || negb (real_not_null (ItemRow.qty l))
     || negb (real_not_null (ItemRow.unit_price l))
  then Raise IntegrityError
  else Ok (mkdb (invoices d) (line_items d ++ [stored_item l])).

(** [UPDATE invoices SET ... WHERE <cond>]. *)
Definition update_invoices (cond : Row.t -> bool) (set : Row.t -> Row.t)
    (d : db) : db :=
  mkdb (map (fun r => if cond r then set r else r) (invoices d))
       (line_items d).

End Sql.

(* ------------------------------------------------------------------ *)
(** * Core invoice operations *)
(* ------------------------------------------------------------------ *)

Import Calendar.

(** [datetime.utcnow()] is an argument [now] of the operations that read
    the clock, and [uuid.uuid4()] a supply [uuid4] of identifiers: the
    [k]-th draw of one call is [uuid4 k].  An operation that writes returns
    its outcome together with the store it leaves behind. *)

Definition raise {A : Type} (e : exn) (conn : db) : result A * db :=
  (Raise e, conn).

(** [with get_db(path) as conn: body]: the connection commits when the
    body completes and rolls back when it raises. *)
Definition with_conn {A : Type} (conn : db) (body : db -> result (A * db))
  : result A * db :=
  match body conn with
  | Ok (a, conn') => (Ok a, conn')
  | Raise e => (Raise e, conn)
  end.

Definition _now (now : datetime) : string := isoformat now.

(** The sequence number counts the numbers of the year of the call.
    ([create_invoice] reads the clock once more here; both readings are
    the one [now].  The pattern of a year, ten bytes for the years of a
    [datetime], is far from the length [LIKE] refuses.) *)
Definition _invoice_number (now : datetime) (conn : db) : string :=
  let y := year (dt_date now) in
  let cnt :=
    Z.of_nat
      (List.length
         (filter
            (fun r =>
               Text.like ("INV-" ++ Text.decimal y ++ "-%")%string
                 (Row.number r))
            (invoices conn))) in
  let seq := cnt + 1 in
  ("INV-" ++ Text.decimal y ++ "-" ++ Text.format_d 5 seq)%string.

Definition _row_to_invoice (row : Row.t) (items : list LineItem.t)
  : Invoice.t :=
  Invoice.make (Row.id row) (Row.number row) (Row.client_name row)
    (Row.client_email row) items (Row.tax_rate row) (Row.discount row)
    (Row.status row) (Row.due_date row) (Row.created_at row)
    (Row.paid_at row) (Row.payment_method row) (Row.notes row)
    (Row.currency row).

(** The columns of an [Invoice] that [create_invoice] inserts: [paid_at]
    and [payment_method] are not among them and stay NULL. *)
Definition invoice_row (inv : Invoice.t) : Row.t :=
  Row.make (Invoice.id inv) (Invoice.number inv) (Invoice.client_name inv)
    (Invoice.client_email inv) (Invoice.tax_rate inv)
    (Invoice.discount inv) (Invoice.status inv) (Invoice.due_date inv)
    (Invoice.created_at inv) None None (Invoice.notes inv)
    (Invoice.currency inv).

(** [(now + timedelta(days=n)).date()]: out of the range of years it is
    an [OverflowError]. *)
Definition add_days (d : date) (n : Z) : result date :=
  let o := toordinal d + n in
  if (1 <=? o) && (o <=? _MAXORDINAL) then Ok (_ord2ymd o)
  else Raise OverflowError.

Definition item_row (uuid4 : nat -> string) (invoice_id : string)
    (i : nat) (li : LineItem.t) : ItemRow.t :=
  ItemRow.make (uuid4 (S i)) invoice_id (LineItem.description li)
    (LineItem.qty li) (LineItem.unit_price li) (Z.of_nat i).

(** The loop [for i, li in enumerate(items)] of [create_invoice]; [i] is
    the index of the first item of [items]. *)
Fixpoint insert_items (uuid4 : nat -> string) (invoice_id : string)
    (i : nat) (items : list LineItem.t) (conn : db) : result db :=
  match items with
  | [] => Ok conn
  | li :: rest =>
      conn' <- Sql.insert_line_item conn (item_row uuid4 invoice_id i li) ;;
      insert_items uuid4 invoice_id (S i) rest conn'
  end.

(** [0 <= x <= 1] *)
Definition in_unit_range (x : float) : bool :=
  fleb (of_int 0) x && fleb x (of_int 1).

Definition create_invoice (now : datetime) (uuid4 : nat -> string)
    (client_name client_email : string) (items : list LineItem.t)
    (tax_rate : float) (due_days : Z) (discount : float)
    (notes currency : string) (conn : db) : result Invoice.t * db :=
  match items with
  | [] =>
      raise (ValueError "Invoice must have at least one line item") conn
  | _ :: _ =>
      if negb (in_unit_range tax_rate)
      then raise (ValueError "tax_rate must be between 0 and 1") conn
      else if negb (in_unit_range discount)
      then raise (ValueError "discount must be between 0 and 1") conn
      else
        match add_days (dt_date now) due_days with
        | Raise e => raise e conn
        | Ok due =>
            let due_date := date_isoformat due in
            with_conn conn
              (fun conn =>
                 let number := _invoice_number now conn in
                 let inv :=
                   Invoice.make (uuid4 O) number client_name client_email
                     items tax_rate discount "draft" due_date
                     (isoformat now) None None notes currency in
                 conn1 <- Sql.insert_invoice conn (invoice_row inv) ;;
                 conn2 <- insert_items uuid4 (Invoice.id inv) O items
                            conn1 ;;
                 Ok (inv, conn2))
        end
  end.

Definition not_found (invoice_id : string) : exn :=
  KeyError ("Invoice " ++ invoice_id ++ " not found")%string.

Definition item_of_row (r : ItemRow.t) : LineItem.t :=
  LineItem.make (ItemRow.description r) (ItemRow.qty r)
    (ItemRow.unit_price r).

Definition get_invoice (invoice_id : string) (conn : db)
  : result Invoice.t :=
  match Sql.select_invoice conn invoice_id with
  | None => Raise (not_found invoice_id)
  | Some row =>
      let li_rows := Sql.select_line_items conn invoice_id in
      let items := map item_of_row li_rows in
      Ok (_row_to_invoice row items)
  end.

Definition has_id (invoice_id : string) (r : Row.t) : bool :=
  String.eqb (Row.id r) invoice_id.

Definition send_invoice (invoice_id : string) (conn : db)
  : result Invoice.t * db :=
  let '(r, conn') :=
    with_conn conn
      (fun conn =>
         match Sql.select_invoice conn invoice_id with
         | None => Raise (not_found invoice_id)
         | Some row =>
             if String.eqb (Row.status row) "paid"
             then Raise (ValueError "Cannot send a paid invoice")
             else
               Ok (tt,
                   Sql.update_invoices (has_id invoice_id)
                     (Row.set_status "sent") conn)
         end) in
  match r with
  | Raise e => (Raise e, conn')
  | Ok _ => (get_invoice invoice_id conn', conn')
  end.

Definition mark_paid (now : datetime) (invoice_id : string)
    (payment_method : string) (conn : db) : result Invoice.t * db :=
  let '(r, conn') :=
    with_conn conn
      (fun conn =>
         match Sql.select_invoice conn invoice_id with
         | None => Raise (not_found invoice_id)
         | Some row =>
             if String.eqb (Row.status row) "paid"
             then Raise (ValueError "Invoice already paid")
             else
               Ok (tt,
                   Sql.update_invoices (has_id invoice_id)
                     (Row.set_paid (_now now) payment_method) conn)
         end) in
  match r with
  | Raise e => (Raise e, conn')
  | Ok _ => (get_invoice invoice_id conn', conn')
  end.

(** The default of [mark_paid]'s [payment_method]. *)
Definition default_payment_method : string := "bank_transfer".

(** The default of [calculate_overdue_fee]'s [daily_rate], [0.001]. *)
Definition default_daily_rate : float := literal 1 3.

Definition calculate_overdue_fee (now : datetime) (invoice_id : string)
    (daily_rate : float) (conn : db) : result float :=
  inv <- get_invoice invoice_id conn ;;
  if String.eqb (Invoice.status inv) "paid" then Ok (literal 0 1)
  else
    let today := dt_date now in
    match date_fromisoformat (Invoice.due_date inv) with
    | None => Raise (ValueError "Invalid isoformat string")
    | Some due =>
        let days_overdue := Z.max 0 (days_between today due) in
        Ok (py_round
              (fmul (fmul (Invoice.total inv) daily_rate)
                 (of_int days_overdue)) 2)
    end.

(** Python's [len]. *)
Definition len {A : Type} (l : list A) : Z := Z.of_nat (List.length l).

(** The WHERE clause of [mark_overdue]. *)
Definition is_overdue (today : string) (r : Row.t) : bool :=
  String.eqb (Row.status r) "sent" && Text.lt (Row.due_date r) today.

(** The ids the SELECT of [mark_overdue] finds. *)
Definition overdue_ids (today : string) (conn : db) : list string :=
  map Row.id (filter (is_overdue today) (invoices conn)).

(** The UPDATE binds one host parameter for each id.  A connection
    accepts so many of them in a statement and no more
    (SQLITE_LIMIT_VARIABLE_NUMBER: 999, 32766 or 250000 with the build of
    SQLite); [limit] is that number.  Past it the statement is refused,
    the exception leaves the [with] block and nothing has been
    written. *)
Definition mark_overdue (limit : Z) (now : datetime) (conn : db)
  : result (list string) * db :=
  let today := date_isoformat (dt_date now) in
  let ids := overdue_ids today conn in
  match ids with
  | [] => (Ok ids, conn)
  | _ :: _ =>
      if len ids <=? limit then
        (Ok ids,
         Sql.update_invoices
           (fun r => existsb (String.eqb (Row.id r)) ids)
           (Row.set_status "overdue") conn)
      else raise (OperationalError "too many SQL variables") conn
  end.

(** Python's truth value of an [Optional[str]] argument: [None] and the
    empty string are false. *)
Definition truthy (o : option string) : bool :=
  match o with
  | Some s => negb (String.eqb s EmptyString)
  | None => false
  end.

Definition text_of (o : option string) : string :=
  match o with
  | Some s => s
  | None => EmptyString
  end.

Module Report.

(** The dictionary [summary_report] returns. *)
Record t : Type := make
  { period_start : option string;
    period_end : option string;
    total_invoices : Z;
    total_invoiced : pynum;
    paid_count : Z;
    paid_total : pynum;
    overdue_count : Z;
    overdue_total : pynum;
    draft_count : Z;
    sent_count : Z;
    collection_rate : pynum }.

End Report.

Definition with_status (s : string) (l : list Invoice.t) : list Invoice.t :=
  filter (fun i => String.eqb (Invoice.status i) s) l.

(** The rows [summary_report] selects. *)
Definition report_rows (period_start period_end : option string)
    (conn : db) : list Row.t :=
  if truthy period_start && truthy period_end then
    filter
      (fun r =>
         Text.le (text_of period_start) (Row.created_at r)
         && Text.le (Row.created_at r) (text_of period_end))
      (invoices conn)
  else invoices conn.

(** The loop of [summary_report] that loads each invoice and skips the
    ones that fail to load. *)
Definition load_all (rows : list Row.t) (conn : db) : list Invoice.t :=
  flat_map
    (fun r =>
       match get_invoice (Row.id r) conn with
       | Ok inv => [inv]
       | Raise _ => []
       end) rows.

Definition summary_report (period_start period_end : option string)
    (conn : db) : Report.t :=
  let rows := report_rows period_start period_end conn in
  let all_invoices := load_all rows conn in
  let total_invoiced := py_sum (map Invoice.total all_invoices) in
  let paid := with_status "paid" all_invoices in
  let overdue := with_status "overdue" all_invoices in
  let draft := with_status "draft" all_invoices in
  let sent := with_status "sent" all_invoices in
  Report.make period_start period_end
    (len all_invoices)
    (round_number total_invoiced 2)
    (len paid)
    (round_number (py_sum (map Invoice.total paid)) 2)
    (len overdue)
    (round_number (py_sum (map Invoice.total overdue)) 2)
    (len draft)
    (len sent)
    (match all_invoices with
     | [] => Int 0
     | _ :: _ =>
         Float (py_round
                  (fmul (ratio (len paid) (len all_invoices)) (of_int 100))
                  1)
     end).

(** The two conditions [list_invoices] may add, and the WHERE clause it
    builds from them. *)
Definition status_filter (status : option string) (r : Row.t) : bool :=
  if truthy status then String.eqb (Row.status r) (text_of status)
  else true.

Definition client_pattern (client : option string) : string :=
  ("%" ++ text_of client ++ "%")%string.

Definition client_filter (client : option string) (r : Row.t) : bool :=
  if truthy client then Text.like (client_pattern client) (Row.client_name r)
  else true.

Definition list_filter (status client : option string) (r : Row.t) : bool :=
  status_filter status r && client_filter client r.

(** [created_at DESC]: [a] may come before [b]. *)
Definition created_desc (a b : Row.t) : bool :=
  Text.le (Row.created_at b) (Row.created_at a).

(** The longest pattern, in bytes, that [LIKE] takes
    (SQLITE_MAX_LIKE_PATTERN_LENGTH, 50000 unless a build changes
    it). *)
Definition SQLITE_MAX_LIKE_PATTERN_LENGTH : Z := 50000.

(** [LIKE] is evaluated for the rows that pass the condition on the
    status, which comes first in the WHERE clause; it refuses a pattern
    that is too long the first time it is called, and is never called
    when no row gets that far. *)
Definition like_refused (status client : option string) (conn : db)
  : bool :=
  truthy client
  && (SQLITE_MAX_LIKE_PATTERN_LENGTH
      <? Z.of_nat (String.length (client_pattern client)))
  && existsb (status_filter status) (invoices conn).

Definition list_invoices (status client : option string) (conn : db)
  : result (list Invoice.t) :=
  if like_refused status client conn
  then Raise (OperationalError "LIKE or GLOB pattern too complex")
  else
    let rows :=
      order_by created_desc (filter (list_filter status client)
                               (invoices conn)) in
    mapM (fun r => get_invoice (Row.id r) conn) rows.

(* ------------------------------------------------------------------ *)
(** * Well-formed and reachable stores *)
(* ------------------------------------------------------------------ *)

(** What the result of a writing operation leaves in the store. *)
Definition outcome {A : Type} (r : result A * db) : result A := fst r.
Definition store {A : Type} (r : result A * db) : db := snd r.

(** [id] is the primary key of [invoices]. *)
Definition unique_ids (conn : db) : Prop :=
  NoDup (map Row.id (invoices conn)).

(** Every line item belongs to an invoice of the store. *)
Definition items_owned (conn : db) : Prop :=
  forall l, In l (line_items conn) ->
            In (ItemRow.invoice_id l) (map Row.id (invoices conn)).

(** [paid_at] and [payment_method] are set exactly on paid invoices. *)
Definition paid_fields_ok (r : Row.t) : Prop :=
  (Row.paid_at r <> None <-> Row.status r = "paid")
  /\ (Row.payment_method r <> None <-> Row.status r = "paid").

(** One call of a writing operation, whatever its arguments and whether
    it succeeds or raises. *)
Inductive step (conn : db) : db -> Prop :=
  | step_create now uuid4 client_name client_email items tax_rate due_days
      discount notes currency :
      step conn
        (store (create_invoice now uuid4 client_name client_email items
                  tax_rate due_days discount notes currency conn))
  | step_send invoice_id :
      step conn (store (send_invoice invoice_id conn))
  | step_paid now invoice_id payment_method :
      step conn (store (mark_paid now invoice_id payment_method conn))
  | step_overdue limit now :
      step conn (store (mark_overdue limit now conn)).

(** The stores the operations build from the empty one. *)
Inductive reachable : db -> Prop :=
  | reachable_init : reachable empty_db
  | reachable_step conn conn' :
      reachable conn -> step conn conn' -> reachable conn'.

(** The columns of table [invoices] an [Invoice] object carries. *)
Definition columns (inv : Invoice.t) : Row.t :=
  Row.make (Invoice.id inv) (Invoice.number inv) (Invoice.client_name inv)
    (Invoice.client_email inv) (Invoice.tax_rate inv)
    (Invoice.discount inv) (Invoice.status inv) (Invoice.due_date inv)
    (Invoice.created_at inv) (Invoice.paid_at inv)
    (Invoice.payment_method inv) (Invoice.notes inv) (Invoice.currency inv).

(** The invoice [get_invoice] builds from a row of the store. *)
Definition load (conn : db) (r : Row.t) : Invoice.t :=
  _row_to_invoice r
    (map item_of_row (Sql.select_line_items conn (Row.id r))).

(** The order ORDER BY [created_at] DESC asks for. *)
Definition newest_first (a b : Row.t) : Prop :=
  Text.le (Row.created_at b) (Row.created_at a) = true.

Definition has_status (s : string) (r : Row.t) : bool :=
  String.eqb (Row.status r) s.

(** The two transitions [send_invoice] and [mark_paid] are one scheme:
    look the row up, refuse a paid one with [msg], apply [set] to the
    row, read it back. *)
Definition transition (msg : string) (set : Row.t -> Row.t)
    (invoice_id : string) (conn : db) : result Invoice.t * db :=
  match Sql.select_invoice conn invoice_id with
  | None => (Raise (not_found invoice_id), conn)
  | Some row =>
      if String.eqb (Row.status row) "paid"
      then (Raise (ValueError msg), conn)
      else
        let conn' := Sql.update_invoices (has_id invoice_id) set conn in
        (get_invoice invoice_id conn', conn')
  end.

(** The rows the loop of [create_invoice] leaves in the table. *)
Fixpoint item_rows (uuid4 : nat -> string) (invoice_id : string) (i : nat)
    (items : list LineItem.t) : list ItemRow.t :=
  match items with
  | [] => []
  | li :: rest =>
      Sql.stored_item (item_row uuid4 invoice_id i li)
      :: item_rows uuid4 invoice_id (S i) rest
  end.

(** A line item and an invoice as they are read back once their floats
    have been through the REAL columns. *)
Definition read_back_item (li : LineItem.t) : LineItem.t :=
  LineItem.make (LineItem.description li) (Sql.real (LineItem.qty li))
    (Sql.real (LineItem.unit_price li)).

Definition read_back (inv : Invoice.t) : Invoice.t :=
  Invoice.make (Invoice.id inv) (Invoice.number inv)
    (Invoice.client_name inv) (Invoice.client_email inv)
    (map read_back_item (Invoice.line_items inv))
    (Sql.real (Invoice.tax_rate inv)) (Sql.real (Invoice.discount inv))
    (Invoice.status inv) (Invoice.due_date inv) (Invoice.created_at inv)
    (Invoice.paid_at inv) (Invoice.payment_method inv) (Invoice.notes inv)
    (Invoice.currency inv).

(** No quantity, price or rate of the invoice is [-0.0]: the invoice is
    then read back as it is. *)
Definition no_negative_zero (inv : Invoice.t) : Prop :=
  (forall li, In li (Invoice.line_items inv) ->
              LineItem.qty li <> S754_zero true
              /\ LineItem.unit_price li <> S754_zero true)
  /\ Invoice.tax_rate inv <> S754_zero true
  /\ Invoice.discount inv <> S754_zero true.

(** [n] written with exactly [w] decimal digits, most significant first:
    what [format_d w n] is for [0 <= n < 10^w]. *)
Fixpoint fixed (w : nat) (n : Z) : string :=
  match w with
  | O => EmptyString
  | S w' =>
      String (Text.digit (n / 10 ^ Z.of_nat w'))
        (fixed w' (n mod 10 ^ Z.of_nat w'))
  end.

(** Every due date of the store is a calendar date, written as
    [date.isoformat] writes it. *)
Definition due_dates_ok (conn : db) : Prop :=
  forall r, In r (invoices conn) ->
            exists d, valid d = true /\ Row.due_date r = date_isoformat d.

Definition well_formed (conn : db) : Prop :=
  unique_ids conn /\ items_owned conn
  /\ Forall paid_fields_ok (invoices conn)
  /\ due_dates_ok conn.

(** What [mark_overdue] does to a row. *)
Definition sweep_row (today : string) (r : Row.t) : Row.t :=
  if is_overdue today r then Row.set_status "overdue" r else r.

(* ------------------------------------------------------------------ *)
(** * Sample data *)
(* ------------------------------------------------------------------ *)

Module Demo.

(** 3 November 2026, 10:00:00 UTC. *)
Definition now : datetime := mkdatetime (mkdate 2026 11 3) 10 0 0 0.

(** A supply of identifiers: [inv-0], [inv-1], ... *)
Definition uuid4 (k : nat) : string :=
  ("inv-" ++ Text.decimal (Z.of_nat k))%string.

Definition uuid4' (k : nat) : string :=
  ("xyz-" ++ Text.decimal (Z.of_nat k))%string.

(** The line items of the specification's example. *)
Definition items : list LineItem.t :=
  [LineItem.make "Service A" (of_int 2) (of_int 100);
   LineItem.make "Service B" (of_int 1) (of_int 50)].

(** One licence at [1e200] apiece, [1e200] of them. *)
Definition huge_items : list LineItem.t :=
  [LineItem.make "Licence" (of_int (10 ^ 200)) (of_int (10 ^ 200))].

Definition create (uuid4 : nat -> string) (client_name : string)
    (items : list LineItem.t) (conn : db) : result Invoice.t * db :=
  create_invoice now uuid4 client_name "billing@example.com" items
    (literal 1 1) 30 (literal 5 2) EmptyString "USD" conn.

(** A store with the one invoice of Acme Corp, a draft. *)
Definition acme_db : db := store (create uuid4 "Acme Corp" items empty_db).

(** Its row. *)
Definition acme_row : Row.t :=
  Row.make "inv-0" "INV-2026-00001" "Acme Corp" "billing@example.com"
    (literal 1 1) (literal 5 2) "draft" "2026-12-03" "2026-11-03T10:00:00"
    None None EmptyString "USD".


(** A store with one invoice whose total overflows. *)
Definition huge_db : db := store (create uuid4 "Acme Corp" huge_items empty_db).

(** The store of Acme Corp after its invoice was sent, and the row. *)
Definition sent_db : db := store (send_invoice (uuid4 O) acme_db).


(** New Year's Day 2027, after the due date. *)
Definition later : datetime := mkdatetime (mkdate 2027 1 1) 0 0 0 0.

(** A store with two invoices, the first of them paid. *)
Definition two_db : db :=
  store (mark_paid now (uuid4 O) default_payment_method
           (store (create uuid4' "Globex" items acme_db))).

Definition paid_row : Row.t :=
  Row.set_paid "2026-11-03T10:00:00" "bank_transfer" acme_row.




(** A client name with a NUL after its first letter, and the store of
    its invoice. *)
Definition nul_name : string := String "A" (String zero "cme").

Definition nul_db : db := store (create uuid4 nul_name items empty_db).

(** A store with three invoices, the first of them paid. *)
Definition uuid4'' (k : nat) : string :=
  ("abc-" ++ Text.decimal (Z.of_nat k))%string.

Definition three_db : db :=
  store (create uuid4'' "Initech" items two_db).

End Demo.

(** A month [1 <= m <= 12], as one of twelve cases. *)
Ltac each_month H :=
  match type of H with
  | 1 <= ?m <= 12 =>
      let C := fresh "C" in
      assert (m = 1 \/ m = 2 \/ m = 3 \/ m = 4 \/ m = 5 \/ m = 6
              \/ m = 7 \/ m = 8 \/ m = 9 \/ m = 10 \/ m = 11 \/ m = 12)
        as C by lia;
      clear H; repeat (destruct C as [C|C]); subst
  end.

(** The entries of the two month tables and the tests on month numbers,
    evaluated where the month is known. *)
Ltac month_tables :=
  repeat match goal with
    | |- context [nth (Z.to_nat ?k) ?l 0] =>
        let v := eval vm_compute in (nth (Z.to_nat k) l 0) in
        change (nth (Z.to_nat k) l 0) with v
    | |- context [2 <? ?k] =>
        let v := eval vm_compute in (2 <? k) in
        change (2 <? k) with v
    | |- context [?k =? 2] =>
        let v := eval vm_compute in (k =? 2) in
        change (k =? 2) with v
    end;
  cbn [andb].

(* ------------------------------------------------------------------ *)
(** * Histories, and what they leave alone *)
(* ------------------------------------------------------------------ *)

(** Any number of calls, one after the other. *)
Inductive steps : db -> db -> Prop :=
  | steps_refl conn : steps conn conn
  | steps_step conn conn1 conn2 :
      steps conn conn1 -> step conn1 conn2 -> steps conn conn2.

(** The four values the operations write into [status]. *)
Definition known_status (s : string) : Prop :=
  s = "draft" \/ s = "sent" \/ s = "paid" \/ s = "overdue".

(** A row without the three columns the transitions write. *)
Definition frozen (r : Row.t) : Row.t :=
  Row.make (Row.id r) (Row.number r) (Row.client_name r)
    (Row.client_email r) (Row.tax_rate r) (Row.discount r) EmptyString
    (Row.due_date r) (Row.created_at r) None None (Row.notes r)
    (Row.currency r).

(** What every call does to the store: rows are rewritten in place with
    their frozen columns kept, new rows and new line items are appended
    under identifiers the store did not have. *)
Definition extends (conn conn' : db) : Prop :=
  exists f added added_items,
    invoices conn' = map f (invoices conn) ++ added
    /\ (forall r, In r (invoices conn) -> frozen (f r) = frozen r)
    /\ (forall r, In r added ->
          ~ In (Row.id r) (map Row.id (invoices conn))
          /\ Row.status r = "draft")
    /\ NoDup (map Row.id added)
    /\ line_items conn' = line_items conn ++ added_items
    /\ (forall l, In l added_items ->
          ~ In (ItemRow.invoice_id l) (map Row.id (invoices conn))).

(* ------------------------------------------------------------------ *)
(** * Invoice numbers *)
(* ------------------------------------------------------------------ *)

Module Number.

Definition is_digit (c : ascii) : bool :=
  let n := N_of_ascii c in ((48 <=? n) && (n <=? 57))%N.

Fixpoint all_digits (s : string) : bool :=
  match s with
  | EmptyString => true
  | String c s' => is_digit c && all_digits s'
  end.

(** The number [_invoice_number] writes for the year text [t] and the
    sequence number [k]. *)
Definition make (t : string) (k : Z) : string :=
  ("INV-" ++ t ++ "-" ++ Text.format_d 5 k)%string.

(** The pattern it counts with. *)
Definition pattern (t : string) : string := ("INV-" ++ t ++ "-%")%string.

(** The numbers its SELECT counts for the year text [t], in the order of
    the table. *)
Definition of_year (t : string) (conn : db) : list string :=
  filter (Text.like (pattern t)) (map Row.number (invoices conn)).

(** The first [n] numbers of the year text [t]. *)
Definition first (t : string) (n : nat) : list string :=
  map (fun i => make t (Z.of_nat i)) (seq 1 n).

(** Every number of the table was written for some year text, and the
    numbers of each year are its first ones, in order. *)
Definition sequential (conn : db) : Prop :=
  (forall r, In r (invoices conn) ->
     exists t k, all_digits t = true /\ Row.number r = make t k)
  /\ (forall t, all_digits t = true ->
        of_year t conn = first t (List.length (of_year t conn))).

End Number.

(** The identifiers [create_invoice] draws for its line items: the draws
    after the first, one for each item. *)
Definition item_ids (uuid4 : nat -> string) (items : list LineItem.t)
  : list string :=
  map (fun i => uuid4 (S i)) (seq O (List.length items)).

(** What the inserts of the loop need: the identifiers drawn are new to
    the table and differ from one another, and no quantity or price is a
    NaN. *)
Definition items_insertable (uuid4 : nat -> string)
    (items : list LineItem.t) (conn : db) : Prop :=
  NoDup (item_ids uuid4 items)
  /\ (forall i, In i (item_ids uuid4 items) ->
        ~ In i (map ItemRow.id (line_items conn)))
  /\ (forall li, In li items ->
        is_nan (LineItem.qty li) = false
        /\ is_nan (LineItem.unit_price li) = false).

(* ------------------------------------------------------------------ *)
(** * The order of time *)
(* ------------------------------------------------------------------ *)

(** The clock readings a [datetime] object can hold: a date, and a time
    of day within its ranges. *)
Definition valid_time (t : datetime) : bool :=
  valid (dt_date t)
  && (0 <=? hour t) && (hour t <? 24)
  && (0 <=? minute t) && (minute t <? 60)
  && (0 <=? second t) && (second t <? 60)
  && (0 <=? microsecond t) && (microsecond t <? 1000000).

(** The first difference decides. *)
Definition lexicographic (c k : comparison) : comparison :=
  match c with
  | Eq => k
  | _ => c
  end.

(** Python's comparison of two [datetime]s: of their fields, from the
    year down to the microsecond. *)
Definition datetime_cmp (a b : datetime) : comparison :=
  lexicographic (year (dt_date a) ?= year (dt_date b))
    (lexicographic (month (dt_date a) ?= month (dt_date b))
       (lexicographic (day (dt_date a) ?= day (dt_date b))
          (lexicographic (hour a ?= hour b)
             (lexicographic (minute a ?= minute b)
                (lexicographic (second a ?= second b)
                   (microsecond a ?= microsecond b)))))).

(* ------------------------------------------------------------------ *)
(** * What is stored for an invoice *)
(* ------------------------------------------------------------------ *)

(** The checks of [create_invoice] and of the tables, as a property of a
    row and of its line items in the store: both rates are in [0, 1],
    there is an item, the positions of the items count up from 0, and no
    quantity or price is a NaN. *)
Definition invoice_ok (conn : db) (r : Row.t) : Prop :=
  in_unit_range (Row.tax_rate r) = true
  /\ in_unit_range (Row.discount r) = true
  /\ Sql.select_line_items conn (Row.id r) <> []
  /\ map ItemRow.position (Sql.select_line_items conn (Row.id r))
     = map Z.of_nat
         (seq O (List.length (Sql.select_line_items conn (Row.id r))))
  /\ (forall l, In l (Sql.select_line_items conn (Row.id r)) ->
        is_nan (ItemRow.qty l) = false
        /\ is_nan (ItemRow.unit_price l) = false).

(* ------------------------------------------------------------------ *)
(** * Rounding and the monetary fields *)
(* ------------------------------------------------------------------ *)

(** [half_even a b] is an integer nearest to [a / b], the even one of
    the two when [a / b] is halfway. *)
Lemma half_even_nearest a b :
  0 <= a -> 0 < b ->
  0 <= half_even a b
  /\ 2 * Z.abs (a - half_even a b * b) <= b
  /\ (2 * Z.abs (a - half_even a b * b) = b ->
      Z.even (half_even a b) = true).
Proof.
  intros Ha Hb. unfold half_even.
  pose proof (Z.div_mod a b ltac:(lia)) as Hdm.
  pose proof (Z.mod_pos_bound a b Hb) as Hr.
  assert (0 <= a / b) as Hq by (apply Z.div_pos; lia).
  set (q := a / b) in *. set (r := a mod b) in *.
  assert (a - q * b = r) as E0 by lia.
  assert (a - (q + 1) * b = r - b) as E1 by lia.
  destruct (Z.compare_spec (2 * r) b) as [Heq|Hlt|Hgt].
  - destruct (Z.even q) eqn:Hev.
    + rewrite E0. split; [lia|]. split; [lia | auto].
    + rewrite E1. split; [lia|]. split; [lia|]. intros _.
      rewrite Z.even_add, Hev. reflexivity.
  - rewrite E0. split; [lia|]. split; lia.
  - rewrite E1. split; [lia|]. split; lia.
Qed.

(** [round(x, ndigits)] of a finite float is the float nearest to a
    decimal of [ndigits] places, [q / 10^ndigits] up to the sign of [x],
    where [q] is the integer nearest to [|x| * 10^ndigits], the even one
    on a tie; a [q] of zero gives the zero of the sign of [x]. *)
Lemma py_round_decimal s m e ndigits :
  exists q,
    0 <= q
    /\ py_round (S754_finite s m e) ndigits
       = (if q =? 0 then S754_zero s
          else literal (cond_Zopp s q) ndigits)
    /\ (0 <= e -> q = Zpos m * 2 ^ e * 10 ^ ndigits)
    /\ (e < 0 -> 0 <= ndigits ->
        2 * Z.abs (Zpos m * 10 ^ ndigits - q * 2 ^ (- e)) <= 2 ^ (- e)
        /\ (2 * Z.abs (Zpos m * 10 ^ ndigits - q * 2 ^ (- e)) = 2 ^ (- e) ->
            Z.even q = true)).
Proof.
  unfold py_round.
  set (q := if 0 <=? e then Zpos m * 2 ^ e * 10 ^ ndigits
            else half_even (Zpos m * 10 ^ ndigits) (2 ^ (- e))).
  assert (0 <= q) as Hq.
  { unfold q. destruct (Z.leb_spec 0 e) as [He|He].
    - assert (0 <= 2 ^ e) by (apply Z.pow_nonneg; lia).
      assert (0 <= 10 ^ ndigits) by (apply Z.pow_nonneg; lia).
      pose proof (Pos2Z.is_pos m). nia.
    - destruct (Z_le_gt_dec 0 ndigits) as [Hn|Hn].
      + apply half_even_nearest.
        * assert (0 <= 10 ^ ndigits) by (apply Z.pow_nonneg; lia). lia.
        * apply Z.pow_pos_nonneg; lia.
      + rewrite (Z.pow_neg_r 10 ndigits) by lia. rewrite Z.mul_0_r.
        unfold half_even. rewrite Z.div_0_l, Z.mod_0_l
          by (apply Z.pow_nonzero; lia).
        assert (0 < 2 ^ (- e)) by (apply Z.pow_pos_nonneg; lia).
        destruct (2 * 0 ?= 2 ^ (- e)); simpl; lia. }
  exists q. split; [exact Hq|]. split; [|split].
  - destruct q as [|k|k]; [reflexivity | | lia].
    cbn [Z.eqb]. unfold literal, ratio. now destruct s.
  - intros He. unfold q. apply Z.leb_le in He. now rewrite He.
  - intros He Hn. unfold q.
    destruct (Z.leb_spec 0 e) as [He'|_]; [lia|].
    apply half_even_nearest.
    + assert (0 <= 10 ^ ndigits) by (apply Z.pow_nonneg; lia). lia.
    + apply Z.pow_pos_nonneg; lia.
Qed.

(** [round] rounds: its result is its argument rounded in the sense of
    [rounded]. *)
Lemma py_round_rounded x nd : 0 <= nd -> rounded nd x (py_round x nd).
Proof.
  intros Hnd. destruct x as [s|s| |s m e]; try reflexivity.
  destruct (py_round_decimal s m e nd) as (q & Hq & Hr & Hpos & Hneg).
  unfold rounded. exists q. split; [exact Hq|].
  destruct (Z_le_gt_dec 0 e) as [He|He].
  - rewrite (Z.max_l e 0), (Z.max_r (- e) 0) by lia.
    change (2 ^ 0) with 1.
    replace (Zpos m * 10 ^ nd * 2 ^ e - q * 1) with 0
      by (rewrite (Hpos He); lia).
    simpl Z.abs. split; [lia|]. split; [lia | exact Hr].
  - rewrite (Z.max_r e 0), (Z.max_l (- e) 0) by lia.
    change (2 ^ 0) with 1. rewrite Z.mul_1_r.
    destruct (Hneg ltac:(lia) Hnd) as [Hnear Heven].
    split; [exact Hnear|]. split; [exact Heven | exact Hr].
Qed.

(** Rounding leaves no choice: the rounded value is one. *)
Lemma rounded_unique nd x y y' : rounded nd x y -> rounded nd x y' -> y = y'.
Proof.
  destruct x as [s|s| |s m e]; unfold rounded; try congruence.
  set (n := Zpos m * 10 ^ nd * 2 ^ Z.max e 0).
  set (d := 2 ^ Z.max (- e) 0).
  assert (0 < d) as Hd by (apply Z.pow_pos_nonneg; lia).
  clearbody n d.
  intros (q & Hq & Hn & He & ->) (q' & Hq' & Hn' & He' & ->).
  assert (q = q') as <-; [|reflexivity].
  set (a := n - q * d) in *. set (a' := n - q' * d) in *.
  assert ((q' - q) * d = a - a') as Hdiff by (unfold a, a'; ring).
  clearbody a a'.
  assert (a - a' <= d /\ a' - a <= d) as [B1 B2] by lia.
  assert (q' - q <= 1 /\ q - q' <= 1) as [H1 H2].
  { split; apply Z.nlt_ge; intros Hlt.
    - assert (2 * d <= (q' - q) * d) by (apply Z.mul_le_mono_nonneg_r; lia).
      lia.
    - assert (2 * d <= (q - q') * d) by (apply Z.mul_le_mono_nonneg_r; lia).
      lia. }
  destruct (Z.eq_dec q q') as [E|E]; [exact E|exfalso].
  assert (2 * Z.abs a = d /\ 2 * Z.abs a' = d)
    as [T T'].
  { assert (q' - q = 1 \/ q' - q = -1) as [K|K] by lia;
      rewrite K in Hdiff; lia. }
  specialize (He T). specialize (He' T').
  assert (q' = q + 1 \/ q = q' + 1) as [->| ->] by lia.
  - rewrite Z.even_add, He in He'. discriminate He'.
  - rewrite Z.even_add, He' in He. discriminate He.
Qed.

(** C1.  Every derived monetary field is rounded to 2 decimals where it
    is computed: a line total is [qty * unit_price] rounded, the subtotal
    the sum of the line totals rounded, then [subtotal * discount],
    [subtotal - discount_amount], [taxable_amount * tax_rate] and
    [taxable_amount + tax_amount], each rounded before the next uses it.
    Rounded means: the float nearest to the decimal [q / 100], [q] the
    integer nearest to 100 times the value and the even one of two; there
    is one such float, and it is what [round] returns.  The items
    (2, 100) and (1, 50) with a tax rate of 0.1 and a discount of 0.05
    give 250.00, 12.50, 237.50, 23.75 and 261.25; a line of 1 at 0.125
    comes to 0.12 and one at 0.375 to 0.38, one at -0.001 to -0.0, and
    the lines 0.1 and 0.2, whose sum is 0.30000000000000004, to a
    subtotal of 0.3. *)
Theorem monetary_fields_rounded :
  (forall li,
     rounded 2 (fmul (LineItem.qty li) (LineItem.unit_price li))
       (LineItem.total li))
  /\ (forall inv,
        rounded_number 2
          (py_sum (map LineItem.total (Invoice.line_items inv)))
          (Invoice.subtotal inv)
        /\ rounded 2
             (fmul (to_float (Invoice.subtotal inv)) (Invoice.discount inv))
             (Invoice.discount_amount inv)
        /\ rounded 2
             (fsub (to_float (Invoice.subtotal inv))
                (Invoice.discount_amount inv))
             (Invoice.taxable_amount inv)
        /\ rounded 2
             (fmul (Invoice.taxable_amount inv) (Invoice.tax_rate inv))
             (Invoice.tax_amount inv)
        /\ rounded 2
             (fadd (Invoice.taxable_amount inv) (Invoice.tax_amount inv))
             (Invoice.total inv))
  /\ (forall nd x y,
        0 <= nd -> (rounded nd x y <-> y = py_round x nd))
  /\ (forall inv d1 d2,
        Invoice.line_items inv
        = [LineItem.make d1 (of_int 2) (of_int 100);
           LineItem.make d2 (of_int 1) (of_int 50)] ->
        Invoice.tax_rate inv = literal 1 1 ->
        Invoice.discount inv = literal 5 2 ->
        Invoice.subtotal inv = Float (literal 25000 2)
        /\ Invoice.discount_amount inv = literal 1250 2
        /\ Invoice.taxable_amount inv = literal 23750 2
        /\ Invoice.tax_amount inv = literal 2375 2
        /\ Invoice.total inv = literal 26125 2)
  /\ (forall d,
        LineItem.total (LineItem.make d (of_int 1) (literal 125 3))
        = literal 12 2
        /\ LineItem.total (LineItem.make d (of_int 1) (literal 375 3))
           = literal 38 2
        /\ LineItem.total (LineItem.make d (of_int 1) (literal (-1) 3))
           = S754_zero true)
  /\ (forall inv d1 d2,
        Invoice.line_items inv
        = [LineItem.make d1 (of_int 1) (literal 1 1);
           LineItem.make d2 (of_int 1) (literal 2 1)] ->
        py_sum (map LineItem.total (Invoice.line_items inv))
        = Float (fadd (literal 1 1) (literal 2 1))
        /\ fadd (literal 1 1) (literal 2 1) <> literal 3 1
        /\ Invoice.subtotal inv = Float (literal 3 1)).
Proof.
  split; [intros li; apply py_round_rounded; lia|].
  split.
  { intros inv. split; [|repeat split; apply py_round_rounded; lia].
    unfold Invoice.subtotal, rounded_number, round_number.
    destruct (py_sum _) as [n|x]; [reflexivity|].
    eexists. split; [reflexivity|]. apply py_round_rounded. lia. }
  split.
  { intros nd x y Hnd. split.
    - intros H. apply (rounded_unique nd x); [exact H|].
      now apply py_round_rounded.
    - intros ->. now apply py_round_rounded. }
  split.
  { intros inv d1 d2 Hitems Htax Hdisc.
    unfold Invoice.total, Invoice.tax_amount, Invoice.taxable_amount,
      Invoice.discount_amount, Invoice.subtotal.
    rewrite Hitems, Htax, Hdisc. vm_compute. repeat split. }
  split.
  { intros d. vm_compute. repeat split. }
  intros inv d1 d2 Hitems. unfold Invoice.subtotal. rewrite Hitems.
  vm_compute. repeat split. discriminate.
Qed.

Lemma monetary_fields_rounded_witness :
  Invoice.line_items (load Demo.acme_db Demo.acme_row)
  = [LineItem.make "Service A" (of_int 2) (of_int 100);
     LineItem.make "Service B" (of_int 1) (of_int 50)]
  /\ Invoice.tax_rate (load Demo.acme_db Demo.acme_row) = literal 1 1
  /\ Invoice.discount (load Demo.acme_db Demo.acme_row) = literal 5 2
  /\ Invoice.total (load Demo.acme_db Demo.acme_row) = literal 26125 2.
Proof.
  assert (Invoice.line_items (load Demo.acme_db Demo.acme_row)
          = [LineItem.make "Service A" (of_int 2) (of_int 100);
             LineItem.make "Service B" (of_int 1) (of_int 50)]) as Hitems
    by (vm_compute; reflexivity).
  split; [exact Hitems|]. split; [reflexivity|]. split; [reflexivity|].
  apply (proj1 (proj2 (proj2 (proj2 monetary_fields_rounded)))
           (load Demo.acme_db Demo.acme_row) "Service A" "Service B"
           Hitems eq_refl eq_refl).
Defined.

(* ------------------------------------------------------------------ *)
(** * Floats as numbers *)
(* ------------------------------------------------------------------ *)

Lemma digits2_bounds m :
  2 ^ (Zpos (digits2_pos m) - 1) <= Zpos m < 2 ^ Zpos (digits2_pos m).
Proof.
  induction m as [m IH|m IH|]; cbn [digits2_pos].
  - rewrite Pos2Z.inj_succ.
    replace (Z.succ (Zpos (digits2_pos m)) - 1)
      with (Z.succ (Zpos (digits2_pos m) - 1)) by lia.
    rewrite !Z.pow_succ_r by lia. lia.
  - rewrite Pos2Z.inj_succ.
    replace (Z.succ (Zpos (digits2_pos m)) - 1)
      with (Z.succ (Zpos (digits2_pos m) - 1)) by lia.
    rewrite !Z.pow_succ_r by lia. lia.
  - simpl. lia.
Qed.

(** The mantissa and exponent of a finite binary64 value. *)
Lemma is_binary64_finite s m e :
  is_binary64 (S754_finite s m e) = true ->
  Zpos m < 2 ^ 53
  /\ (e = -1074 \/ (-1074 < e /\ 2 ^ 52 <= Zpos m))
  /\ -1074 <= e <= 971.
Proof.
  unfold is_binary64, valid_binary, bounded, canonical_mantissa, fexp, emin,
    prec, emax.
  rewrite andb_true_iff, Z.eqb_eq, Z.leb_le. intros [Hc He].
  pose proof (digits2_bounds m) as [Hlo Hhi].
  set (dg := Zpos (digits2_pos m)) in *.
  assert (dg <= 53) as Hdg by lia.
  split; [|split; [|lia]].
  - apply Z.lt_le_trans with (2 ^ dg); [exact Hhi|].
    apply Z.pow_le_mono_r; lia.
  - destruct (Z.eq_dec e (-1074)) as [|Hne]; [now left | right].
    assert (dg = 53) as Hdg53 by lia.
    split; [lia|]. rewrite Hdg53 in Hlo. exact Hlo.
Qed.

(** [m * 2^e <= 1] on the integers. *)
Lemma scaled_le_1 m e :
  (inject_Z (Zpos m) * Qpower 2 e <= 1)%Q <-> Zpos m <= 2 ^ (- e).
Proof.
  destruct (Z_le_gt_dec 0 e) as [He|He].
  - rewrite <- (Zpower_Qpower 2 e He), <- inject_Z_mult.
    change 1%Q with (inject_Z 1). rewrite <- Zle_Qle.
    assert (0 < 2 ^ e) by (apply Z.pow_pos_nonneg; lia).
    destruct (Z.eq_dec e 0) as [->|Hne].
    + simpl. lia.
    + rewrite (Z.pow_neg_r 2 (- e)) by lia.
      assert (2 ^ 1 <= 2 ^ e) as H2 by (apply Z.pow_le_mono_r; lia).
      change (2 ^ 1) with 2 in H2.
      pose proof (Pos2Z.is_pos m) as Hm.
      assert (2 <= Zpos m * 2 ^ e) by nia. lia.
  - replace e with (- (- e)) at 1 by lia.
    rewrite Qpower_opp, <- (Zpower_Qpower 2 (- e)) by lia.
    assert (0 < 2 ^ (- e)) as Hpos by (apply Z.pow_pos_nonneg; lia).
    assert (0 < inject_Z (2 ^ (- e)))%Q as HposQ
      by (change 0%Q with (inject_Z 0); now rewrite <- Zlt_Qlt).
    assert (~ inject_Z (2 ^ (- e)) == 0)%Q as Hnz
      by (intros Heq; rewrite Heq in HposQ; now apply Qlt_irrefl in HposQ).
    rewrite Zle_Qle.
    rewrite <- (Qmult_le_r (inject_Z (Zpos m)) (inject_Z (2 ^ (- e)))
                  (/ inject_Z (2 ^ (- e))))
      by (now apply Qinv_lt_0_compat).
    rewrite Qmult_inv_r by exact Hnz. reflexivity.
Qed.

Lemma scaled_pos m e : (0 < inject_Z (Zpos m) * Qpower 2 e)%Q.
Proof.
  apply Qmult_lt_0_compat.
  - change 0%Q with (inject_Z 0). now rewrite <- Zlt_Qlt.
  - now apply Qpower_0_lt.
Qed.

(** The test [0 <= x <= 1] of [create_invoice] holds of the floats that
    are numbers of the interval, and of no other: not of a NaN, not of an
    infinity. *)
Lemma in_unit_range_value x :
  is_binary64 x = true -> (in_unit_range x = true <-> within_unit x).
Proof.
  intros Hv. unfold within_unit. destruct x as [s|s| |s m e].
  - split; [|reflexivity]. intros _. exists 0%Q. repeat split.
    + apply Qle_refl.
    + discriminate.
  - split; [destruct s; discriminate|].
    intros (q & Hq & _). discriminate.
  - split; [discriminate|]. intros (q & Hq & _). discriminate.
  - apply is_binary64_finite in Hv. destruct Hv as (Hm & Hnorm & He).
    pose proof (scaled_pos m e) as Hpos.
    pose proof (scaled_le_1 m e) as Hle.
    destruct s.
    + split; [discriminate|]. intros (q & Hq & H0 & _).
      inversion Hq; subst q. clear Hq. exfalso.
      simpl in H0. change (Zneg m) with (- Zpos m)%Z in H0.
      rewrite inject_Z_opp in H0.
      assert (- inject_Z (Zpos m) * Qpower 2 e
              == - (inject_Z (Zpos m) * Qpower 2 e))%Q as E by ring.
      rewrite E in H0. apply (Qopp_le_compat 0) in H0.
      rewrite Qopp_involutive in H0. change (- 0)%Q with 0%Q in H0.
      apply (Qlt_not_le _ _ Hpos H0).
    + assert (in_unit_range (S754_finite false m e) = true
              <-> Zpos m <= 2 ^ (- e)) as Hcmp.
      { unfold in_unit_range, fleb, SFleb.
        change (of_int 0) with (S754_zero false).
        change (of_int 1) with (S754_finite false 4503599627370496 (-52)).
        cbn [SFcompare andb].
        destruct (Z.lt_trichotomy e (-52)) as [Hlt|[Heq|Hgt]].
        - rewrite (proj2 (Z.compare_lt_iff e (-52)) Hlt).
          split; [intros _|reflexivity].
          apply Z.le_trans with (2 ^ 53); [lia|].
          apply Z.pow_le_mono_r; lia.
        - subst e. rewrite Z.compare_refl.
          change (2 ^ (- -52)) with 4503599627370496.
          rewrite Pos.compare_cont_spec.
          destruct (Pos.compare_spec m 4503599627370496) as [Hc|Hc|Hc];
            cbn [Pos.switch_Eq];
            [subst m | apply Pos2Z.pos_lt_pos in Hc
             | apply Pos2Z.pos_lt_pos in Hc];
            split; intros; try reflexivity; try discriminate; lia.
        - rewrite (proj2 (Z.compare_gt_iff e (-52))) by lia.
          split; [discriminate|]. intros Hle'. exfalso.
          destruct Hnorm as [->|[_ Hn]]; [lia|].
          destruct (Z_le_gt_dec 0 (- e)).
          + assert (2 ^ (- e) <= 2 ^ 51) by (apply Z.pow_le_mono_r; lia).
            change (2 ^ 52) with 4503599627370496 in Hn.
            change (2 ^ 51) with 2251799813685248 in *. lia.
          + rewrite Z.pow_neg_r in Hle' by lia. lia. }
      rewrite Hcmp, <- Hle. split.
      * intros H. eexists. split; [reflexivity|]. split.
        -- now apply Qlt_le_weak.
        -- exact H.
      * intros (q & Hq & _ & H1). inversion Hq; subst q. exact H1.
Qed.

(* ------------------------------------------------------------------ *)
(** * Dates as text *)
(* ------------------------------------------------------------------ *)

Lemma append_assoc a b c :
  ((a ++ b) ++ c = a ++ (b ++ c))%string.
Proof. induction a as [|x a IH]; simpl; [reflexivity | now rewrite IH]. Qed.

Lemma append_length a b :
  String.length (a ++ b)%string = (String.length a + String.length b)%nat.
Proof. induction a as [|x a IH]; simpl; [reflexivity | now rewrite IH]. Qed.

(** The digits are pushed in front of what is already there. *)
Lemma decimal_aux_acc fuel : forall n acc,
  Text.decimal_aux fuel n acc
  = (Text.decimal_aux fuel n EmptyString ++ acc)%string.
Proof.
  induction fuel as [|fuel IH]; intros n acc; simpl; [reflexivity|].
  destruct (n <? 10); [reflexivity|].
  rewrite IH. rewrite (IH _ (String _ EmptyString)).
  now rewrite append_assoc.
Qed.

(** Any fuel that covers the binary digits of [n] gives the same text. *)
Lemma decimal_aux_fuel f1 : forall f2 n acc,
  (1 <= f1)%nat -> (1 <= f2)%nat ->
  0 <= n < 2 ^ Z.of_nat f1 -> n < 2 ^ Z.of_nat f2 ->
  Text.decimal_aux f1 n acc = Text.decimal_aux f2 n acc.
Proof.
  induction f1 as [|f1 IH]; intros f2 n acc H1 H2 Hn1 Hn2; [lia|].
  destruct f2 as [|f2]; [lia|]. simpl.
  destruct (Z.ltb_spec n 10) as [Hlt|Hge]; [reflexivity|].
  rewrite !Nat2Z.inj_succ, !Z.pow_succ_r in * by lia.
  assert (0 <= n / 10 < 2 ^ Z.of_nat f1) as Hq1
    by (Z.div_mod_to_equations; lia).
  assert (n / 10 < 2 ^ Z.of_nat f2) as Hq2
    by (Z.div_mod_to_equations; lia).
  assert (1 <= n / 10) as Hq by (Z.div_mod_to_equations; lia).
  apply IH; try assumption.
  - destruct f1; [simpl in Hq1; lia | lia].
  - destruct f2; [simpl in Hq2; lia | lia].
Qed.

Lemma decimal_small n :
  0 <= n < 10 -> Text.decimal n = String (Text.digit n) EmptyString.
Proof.
  intros Hn. unfold Text.decimal. simpl.
  destruct (Z.ltb_spec n 10); [|lia]. now rewrite Z.mod_small.
Qed.

(** The last digit of a number of two digits or more follows the digits
    of its tenth. *)
Lemma decimal_step n :
  10 <= n ->
  Text.decimal n
  = (Text.decimal (n / 10)
     ++ String (Text.digit (n mod 10)) EmptyString)%string.
Proof.
  intros Hn. unfold Text.decimal at 1.
  cbn [Text.decimal_aux]. destruct (Z.ltb_spec n 10) as [|_]; [lia|].
  rewrite decimal_aux_acc. f_equal. unfold Text.decimal.
  pose proof (Z.log2_spec n ltac:(lia)) as [Hlo Hhi].
  assert (3 <= Z.log2 n) as Hl3.
  { apply Z.log2_le_pow2; [lia|]. simpl. lia. }
  assert (1 <= n / 10) as Hq by (Z.div_mod_to_equations; lia).
  pose proof (Z.log2_spec (n / 10) ltac:(lia)) as [Hlo' Hhi'].
  pose proof (Z.log2_nonneg (n / 10)) as Hnn.
  apply decimal_aux_fuel.
  - apply Nat2Z.inj_le. rewrite Z2Nat.id by lia. simpl. lia.
  - lia.
  - rewrite Z2Nat.id by lia. split; [lia|].
    replace (Z.log2 n) with (Z.succ (Z.log2 n - 1)) by lia.
    rewrite Z.pow_succ_r by lia.
    replace (Z.succ (Z.log2 n)) with (Z.succ (Z.succ (Z.log2 n - 1)))
      in Hhi by lia.
    rewrite !Z.pow_succ_r in Hhi by lia.
    Z.div_mod_to_equations. lia.
  - rewrite Nat2Z.inj_succ, Z2Nat.id by lia. exact Hhi'.
Qed.

Lemma fixed_zero w : fixed w 0 = Text.zeros w.
Proof.
  induction w as [|w IH]; simpl; [reflexivity|].
  rewrite Z.div_0_l, Z.mod_0_l by (apply Z.pow_nonzero; lia).
  now rewrite IH.
Qed.

(** The last of [w + 1] digits follows the [w] digits of the tenth. *)
Lemma fixed_snoc w : forall n,
  0 <= n < 10 ^ Z.of_nat (S w) ->
  fixed (S w) n
  = (fixed w (n / 10) ++ String (Text.digit (n mod 10)) EmptyString)%string.
Proof.
  induction w as [|w IH]; intros n Hn.
  - simpl in *. rewrite Z.div_1_r, (Z.mod_small n 10) by lia. reflexivity.
  - rewrite Nat2Z.inj_succ, Z.pow_succ_r in Hn by lia.
    set (p := 10 ^ Z.of_nat (S w)) in *.
    assert (0 < p) as Hp by (apply Z.pow_pos_nonneg; lia).
    change (fixed (S (S w)) n)
      with (String (Text.digit (n / p)) (fixed (S w) (n mod p))).
    rewrite IH by (apply Z.mod_pos_bound; exact Hp).
    change (fixed (S w) (n / 10))
      with (String (Text.digit (n / 10 / 10 ^ Z.of_nat w))
              (fixed w (n / 10 mod 10 ^ Z.of_nat w))).
    assert (p = 10 * 10 ^ Z.of_nat w) as Hpw
      by (unfold p; rewrite Nat2Z.inj_succ, Z.pow_succ_r by lia;
          reflexivity).
    assert (0 < 10 ^ Z.of_nat w) as Hw by (apply Z.pow_pos_nonneg; lia).
    assert (n mod p = n mod 10 + 10 * (n / 10 mod 10 ^ Z.of_nat w)) as Hrem
      by (rewrite Hpw; apply Z.rem_mul_r; lia).
    assert (n / p = n / 10 / 10 ^ Z.of_nat w) as Hdiv
      by (rewrite Hpw, Z.div_div by lia; reflexivity).
    pose proof (Z.mod_pos_bound n 10 ltac:(lia)) as Hm10.
    assert (n mod p / 10 = n / 10 mod 10 ^ Z.of_nat w) as Hd
      by (rewrite Hrem; Z.div_mod_to_equations; lia).
    assert (n mod p mod 10 = n mod 10) as Hm
      by (rewrite Hrem; Z.div_mod_to_equations; lia).
    rewrite Hdiv, Hd, Hm. reflexivity.
Qed.

(** Below [10^w], padding with zeros to width [w] gives exactly [w]
    digits. *)
Lemma format_d_fixed w : forall n,
  0 <= n < 10 ^ Z.of_nat (S w) -> Text.format_d (S w) n = fixed (S w) n.
Proof.
  induction w as [|w IH]; intros n Hn.
  - simpl in Hn. unfold Text.format_d.
    rewrite decimal_small by lia. simpl.
    now rewrite Z.div_1_r.
  - rewrite fixed_snoc by exact Hn.
    rewrite Nat2Z.inj_succ, Z.pow_succ_r in Hn by lia.
    unfold Text.format_d. destruct (Z.ltb_spec n 10) as [Hlt|Hge].
    + rewrite decimal_small by lia.
      rewrite (Z.div_small n 10), (Z.mod_small n 10) by lia.
      now rewrite fixed_zero.
    + rewrite decimal_step by exact Hge.
      rewrite <- IH by (Z.div_mod_to_equations; lia).
      unfold Text.format_d. rewrite append_length, <- append_assoc.
      simpl String.length.
      replace (S (S w)
               - (String.length (Text.decimal (n / 10)) + 1))%nat
        with (S w - String.length (Text.decimal (n / 10)))%nat by lia.
      reflexivity.
Qed.

Lemma format_d_4 n : 0 <= n < 10000 -> Text.format_d 4 n = fixed 4 n.
Proof. intros Hn. apply format_d_fixed. simpl. lia. Qed.

Lemma format_d_2 n : 0 <= n < 100 -> Text.format_d 2 n = fixed 2 n.
Proof. intros Hn. apply format_d_fixed. simpl. lia. Qed.

Lemma fixed_length w : forall n, String.length (fixed w n) = w.
Proof.
  induction w as [|w IH]; simpl; intros n; [reflexivity|]. now rewrite IH.
Qed.

Lemma compare_digit a b :
  0 <= a <= 9 -> 0 <= b <= 9 ->
  Ascii.compare (Text.digit a) (Text.digit b) = (a ?= b).
Proof.
  intros Ha Hb. unfold Ascii.compare, Text.digit.
  rewrite !N_ascii_embedding by lia.
  rewrite <- (Z.add_compare_mono_l 48 a b).
  rewrite <- (Z2N.id (48 + a)), <- (Z2N.id (48 + b)) by lia.
  rewrite <- N2Z.inj_compare, !Z2N.inj_add by lia. reflexivity.
Qed.

(** Strings of equal length compare before what follows them does. *)
Lemma compare_app a1 : forall a2 b1 b2,
  String.length a1 = String.length a2 ->
  String.compare (a1 ++ b1) (a2 ++ b2)
  = match String.compare a1 a2 with
    | Eq => String.compare b1 b2
    | c => c
    end.
Proof.
  induction a1 as [|c1 a1 IH]; intros [|c2 a2] b1 b2 Hlen;
    simpl in *; try discriminate; [reflexivity|].
  destruct (Ascii.compare c1 c2); try reflexivity.
  apply IH. congruence.
Qed.

(** Numbers written with the same number of digits compare as their
    texts do. *)
Lemma compare_fixed w : forall a b,
  0 <= a < 10 ^ Z.of_nat w -> 0 <= b < 10 ^ Z.of_nat w ->
  String.compare (fixed w a) (fixed w b) = (a ?= b).
Proof.
  induction w as [|w IH]; intros a b Ha Hb.
  - simpl in *. assert (a = 0) by lia. assert (b = 0) by lia. now subst.
  - rewrite Nat2Z.inj_succ, Z.pow_succ_r in Ha, Hb by lia.
    cbn [fixed String.compare].
    set (p := 10 ^ Z.of_nat w) in *.
    assert (0 < p) as Hp by (apply Z.pow_pos_nonneg; lia).
    pose proof (Z.div_mod a p ltac:(lia)) as Hda.
    pose proof (Z.div_mod b p ltac:(lia)) as Hdb.
    pose proof (Z.mod_pos_bound a p Hp) as Hra.
    pose proof (Z.mod_pos_bound b p Hp) as Hrb.
    assert (0 <= a / p <= 9) as Hqa.
    { split; [apply Z.div_pos; lia|].
      assert (a / p < 10); [apply Z.div_lt_upper_bound; lia | lia]. }
    assert (0 <= b / p <= 9) as Hqb.
    { split; [apply Z.div_pos; lia|].
      assert (b / p < 10); [apply Z.div_lt_upper_bound; lia | lia]. }
    rewrite compare_digit by assumption.
    rewrite IH by assumption.
    destruct (Z.compare_spec (a / p) (b / p)) as [Hq|Hq|Hq].
    + rewrite Hda at 2. rewrite Hdb at 2. rewrite Hq.
      now rewrite Z.add_compare_mono_l.
    + symmetry. apply Z.compare_lt_iff. nia.
    + symmetry. apply Z.compare_gt_iff. nia.
Qed.

Lemma valid_bounds d :
  valid d = true ->
  1 <= year d <= 9999 /\ 1 <= month d <= 12
  /\ 1 <= day d <= _days_in_month (year d) (month d).
Proof.
  unfold valid, MINYEAR, MAXYEAR. rewrite !andb_true_iff, !Z.leb_le. lia.
Qed.

Lemma days_in_month_le y m : _days_in_month y m <= 31.
Proof.
  unfold _days_in_month. destruct ((m =? 2) && _is_leap y); [lia|].
  generalize (Z.to_nat m). intros n. unfold _DAYS_IN_MONTH.
  do 13 (destruct n as [|n]; [simpl; lia|]).
  destruct n; simpl; lia.
Qed.

Lemma date_isoformat_fixed d :
  valid d = true ->
  date_isoformat d
  = (fixed 4 (year d) ++ "-" ++ fixed 2 (month d) ++ "-"
     ++ fixed 2 (day d))%string.
Proof.
  intros Hv. apply valid_bounds in Hv. destruct Hv as (Hy & Hm & Hd).
  pose proof (days_in_month_le (year d) (month d)).
  unfold date_isoformat.
  rewrite format_d_4, !format_d_2 by lia. reflexivity.
Qed.

(** The texts of two dates compare as the dates do: year first, then
    month, then day. *)
Lemma date_isoformat_compare a b :
  valid a = true -> valid b = true ->
  String.compare (date_isoformat a) (date_isoformat b)
  = match year a ?= year b with
    | Eq => match month a ?= month b with
            | Eq => day a ?= day b
            | c => c
            end
    | c => c
    end.
Proof.
  intros Ha Hb. rewrite !date_isoformat_fixed by assumption.
  apply valid_bounds in Ha, Hb.
  destruct Ha as (Hya & Hma & Hda), Hb as (Hyb & Hmb & Hdb).
  pose proof (days_in_month_le (year a) (month a)).
  pose proof (days_in_month_le (year b) (month b)).
  rewrite compare_app by now rewrite !fixed_length.
  rewrite (compare_fixed 4) by (simpl; lia).
  destruct (year a ?= year b); try reflexivity.
  change ("-" ++ ?x)%string with (String "-" x). cbn [String.compare].
  change (Ascii.compare "-" "-") with Eq. cbv iota.
  rewrite compare_app by now rewrite !fixed_length.
  rewrite (compare_fixed 2) by (simpl; lia).
  destruct (month a ?= month b); try reflexivity.
  change ("-" ++ ?x)%string with (String "-" x). cbn [String.compare].
  change (Ascii.compare "-" "-") with Eq. cbv iota.
  apply (compare_fixed 2); simpl; lia.
Qed.

(** SQLite's [due_date < today] on the texts is the calendar order of
    the dates. *)
Lemma date_isoformat_lt a b :
  valid a = true -> valid b = true ->
  (Text.lt (date_isoformat a) (date_isoformat b) = true <-> before a b).
Proof.
  intros Ha Hb. unfold Text.lt, String.ltb, before.
  rewrite date_isoformat_compare by assumption.
  destruct (Z.compare_spec (year a) (year b));
    destruct (Z.compare_spec (month a) (month b));
    destruct (Z.compare_spec (day a) (day b));
    split; intros; try discriminate; try reflexivity; lia.
Qed.

(* ------------------------------------------------------------------ *)
(** * Day numbers *)
(* ------------------------------------------------------------------ *)

Lemma is_leap_cases y :
  (_is_leap y = true /\ y mod 4 = 0 /\ (y mod 100 <> 0 \/ y mod 400 = 0))
  \/ (_is_leap y = false /\ (y mod 4 <> 0 \/ (y mod 100 = 0 /\ y mod 400 <> 0))).
Proof.
  unfold _is_leap.
  destruct (Z.eqb_spec (y mod 4) 0); destruct (Z.eqb_spec (y mod 100) 0);
    destruct (Z.eqb_spec (y mod 400) 0); simpl; auto.
Qed.

Lemma days_before_year_succ y :
  _days_before_year (y + 1)
  = _days_before_year y + 365 + (if _is_leap y then 1 else 0).
Proof.
  unfold _days_before_year. replace (y + 1 - 1) with (y - 1 + 1) by lia.
  destruct (is_leap_cases y) as [(-> & H)|(-> & H)];
    Z.div_mod_to_equations; lia.
Qed.

Lemma days_before_year_le y1 y2 :
  y1 <= y2 -> _days_before_year y1 <= _days_before_year y2.
Proof.
  unfold _days_before_year. intros H. Z.div_mod_to_equations. lia.
Qed.

(** The days that precede the next month are the days that precede this
    one and its own. *)
Lemma days_before_month_succ y m :
  1 <= m <= 12 ->
  _days_before_month y m + _days_in_month y m
  = if m =? 12 then 365 + (if _is_leap y then 1 else 0)
    else _days_before_month y (m + 1).
Proof.
  intros Hm. unfold _days_before_month, _days_in_month.
  each_month Hm; destruct (_is_leap y); reflexivity.
Qed.

Lemma days_before_month_le y m1 m2 :
  1 <= m1 -> m1 <= m2 -> m2 <= 12 ->
  _days_before_month y m1 <= _days_before_month y m2.
Proof.
  intros H1 H12 H2.
  assert (1 <= m1 <= 12) as Ha by lia.
  assert (1 <= m2 <= 12) as Hb by lia.
  unfold _days_before_month.
  each_month Ha; each_month Hb; try lia; destruct (_is_leap y); simpl; lia.
Qed.

Lemma days_before_month_bound y m :
  1 <= m <= 12 ->
  0 <= _days_before_month y m
  /\ _days_before_month y m + _days_in_month y m
     <= 365 + (if _is_leap y then 1 else 0).
Proof.
  intros Hm. unfold _days_before_month, _days_in_month.
  each_month Hm; destruct (_is_leap y); simpl; lia.
Qed.

(** The day number grows with the calendar. *)
Lemma toordinal_lt a b :
  valid a = true -> valid b = true -> before a b ->
  toordinal a < toordinal b.
Proof.
  intros Ha Hb Hab. apply valid_bounds in Ha, Hb.
  destruct Ha as (Hya & Hma & Hda), Hb as (Hyb & Hmb & Hdb).
  unfold toordinal, _ymd2ord.
  pose proof (days_before_month_bound (year a) (month a) Hma) as [Ha0 Ha1].
  pose proof (days_before_month_bound (year b) (month b) Hmb) as [Hb0 Hb1].
  destruct Hab as [Hy|[Hy [Hm|[Hm Hd]]]].
  - pose proof (days_before_year_succ (year a)) as Hs.
    pose proof (days_before_year_le (year a + 1) (year b)) as Hle. lia.
  - rewrite Hy in *.
    pose proof (days_before_month_succ (year b) (month a) Hma) as Hs.
    destruct (Z.eqb_spec (month a) 12); [lia|].
    pose proof (days_before_month_le (year b) (month a + 1) (month b)). lia.
  - rewrite Hy, Hm. lia.
Qed.

Lemma before_or_not a b :
  valid a = true -> valid b = true ->
  ~ before a b -> toordinal b <= toordinal a.
Proof.
  intros Ha Hb Hn.
  assert (a = b \/ before b a) as [->|Hba].
  { unfold before in *. destruct a as [ya ma da], b as [yb mb db].
    simpl in *.
    destruct (Z.eq_dec ya yb); [|right; lia].
    destruct (Z.eq_dec ma mb); [|right; lia].
    destruct (Z.eq_dec da db); [left; congruence | right; lia]. }
  - lia.
  - pose proof (toordinal_lt b a Hb Ha Hba). lia.
Qed.

(* ------------------------------------------------------------------ *)
(** * Reading a date back *)
(* ------------------------------------------------------------------ *)

Lemma digit_value_digit a :
  0 <= a <= 9 -> Text.digit_value (Text.digit a) = Some a.
Proof.
  intros Ha. unfold Text.digit_value, Text.digit.
  rewrite N_ascii_embedding by lia.
  rewrite N2Z.inj_add, Z2N.id by lia. change (Z.of_N 48) with 48.
  replace ((48 <=? 48 + a) && (48 + a <=? 57)) with true
    by (symmetry; apply andb_true_iff; split; apply Z.leb_le; lia).
  f_equal. lia.
Qed.

Lemma parse_fixed w : forall n acc,
  0 <= n < 10 ^ Z.of_nat w ->
  Text.parse_digits (fixed w n) acc = Some (acc * 10 ^ Z.of_nat w + n).
Proof.
  induction w as [|w IH]; intros n acc Hn.
  - simpl in *. f_equal. lia.
  - rewrite Nat2Z.inj_succ, Z.pow_succ_r in * by lia.
    cbn [fixed Text.parse_digits].
    set (p := 10 ^ Z.of_nat w) in *.
    assert (0 < p) as Hp by (apply Z.pow_pos_nonneg; lia).
    pose proof (Z.div_mod n p ltac:(lia)) as Hdm.
    pose proof (Z.mod_pos_bound n p Hp) as Hr.
    assert (0 <= n / p <= 9) as Hq.
    { split; [apply Z.div_pos; lia|].
      assert (n / p < 10); [apply Z.div_lt_upper_bound; lia | lia]. }
    rewrite digit_value_digit by exact Hq.
    rewrite IH by exact Hr. f_equal. nia.
Qed.

Lemma isoformat_shape a b c :
  String.length a = 4%nat -> String.length b = 2%nat ->
  String.length c = 2%nat ->
  let s := (a ++ "-" ++ b ++ "-" ++ c)%string in
  String.length s = 10%nat
  /\ String.substring 0 4 s = a
  /\ String.substring 4 1 s = "-"
  /\ String.substring 5 2 s = b
  /\ String.substring 7 1 s = "-"
  /\ String.substring 8 2 s = c.
Proof.
  destruct a as [|a1 [|a2 [|a3 [|a4 [|]]]]]; try discriminate.
  destruct b as [|b1 [|b2 [|]]]; try discriminate.
  destruct c as [|c1 [|c2 [|]]]; try discriminate.
  intros _ _ _. repeat split.
Qed.

(** A date written by [date.isoformat] is read back as it was. *)
Lemma fromisoformat_isoformat d :
  valid d = true -> date_fromisoformat (date_isoformat d) = Some d.
Proof.
  intros Hv. rewrite date_isoformat_fixed by exact Hv.
  pose proof (valid_bounds d Hv) as (Hy & Hm & Hd).
  pose proof (days_in_month_le (year d) (month d)).
  destruct (isoformat_shape (fixed 4 (year d)) (fixed 2 (month d))
              (fixed 2 (day d)) (fixed_length _ _) (fixed_length _ _)
              (fixed_length _ _)) as (Hlen & H0 & H4 & H5 & H7 & H8).
  unfold date_fromisoformat.
  rewrite Hlen, H0, H4, H5, H7, H8.
  rewrite !parse_fixed by (simpl; lia).
  cbn [Nat.eqb negb String.eqb Ascii.eqb Bool.eqb andb Z.mul Z.add].
  destruct d as [y m dd]. simpl in Hv |- *. now rewrite Hv.
Qed.

(* ------------------------------------------------------------------ *)
(** * From a day number to a date *)
(* ------------------------------------------------------------------ *)

Lemma valid_intro y m d :
  1 <= y <= 9999 -> 1 <= m <= 12 -> 1 <= d <= _days_in_month y m ->
  valid (mkdate y m d) = true.
Proof.
  intros Hy Hm Hd. unfold valid, MINYEAR, MAXYEAR. simpl.
  rewrite !andb_true_iff, !Z.leb_le. lia.
Qed.

(** The month and the day [_ord2ymd] finds for the [n]-th day of a year
    (counted from 0) are a month and a day of that month. *)
Lemma month_day_valid y n (leapyear : bool) :
  1 <= y <= 9999 -> 0 <= n <= 364 -> _is_leap y = leapyear ->
  let m := Z.shiftr (n + 50) 5 in
  let preceding :=
    nth (Z.to_nat m) _DAYS_BEFORE_MONTH 0
    + (if (2 <? m) && leapyear then 1 else 0) in
  valid
    (if n <? preceding then
       mkdate y (m - 1)
         (n - (preceding
               - (nth (Z.to_nat (m - 1)) _DAYS_IN_MONTH 0
                  + (if (m - 1 =? 2) && leapyear then 1 else 0))) + 1)
     else mkdate y m (n - preceding + 1)) = true.
Proof.
  intros Hy Hn Hleap. cbv zeta.
  rewrite Z.shiftr_div_pow2 by lia. change (2 ^ 5) with 32.
  assert (1 <= (n + 50) / 32 <= 12) as Hm
    by (Z.div_mod_to_equations; lia).
  remember ((n + 50) / 32) as m eqn:Hmdef.
  assert (32 * m <= n + 50 < 32 * m + 32) as Hrange
    by (subst m; Z.div_mod_to_equations; lia).
  clear Hmdef.
  destruct leapyear; each_month Hm; simpl;
    match goal with
    | |- context [n <? ?c] => destruct (Z.ltb_spec n c)
    end;
    apply valid_intro; try lia;
    unfold _days_in_month; rewrite Hleap; simpl; lia.
Qed.

(** The year [_ord2ymd] finds is a leap year exactly when its own test
    says so (the assertion in Python's reference implementation). *)
Lemma leap_flag n400 n100 n4 n1 :
  0 <= n100 <= 3 -> 0 <= n4 <= 24 -> 0 <= n1 <= 3 ->
  _is_leap (n400 * 400 + 1 + n100 * 100 + n4 * 4 + n1)
  = (n1 =? 3) && (negb (n4 =? 24) || (n100 =? 3)).
Proof.
  intros H100 H4 H1. unfold _is_leap.
  set (y := n400 * 400 + 1 + n100 * 100 + n4 * 4 + n1).
  destruct (Z.eqb_spec (y mod 4) 0) as [E4|E4];
    destruct (Z.eqb_spec (y mod 100) 0) as [E100|E100];
    destruct (Z.eqb_spec (y mod 400) 0) as [E400|E400];
    destruct (Z.eqb_spec n1 3) as [F1|F1];
    destruct (Z.eqb_spec n4 24) as [F4|F4];
    destruct (Z.eqb_spec n100 3) as [F100|F100];
    simpl; try reflexivity; exfalso; subst y;
    Z.div_mod_to_equations; lia.
Qed.

Lemma ord2ymd_valid o :
  1 <= o <= _MAXORDINAL -> valid (_ord2ymd o) = true.
Proof.
  unfold _MAXORDINAL. intros Ho. unfold _ord2ymd.
  change _DI400Y with 146097. change _DI100Y with 36524.
  change _DI4Y with 1461. cbv zeta.
  set (n400 := (o - 1) / 146097).
  set (r400 := (o - 1) mod 146097).
  set (n100 := r400 / 36524).
  set (r100 := r400 mod 36524).
  set (n4 := r100 / 1461).
  set (r4 := r100 mod 1461).
  set (n1 := r4 / 365).
  set (n := r4 mod 365).
  assert (o - 1 = 146097 * n400 + r400 /\ 0 <= r400 < 146097) as [E400 B400]
    by (subst n400 r400; Z.div_mod_to_equations; lia).
  assert (r400 = 36524 * n100 + r100 /\ 0 <= r100 < 36524) as [E100 B100]
    by (subst n100 r100; Z.div_mod_to_equations; lia).
  assert (r100 = 1461 * n4 + r4 /\ 0 <= r4 < 1461) as [E4 B4]
    by (subst n4 r4; Z.div_mod_to_equations; lia).
  assert (r4 = 365 * n1 + n /\ 0 <= n < 365) as [E1 B1]
    by (subst n1 n; Z.div_mod_to_equations; lia).
  clearbody n400 r400 n100 r100 n4 r4 n1 n.
  assert (0 <= n400 /\ 0 <= n100 <= 4 /\ 0 <= n4 <= 24 /\ 0 <= n1 <= 4)
    as (P400 & P100 & P4 & P1) by lia.
  destruct (Z.eqb_spec n1 4) as [F1|F1]; [|destruct (Z.eqb_spec n100 4) as [F100|F100]];
    cbn [orb].
  - apply valid_intro; [lia | lia | ].
    unfold _days_in_month. simpl. lia.
  - apply valid_intro; [lia | lia | ].
    unfold _days_in_month. simpl. lia.
  - apply month_day_valid; [lia | lia | ].
    apply leap_flag; lia.
Qed.

(** [now + timedelta(days=n)] is a date, when it is anything. *)
Lemma add_days_valid d n due :
  add_days d n = Ok due -> valid due = true.
Proof.
  unfold add_days. intros H.
  destruct ((1 <=? toordinal d + n) && (toordinal d + n <=? _MAXORDINAL))
    eqn:Hrange; [|discriminate].
  inversion H. apply ord2ymd_valid.
  apply andb_true_iff in Hrange. rewrite !Z.leb_le in Hrange. exact Hrange.
Qed.

(* ------------------------------------------------------------------ *)
(** * Properties of the store primitives *)
(* ------------------------------------------------------------------ *)

Lemma select_invoice_found conn invoice_id row :
  Sql.select_invoice conn invoice_id = Some row ->
  In row (invoices conn) /\ Row.id row = invoice_id.
Proof.
  unfold Sql.select_invoice. intros H.
  apply find_some in H. destruct H as [Hin Heq].
  apply String.eqb_eq in Heq. auto.
Qed.

Lemma select_invoice_missing conn invoice_id :
  Sql.select_invoice conn invoice_id = None ->
  ~ In invoice_id (map Row.id (invoices conn)).
Proof.
  unfold Sql.select_invoice. intros H Hin.
  apply in_map_iff in Hin. destruct Hin as [r [Hid Hr]].
  apply (find_none _ _ H) in Hr. rewrite Hid, String.eqb_refl in Hr.
  discriminate.
Qed.

Lemma select_invoice_unique conn row :
  unique_ids conn -> In row (invoices conn) ->
  Sql.select_invoice conn (Row.id row) = Some row.
Proof.
  unfold unique_ids, Sql.select_invoice.
  induction (invoices conn) as [|r rows IH]; simpl; intros Hnd Hin.
  - contradiction.
  - inversion Hnd as [|? ? Hnotin Hnd']; subst.
    destruct (String.eqb_spec (Row.id r) (Row.id row)) as [Heq|Hne].
    + destruct Hin as [->|Hin]; [reflexivity|].
      exfalso. apply Hnotin. rewrite Heq. now apply in_map.
    + destruct Hin as [->|Hin]; [congruence|]. now apply IH.
Qed.

(** A lookup sees an update through its WHERE clause, as long as the
    assignment leaves the key alone. *)
Lemma select_update cond set conn invoice_id :
  (forall r, Row.id (set r) = Row.id r) ->
  Sql.select_invoice (Sql.update_invoices cond set conn) invoice_id
  = option_map (fun r => if cond r then set r else r)
      (Sql.select_invoice conn invoice_id).
Proof.
  intros Hid. unfold Sql.select_invoice, Sql.update_invoices. simpl.
  induction (invoices conn) as [|r rows IH]; simpl; [reflexivity|].
  replace (Row.id (if cond r then set r else r)) with (Row.id r)
    by (destruct (cond r); [now rewrite Hid | reflexivity]).
  destruct (String.eqb (Row.id r) invoice_id); [reflexivity | exact IH].
Qed.

Lemma set_status_id v r : Row.id (Row.set_status v r) = Row.id r.
Proof. reflexivity. Qed.

Lemma set_paid_id a m r : Row.id (Row.set_paid a m r) = Row.id r.
Proof. reflexivity. Qed.

Lemma update_line_items cond set conn :
  line_items (Sql.update_invoices cond set conn) = line_items conn.
Proof. reflexivity. Qed.

Lemma select_line_items_update cond set conn invoice_id :
  Sql.select_line_items (Sql.update_invoices cond set conn) invoice_id
  = Sql.select_line_items conn invoice_id.
Proof. reflexivity. Qed.

Lemma update_ids cond set conn :
  (forall r, Row.id (set r) = Row.id r) ->
  map Row.id (invoices (Sql.update_invoices cond set conn))
  = map Row.id (invoices conn).
Proof.
  intros Hid. unfold Sql.update_invoices. simpl. rewrite map_map.
  apply map_ext. intros r. destruct (cond r); [apply Hid | reflexivity].
Qed.

(** [get_invoice] succeeds exactly on the ids of the store. *)
Lemma get_invoice_row conn invoice_id row :
  Sql.select_invoice conn invoice_id = Some row ->
  get_invoice invoice_id conn
  = Ok (_row_to_invoice row
          (map item_of_row (Sql.select_line_items conn invoice_id))).
Proof. intros H. unfold get_invoice. now rewrite H. Qed.

Lemma send_invoice_transition invoice_id conn :
  send_invoice invoice_id conn
  = transition "Cannot send a paid invoice" (Row.set_status "sent")
      invoice_id conn.
Proof.
  unfold send_invoice, transition, with_conn.
  destruct (Sql.select_invoice conn invoice_id) as [row|]; [|reflexivity].
  destruct (String.eqb (Row.status row) "paid"); reflexivity.
Qed.

Lemma mark_paid_transition now invoice_id payment_method conn :
  mark_paid now invoice_id payment_method conn
  = transition "Invoice already paid"
      (Row.set_paid (_now now) payment_method) invoice_id conn.
Proof.
  unfold mark_paid, transition, with_conn.
  destruct (Sql.select_invoice conn invoice_id) as [row|]; [|reflexivity].
  destruct (String.eqb (Row.status row) "paid"); reflexivity.
Qed.

Lemma transition_ok msg set invoice_id conn row :
  (forall r, Row.id (set r) = Row.id r) ->
  Sql.select_invoice conn invoice_id = Some row ->
  Row.status row <> "paid" ->
  transition msg set invoice_id conn
  = (Ok (_row_to_invoice (set row)
           (map item_of_row (Sql.select_line_items conn invoice_id))),
     Sql.update_invoices (has_id invoice_id) set conn).
Proof.
  intros Hid Hsel Hst. unfold transition. rewrite Hsel.
  apply String.eqb_neq in Hst. rewrite Hst. cbv zeta.
  rewrite (get_invoice_row _ _ (set row)); [reflexivity|].
  rewrite select_update by exact Hid. rewrite Hsel. simpl.
  destruct (select_invoice_found _ _ _ Hsel) as [_ Heq].
  unfold has_id. rewrite Heq, String.eqb_refl. reflexivity.
Qed.

Lemma transition_paid msg set invoice_id conn row :
  Sql.select_invoice conn invoice_id = Some row ->
  Row.status row = "paid" ->
  transition msg set invoice_id conn = (Raise (ValueError msg), conn).
Proof.
  intros Hsel Hst. unfold transition. rewrite Hsel, Hst. reflexivity.
Qed.

Lemma transition_other msg set invoice_id conn other :
  (forall r, Row.id (set r) = Row.id r) ->
  other <> invoice_id ->
  Sql.select_invoice (store (transition msg set invoice_id conn)) other
  = Sql.select_invoice conn other.
Proof.
  intros Hid Hne. unfold transition.
  destruct (Sql.select_invoice conn invoice_id) as [row|] eqn:Hsel;
    [|reflexivity].
  destruct (String.eqb (Row.status row) "paid"); [reflexivity|].
  unfold store. simpl. rewrite select_update by exact Hid.
  destruct (Sql.select_invoice conn other) as [r|] eqn:Hsel'; [|reflexivity].
  simpl. destruct (select_invoice_found _ _ _ Hsel') as [_ Heq].
  unfold has_id. rewrite Heq.
  apply String.eqb_neq in Hne. now rewrite Hne.
Qed.

(** What a transition does to an invoice of the store. *)
Lemma transition_spec msg set invoice_id conn row :
  (forall r, Row.id (set r) = Row.id r) ->
  Sql.select_invoice conn invoice_id = Some row ->
  (Row.status row <> "paid" ->
   outcome (transition msg set invoice_id conn)
   = Ok (_row_to_invoice (set row)
           (map item_of_row (Sql.select_line_items conn invoice_id)))
   /\ get_invoice invoice_id (store (transition msg set invoice_id conn))
      = Ok (_row_to_invoice (set row)
              (map item_of_row (Sql.select_line_items conn invoice_id))))
  /\ ((exists m,
         outcome (transition msg set invoice_id conn) = Raise (ValueError m))
      <-> Row.status row = "paid")
  /\ (Row.status row = "paid" ->
      transition msg set invoice_id conn = (Raise (ValueError msg), conn))
  /\ (forall other, other <> invoice_id ->
        Sql.select_invoice (store (transition msg set invoice_id conn)) other
        = Sql.select_invoice conn other).
Proof.
  intros Hid Hsel. split; [|split; [|split]].
  - intros Hst. rewrite (transition_ok _ _ _ _ row Hid Hsel Hst).
    split; [reflexivity|]. unfold store. simpl.
    rewrite (get_invoice_row _ _ (set row)); [reflexivity|].
    rewrite select_update by exact Hid. rewrite Hsel. simpl.
    destruct (select_invoice_found _ _ _ Hsel) as [_ Heq].
    unfold has_id. now rewrite Heq, String.eqb_refl.
  - split.
    + intros [m Hraise].
      destruct (String.eqb_spec (Row.status row) "paid") as [Heq|Hne];
        [exact Heq|].
      rewrite (transition_ok _ _ _ _ row Hid Hsel Hne) in Hraise.
      discriminate.
    + intros Hst. rewrite (transition_paid _ _ _ _ row Hsel Hst).
      now eexists.
  - intros Hst. apply (transition_paid _ _ _ _ row Hsel Hst).
  - intros other Hne. now apply transition_other.
Qed.

(* ------------------------------------------------------------------ *)
(** * The life cycle *)
(* ------------------------------------------------------------------ *)

(** C4.  [send_invoice] on an invoice of the store that is not paid
    (draft, sent or overdue) sets its status to ["sent"], leaves every
    other column and every other invoice as they were, and returns the
    invoice as stored; it raises the [ValueError] of a refused transition
    if and only if the invoice is paid, and then the store is unchanged. *)
Theorem send_invoice_spec invoice_id conn row :
  Sql.select_invoice conn invoice_id = Some row ->
  (Row.status row <> "paid" ->
   exists inv,
     outcome (send_invoice invoice_id conn) = Ok inv
     /\ Invoice.status inv = "sent"
     /\ columns inv = Row.set_status "sent" row
     /\ get_invoice invoice_id (store (send_invoice invoice_id conn)) = Ok inv)
  /\ ((exists msg,
         outcome (send_invoice invoice_id conn) = Raise (ValueError msg))
      <-> Row.status row = "paid")
  /\ (Row.status row = "paid" ->
      send_invoice invoice_id conn
      = (Raise (ValueError "Cannot send a paid invoice"), conn))
  /\ (forall other, other <> invoice_id ->
        Sql.select_invoice (store (send_invoice invoice_id conn)) other
        = Sql.select_invoice conn other).
Proof.
  intros Hsel. rewrite send_invoice_transition.
  destruct (transition_spec "Cannot send a paid invoice"
              (Row.set_status "sent") invoice_id conn row
              (set_status_id "sent") Hsel) as (Hok & Hiff & Hpaid & Hother).
  repeat split; try assumption; try apply Hiff.
  intros Hst. destruct (Hok Hst) as (Hout & Hget).
  eexists. split; [exact Hout|]. split; [reflexivity|].
  split; [reflexivity | exact Hget].
Qed.

(** The draft of Acme Corp is sent. *)
Lemma send_invoice_spec_witness :
  Sql.select_invoice Demo.acme_db "inv-0" = Some Demo.acme_row
  /\ Row.status Demo.acme_row <> "paid"
  /\ exists inv,
       outcome (send_invoice "inv-0" Demo.acme_db) = Ok inv
       /\ Invoice.status inv = "sent".
Proof.
  assert (Sql.select_invoice Demo.acme_db "inv-0" = Some Demo.acme_row)
    as Hsel by (vm_compute; reflexivity).
  assert (Row.status Demo.acme_row <> "paid") as Hst by discriminate.
  split; [exact Hsel|]. split; [exact Hst|].
  destruct (send_invoice_spec "inv-0" Demo.acme_db Demo.acme_row Hsel)
    as (Hok & _).
  destruct (Hok Hst) as (inv & Hout & Hsent & _).
  exists inv. split; assumption.
Defined.

(** C3.  [mark_paid] on an invoice of the store that is not paid sets its
    status to ["paid"], [paid_at] to the time of the call and
    [payment_method] to the argument, whose default is
    ["bank_transfer"]; on a paid invoice it raises the [ValueError] of a
    refused transition and leaves the store as it was. *)
Theorem mark_paid_spec now invoice_id payment_method conn row :
  Sql.select_invoice conn invoice_id = Some row ->
  (Row.status row <> "paid" ->
   exists inv,
     outcome (mark_paid now invoice_id payment_method conn) = Ok inv
     /\ Invoice.status inv = "paid"
     /\ Invoice.paid_at inv = Some (isoformat now)
     /\ Invoice.payment_method inv = Some payment_method
     /\ columns inv = Row.set_paid (isoformat now) payment_method row
     /\ get_invoice invoice_id
          (store (mark_paid now invoice_id payment_method conn)) = Ok inv)
  /\ (Row.status row = "paid" ->
      mark_paid now invoice_id payment_method conn
      = (Raise (ValueError "Invoice already paid"), conn))
  /\ default_payment_method = "bank_transfer".
Proof.
  intros Hsel. rewrite mark_paid_transition.
  destruct (transition_spec "Invoice already paid"
              (Row.set_paid (_now now) payment_method) invoice_id conn row
              (set_paid_id _ _) Hsel) as (Hok & _ & Hpaid & _).
  repeat split; try assumption.
  intros Hst. destruct (Hok Hst) as (Hout & Hget).
  eexists. split; [exact Hout|]. repeat split. exact Hget.
Qed.

(** The draft of Acme Corp is paid, by the default method. *)
Lemma mark_paid_spec_witness :
  Sql.select_invoice Demo.acme_db "inv-0" = Some Demo.acme_row
  /\ Row.status Demo.acme_row <> "paid"
  /\ exists inv,
       outcome (mark_paid Demo.now "inv-0" default_payment_method
                  Demo.acme_db) = Ok inv
       /\ Invoice.status inv = "paid"
       /\ Invoice.paid_at inv = Some (isoformat Demo.now)
       /\ Invoice.payment_method inv = Some "bank_transfer".
Proof.
  assert (Sql.select_invoice Demo.acme_db "inv-0" = Some Demo.acme_row)
    as Hsel by (vm_compute; reflexivity).
  assert (Row.status Demo.acme_row <> "paid") as Hst by discriminate.
  split; [exact Hsel|]. split; [exact Hst|].
  destruct (mark_paid_spec Demo.now "inv-0" default_payment_method
              Demo.acme_db Demo.acme_row Hsel) as (Hok & _).
  destruct (Hok Hst) as (inv & Hout & Hpaid & Hat & Hpm & _).
  exists inv. repeat split; assumption.
Defined.

(* ------------------------------------------------------------------ *)
(** * Creation *)
(* ------------------------------------------------------------------ *)

Lemma insert_line_item_ok conn l conn' :
  Sql.insert_line_item conn l = Ok conn' ->
  conn' = mkdb (invoices conn) (line_items conn ++ [Sql.stored_item l])
  /\ is_nan (ItemRow.qty l) = false
  /\ is_nan (ItemRow.unit_price l) = false.
Proof.
  unfold Sql.insert_line_item, Sql.real_not_null. intros H.
  destruct (existsb _ _); [discriminate|].
  destruct (is_nan (ItemRow.qty l)); [discriminate|].
  destruct (is_nan (ItemRow.unit_price l)); [discriminate|].
  simpl in H. inversion H. auto.
Qed.

Lemma insert_items_ok uuid4 invoice_id items :
  forall i conn conn',
    insert_items uuid4 invoice_id i items conn = Ok conn' ->
    invoices conn' = invoices conn
    /\ line_items conn'
       = line_items conn ++ item_rows uuid4 invoice_id i items.
Proof.
  induction items as [|li rest IH]; simpl; intros i conn conn' H.
  - inversion H. now rewrite app_nil_r.
  - destruct (Sql.insert_line_item conn _) as [conn1|e] eqn:Hins;
      [|discriminate].
    simpl in H. apply insert_line_item_ok in Hins.
    destruct Hins as (-> & _ & _).
    apply IH in H. simpl in H. destruct H as [Hinv Hli].
    split; [exact Hinv|]. rewrite Hli, <- app_assoc. reflexivity.
Qed.

Lemma insert_invoice_ok conn r conn' :
  Sql.insert_invoice conn r = Ok conn' ->
  conn' = mkdb (invoices conn ++ [Sql.stored_invoice r]) (line_items conn)
  /\ ~ In (Row.id r) (map Row.id (invoices conn)).
Proof.
  unfold Sql.insert_invoice. intros H.
  destruct (existsb (fun r' => Row.id r' =? Row.id r)%string (invoices conn))
    eqn:Hex; [discriminate|].
  cbn [orb] in H.
  match type of H with (if ?c then _ else _) = _ => destruct c end;
    [discriminate|].
  inversion H. split; [reflexivity|].
  intros Hin. apply in_map_iff in Hin. destruct Hin as [r' [Hid Hr']].
  assert (existsb (fun r' => Row.id r' =? Row.id r)%string (invoices conn)
          = true) as Habs.
  { apply existsb_exists. exists r'. split; [exact Hr'|].
    now apply String.eqb_eq. }
  congruence.
Qed.

(** A creation that raises leaves the store as it was. *)
Lemma create_invoice_raise now uuid4 client_name client_email items tax_rate
    due_days discount notes currency conn e :
  outcome (create_invoice now uuid4 client_name client_email items tax_rate
             due_days discount notes currency conn) = Raise e ->
  store (create_invoice now uuid4 client_name client_email items tax_rate
           due_days discount notes currency conn) = conn.
Proof.
  unfold create_invoice, raise, with_conn, outcome, store.
  destruct items as [|li rest]; [reflexivity|].
  destruct (negb (in_unit_range tax_rate)); [reflexivity|].
  destruct (negb (in_unit_range discount)); [reflexivity|].
  destruct (add_days _ _) as [due|e']; [|reflexivity].
  destruct (Sql.insert_invoice conn _) as [conn1|e1]; [|reflexivity].
  cbn [bind].
  destruct (insert_items _ _ _ _ _) as [conn2|e2]; [|reflexivity].
  simpl. discriminate.
Qed.

(** What a successful creation returns and stores. *)
Lemma create_invoice_ok now uuid4 client_name client_email items tax_rate
    due_days discount notes currency conn inv :
  outcome (create_invoice now uuid4 client_name client_email items tax_rate
             due_days discount notes currency conn) = Ok inv ->
  items <> []
  /\ in_unit_range tax_rate = true
  /\ in_unit_range discount = true
  /\ (exists due,
        add_days (dt_date now) due_days = Ok due
        /\ inv = Invoice.make (uuid4 O) (_invoice_number now conn)
                   client_name client_email items tax_rate discount "draft"
                   (date_isoformat due) (isoformat now) None None notes
                   currency)
  /\ ~ In (Invoice.id inv) (map Row.id (invoices conn))
  /\ invoices
       (store (create_invoice now uuid4 client_name client_email items
                 tax_rate due_days discount notes currency conn))
     = invoices conn ++ [Sql.stored_invoice (invoice_row inv)]
  /\ line_items
       (store (create_invoice now uuid4 client_name client_email items
                 tax_rate due_days discount notes currency conn))
     = line_items conn ++ item_rows uuid4 (Invoice.id inv) O items.
Proof.
  unfold create_invoice, raise, with_conn, outcome, store.
  destruct items as [|li rest]; [discriminate|].
  destruct (in_unit_range tax_rate); [|discriminate].
  destruct (in_unit_range discount); [|discriminate].
  cbn [negb].
  destruct (add_days _ _) as [due|e']; [|discriminate].
  destruct (Sql.insert_invoice conn _) as [conn1|e1] eqn:Hins;
    [|discriminate].
  cbn [bind].
  destruct (insert_items _ _ _ _ _) as [conn2|e2] eqn:Hitems;
    [|discriminate].
  cbn [bind fst snd]. intros H. inversion H; subst inv. clear H.
  apply insert_invoice_ok in Hins. destruct Hins as [-> Hfresh].
  apply insert_items_ok in Hitems. destruct Hitems as [Hinv Hli].
  repeat split; try assumption; try discriminate.
  exists due. split; reflexivity.
Qed.

(** Sorting leaves a list alone whose every element may come before all
    the later ones. *)
Lemma order_by_id {A : Type} (leb : A -> A -> bool) (l : list A) :
  StronglySorted (fun a b => leb a b = true) l -> order_by leb l = l.
Proof.
  induction 1 as [|x l Hs IH Hall]; simpl; [reflexivity|].
  rewrite IH. destruct l as [|y l']; simpl; [reflexivity|].
  inversion Hall as [|? ? Hxy _]; subst. now rewrite Hxy.
Qed.

Lemma item_rows_invoice_id uuid4 invoice_id items :
  forall i l, In l (item_rows uuid4 invoice_id i items) ->
              ItemRow.invoice_id l = invoice_id.
Proof.
  induction items as [|li rest IH]; simpl; intros i l Hin; [contradiction|].
  destruct Hin as [<-|Hin]; [reflexivity | eauto].
Qed.

Lemma item_rows_position_ge uuid4 invoice_id items :
  forall i l, In l (item_rows uuid4 invoice_id i items) ->
              Z.of_nat i <= ItemRow.position l.
Proof.
  induction items as [|li rest IH]; simpl; intros i l Hin; [contradiction|].
  destruct Hin as [<-|Hin]; [simpl; lia|].
  apply IH in Hin. lia.
Qed.

Lemma item_rows_sorted uuid4 invoice_id items :
  forall i,
    StronglySorted
      (fun a b => (ItemRow.position a <=? ItemRow.position b) = true)
      (item_rows uuid4 invoice_id i items).
Proof.
  induction items as [|li rest IH]; simpl; intros i; constructor.
  - apply IH.
  - apply Forall_forall. intros l Hin.
    apply item_rows_position_ge in Hin. simpl. apply Z.leb_le. lia.
Qed.

Lemma item_rows_positions uuid4 invoice_id items :
  forall i,
    map ItemRow.position (item_rows uuid4 invoice_id i items)
    = map Z.of_nat (seq i (List.length items)).
Proof.
  induction items as [|li rest IH]; simpl; intros i; [reflexivity|].
  now rewrite IH.
Qed.

Lemma item_rows_items uuid4 invoice_id items :
  forall i,
    map item_of_row (item_rows uuid4 invoice_id i items)
    = map read_back_item items.
Proof.
  induction items as [|li rest IH]; simpl; intros i; [reflexivity|].
  rewrite IH. reflexivity.
Qed.

(** A REAL column changes a negative zero and nothing else. *)
Lemma real_cases x :
  Sql.real x = x \/ (x = S754_zero true /\ Sql.real x = S754_zero false).
Proof. destruct x as [[|]| | |]; simpl; auto. Qed.

Lemma real_id x : x <> S754_zero true -> Sql.real x = x.
Proof. destruct (real_cases x) as [H|[H _]]; [auto | contradiction]. Qed.



Lemma read_back_item_id li :
  LineItem.qty li <> S754_zero true ->
  LineItem.unit_price li <> S754_zero true ->
  read_back_item li = li.
Proof.
  intros Hq Hp. unfold read_back_item. rewrite !real_id by assumption.
  destruct li; reflexivity.
Qed.

Lemma read_back_id inv :
  (forall li, In li (Invoice.line_items inv) ->
              LineItem.qty li <> S754_zero true
              /\ LineItem.unit_price li <> S754_zero true) ->
  Invoice.tax_rate inv <> S754_zero true ->
  Invoice.discount inv <> S754_zero true ->
  read_back inv = inv.
Proof.
  intros Hitems Ht Hd. unfold read_back. rewrite !real_id by assumption.
  replace (map read_back_item (Invoice.line_items inv))
    with (Invoice.line_items inv); [destruct inv; reflexivity|].
  symmetry. rewrite <- (map_id (Invoice.line_items inv)) at 2.
  apply map_ext_in. intros li Hin.
  destruct (Hitems li Hin). now apply read_back_item_id.
Qed.

Lemma stored_invoice_row inv :
  Sql.stored_invoice (invoice_row inv) = invoice_row (read_back inv).
Proof. reflexivity. Qed.


Lemma filter_all {A : Type} (f : A -> bool) (l : list A) :
  (forall a, In a l -> f a = true) -> filter f l = l.
Proof.
  induction l as [|a l IH]; simpl; intros H; [reflexivity|].
  rewrite (H a) by auto. f_equal. auto.
Qed.

Lemma filter_none {A : Type} (f : A -> bool) (l : list A) :
  (forall a, In a l -> f a = false) -> filter f l = [].
Proof.
  induction l as [|a l IH]; simpl; intros H; [reflexivity|].
  rewrite (H a) by auto. auto.
Qed.

Lemma find_app_fresh {A : Type} (f : A -> bool) (l : list A) (a : A) :
  (forall b, In b l -> f b = false) -> f a = true ->
  find f (l ++ [a]) = Some a.
Proof.
  induction l as [|b l IH]; simpl; intros Hl Ha.
  - now rewrite Ha.
  - rewrite (Hl b) by auto. auto.
Qed.

(** The line items read back for the invoice just created are the rows
    the loop inserted, in the order of insertion. *)
Lemma select_line_items_created conn conn' uuid4 invoice_id items :
  items_owned conn ->
  ~ In invoice_id (map Row.id (invoices conn)) ->
  line_items conn' = line_items conn ++ item_rows uuid4 invoice_id O items ->
  Sql.select_line_items conn' invoice_id
  = item_rows uuid4 invoice_id O items.
Proof.
  intros Howned Hfresh Hli. unfold Sql.select_line_items.
  rewrite Hli, filter_app.
  rewrite (filter_none _ (line_items conn)).
  - simpl. rewrite filter_all.
    + apply order_by_id, item_rows_sorted.
    + intros l Hin. apply item_rows_invoice_id in Hin.
      now apply String.eqb_eq.
  - intros l Hin. apply String.eqb_neq. intros Heq.
    apply Hfresh. rewrite <- Heq. now apply Howned.
Qed.



(* ------------------------------------------------------------------ *)
(** * Validation *)
(* ------------------------------------------------------------------ *)

Lemma insert_items_raise uuid4 invoice_id items :
  forall i conn e,
    insert_items uuid4 invoice_id i items conn = Raise e ->
    e = IntegrityError.
Proof.
  induction items as [|li rest IH]; simpl; intros i conn e H;
    [discriminate|].
  unfold Sql.insert_line_item in H at 1.
  destruct (_ || _ || _); [now inversion H|].
  simpl in H. eapply IH, H.
Qed.

Lemma insert_invoice_raise conn r e :
  Sql.insert_invoice conn r = Raise e -> e = IntegrityError.
Proof.
  unfold Sql.insert_invoice. destruct (_ || _ || _ || _); intros H;
    [now inversion H | discriminate].
Qed.

Lemma add_days_raise d n e : add_days d n = Raise e -> e = OverflowError.
Proof.
  unfold add_days. destruct (_ && _); intros H;
    [discriminate | now inversion H].
Qed.

(** [create_invoice] raises a [ValueError] exactly when one of its three
    checks fails. *)
Lemma create_invoice_value_error now uuid4 client_name client_email items
    tax_rate due_days discount notes currency conn :
  (exists msg,
     outcome (create_invoice now uuid4 client_name client_email items
                tax_rate due_days discount notes currency conn)
     = Raise (ValueError msg))
  <-> items = [] \/ in_unit_range tax_rate = false
      \/ in_unit_range discount = false.
Proof.
  unfold create_invoice, raise, with_conn, outcome.
  destruct items as [|li rest].
  - split; [now left | intros _; now eexists].
  - destruct (in_unit_range tax_rate).
    + destruct (in_unit_range discount).
      * cbn [negb]. split.
        -- intros [msg H].
           destruct (add_days _ _) as [due|e'] eqn:Hadd;
             [|apply add_days_raise in Hadd; subst e'; discriminate].
           destruct (Sql.insert_invoice conn _) as [conn1|e1] eqn:Hins;
             [|apply insert_invoice_raise in Hins; subst e1; discriminate].
           cbn [bind] in H.
           destruct (insert_items _ _ _ _ _) as [conn2|e2] eqn:Hitems;
             [|apply insert_items_raise in Hitems; subst e2];
             discriminate.
        -- intros [H|[H|H]]; discriminate.
      * cbn [negb]. split; [intros _; now right; right | intros _; now eexists].
    + cbn [negb]. split; [intros _; now right; left | intros _; now eexists].
Qed.

(** C5.  On floats, [create_invoice] raises the [ValueError] of its
    validation exactly when the list of items is empty, or [tax_rate] is
    not a number of the interval [[0, 1]], or [discount] is not; and
    whatever it raises, the store is as it was before the call. *)
Theorem create_invoice_validation now uuid4 client_name client_email items
    tax_rate due_days discount notes currency conn :
  is_binary64 tax_rate = true -> is_binary64 discount = true ->
  ((exists msg,
      outcome (create_invoice now uuid4 client_name client_email items
                 tax_rate due_days discount notes currency conn)
      = Raise (ValueError msg))
   <-> items = [] \/ ~ within_unit tax_rate \/ ~ within_unit discount)
  /\ (forall e,
        outcome (create_invoice now uuid4 client_name client_email items
                   tax_rate due_days discount notes currency conn)
        = Raise e ->
        store (create_invoice now uuid4 client_name client_email items
                 tax_rate due_days discount notes currency conn) = conn).
Proof.
  intros Ht Hd. split.
  - rewrite create_invoice_value_error.
    rewrite <- (in_unit_range_value tax_rate Ht).
    rewrite <- (in_unit_range_value discount Hd).
    rewrite !not_true_iff_false. reflexivity.
  - intros e. apply create_invoice_raise.
Qed.

(** A tax rate of 1.5 is refused. *)
Lemma create_invoice_validation_witness :
  is_binary64 (literal 15 1) = true
  /\ is_binary64 (literal 0 1) = true
  /\ exists msg,
       outcome (create_invoice Demo.now Demo.uuid4 "TaxErr" "t@t.com"
                  Demo.items (literal 15 1) 30 (literal 0 1) EmptyString "USD"
                  empty_db)
       = Raise (ValueError msg).
Proof.
  split; [reflexivity|]. split; [reflexivity|].
  apply (proj1 (create_invoice_validation Demo.now Demo.uuid4 "TaxErr"
                  "t@t.com" Demo.items (literal 15 1) 30 (literal 0 1) EmptyString
                  "USD" empty_db eq_refl eq_refl)).
  right. left. intros Hin.
  apply (in_unit_range_value (literal 15 1) eq_refl) in Hin.
  discriminate Hin.
Defined.

(* ------------------------------------------------------------------ *)
(** * The sweep *)
(* ------------------------------------------------------------------ *)

Lemma NoDup_map_inj {A B : Type} (f : A -> B) (l : list A) a b :
  NoDup (map f l) -> In a l -> In b l -> f a = f b -> a = b.
Proof.
  induction l as [|x l IH]; simpl; intros Hnd Ha Hb Hf; [contradiction|].
  inversion Hnd as [|? ? Hnotin Hnd']; subst.
  destruct Ha as [->|Ha], Hb as [->|Hb]; try reflexivity.
  - exfalso. apply Hnotin. rewrite Hf. now apply in_map.
  - exfalso. apply Hnotin. rewrite <- Hf. now apply in_map.
  - now apply IH.
Qed.

(** With [id] a key, [id IN (ids of the rows that pass P)] is [P]. *)
Lemma id_in_selected (P : Row.t -> bool) conn r :
  unique_ids conn -> In r (invoices conn) ->
  existsb (String.eqb (Row.id r)) (map Row.id (filter P (invoices conn)))
  = P r.
Proof.
  intros Hnd Hin. destruct (P r) eqn:HP.
  - apply existsb_exists. exists (Row.id r). split.
    + apply in_map, filter_In. auto.
    + apply String.eqb_refl.
  - apply not_true_is_false. intros Hex.
    apply existsb_exists in Hex. destruct Hex as [i [Hi Heq]].
    apply String.eqb_eq in Heq. subst i.
    apply in_map_iff in Hi. destruct Hi as [r' [Hid Hr']].
    apply filter_In in Hr'. destruct Hr' as [Hr' HP'].
    assert (r' = r) by (eapply NoDup_map_inj; eauto). subst r'. congruence.
Qed.

Lemma db_eta conn : mkdb (invoices conn) (line_items conn) = conn.
Proof. now destruct conn. Qed.

(** A sweep within the bound on host parameters returns the ids it
    selected and rewrites the table row by row. *)
Lemma mark_overdue_ok limit now conn :
  unique_ids conn ->
  overdue_ids (date_isoformat (dt_date now)) conn = []
  \/ len (overdue_ids (date_isoformat (dt_date now)) conn) <= limit ->
  mark_overdue limit now conn
  = (Ok (overdue_ids (date_isoformat (dt_date now)) conn),
     mkdb (map (sweep_row (date_isoformat (dt_date now))) (invoices conn))
       (line_items conn)).
Proof.
  intros Hnd Hfit. unfold mark_overdue.
  set (today := date_isoformat (dt_date now)) in *.
  assert (forall r, In r (invoices conn) ->
            existsb (String.eqb (Row.id r)) (overdue_ids today conn)
            = is_overdue today r) as Hsel
    by (intros r Hr; exact (id_in_selected _ conn r Hnd Hr)).
  destruct (overdue_ids today conn) as [|i ids] eqn:Hids.
  - f_equal. rewrite <- (db_eta conn) at 1. f_equal.
    rewrite <- (map_id (invoices conn)) at 1.
    apply map_ext_in. intros r Hr. unfold sweep_row.
    now rewrite <- (Hsel r Hr).
  - destruct Hfit as [Hnil|Hfit]; [discriminate|].
    rewrite (proj2 (Z.leb_le _ _) Hfit). f_equal.
    unfold Sql.update_invoices. f_equal.
    apply map_ext_in. intros r Hr. unfold sweep_row.
    now rewrite (Hsel r Hr).
Qed.

(** A sweep past the bound raises and leaves the store as it was. *)
Lemma mark_overdue_refused limit now conn :
  limit < len (overdue_ids (date_isoformat (dt_date now)) conn) ->
  overdue_ids (date_isoformat (dt_date now)) conn <> [] ->
  mark_overdue limit now conn
  = (Raise (OperationalError "too many SQL variables"), conn).
Proof.
  intros Hlt Hne. unfold mark_overdue.
  destruct (overdue_ids _ conn) as [|i ids]; [congruence|].
  now rewrite (proj2 (Z.leb_gt _ _) Hlt).
Qed.

(** The two ways a sweep ends. *)
Lemma mark_overdue_cases limit now conn :
  unique_ids conn ->
  mark_overdue limit now conn
  = (Ok (overdue_ids (date_isoformat (dt_date now)) conn),
     mkdb (map (sweep_row (date_isoformat (dt_date now))) (invoices conn))
       (line_items conn))
  \/ mark_overdue limit now conn
     = (Raise (OperationalError "too many SQL variables"), conn).
Proof.
  intros Hnd.
  destruct (overdue_ids (date_isoformat (dt_date now)) conn) eqn:Hids.
  - left. rewrite <- Hids. apply mark_overdue_ok; auto.
  - rewrite <- Hids.
    destruct (Z_le_gt_dec
                (len (overdue_ids (date_isoformat (dt_date now)) conn))
                limit) as [Hle|Hgt].
    + left. apply mark_overdue_ok; auto.
    + right. apply mark_overdue_refused; [lia|]. rewrite Hids. discriminate.
Qed.

Lemma sweep_row_id today r : Row.id (sweep_row today r) = Row.id r.
Proof. unfold sweep_row. now destruct (is_overdue today r). Qed.

Lemma select_map (f : Row.t -> Row.t) rows items invoice_id :
  (forall r, Row.id (f r) = Row.id r) ->
  Sql.select_invoice (mkdb (map f rows) items) invoice_id
  = option_map f (Sql.select_invoice (mkdb rows items) invoice_id).
Proof.
  intros Hid. unfold Sql.select_invoice. simpl.
  induction rows as [|r rows IH]; simpl; [reflexivity|].
  rewrite Hid. destruct (String.eqb (Row.id r) invoice_id);
    [reflexivity | exact IH].
Qed.

Lemma is_overdue_iff today r :
  is_overdue today r = true
  <-> Row.status r = "sent" /\ Text.lt (Row.due_date r) today = true.
Proof.
  unfold is_overdue. rewrite andb_true_iff, String.eqb_eq. reflexivity.
Qed.


(* ------------------------------------------------------------------ *)
(** * Invariants of the store *)
(* ------------------------------------------------------------------ *)

(** A transition either leaves the store alone or rewrites the one row
    it looked up, which was not paid. *)
Lemma transition_store msg set invoice_id conn :
  unique_ids conn ->
  store (transition msg set invoice_id conn) = conn
  \/ exists row,
       In row (invoices conn) /\ Row.id row = invoice_id
       /\ Row.status row <> "paid"
       /\ store (transition msg set invoice_id conn)
          = mkdb (map (fun r => if String.eqb (Row.id r) invoice_id
                                then set row else r) (invoices conn))
                 (line_items conn).
Proof.
  intros Hnd. unfold transition.
  destruct (Sql.select_invoice conn invoice_id) as [row|] eqn:Hsel;
    [|now left].
  destruct (String.eqb_spec (Row.status row) "paid") as [Hp|Hp]; [now left|].
  right. exists row.
  destruct (select_invoice_found _ _ _ Hsel) as [Hin Hid].
  repeat split; try assumption.
  unfold store, Sql.update_invoices, has_id. simpl. f_equal.
  apply map_ext_in. intros r Hr.
  destruct (String.eqb_spec (Row.id r) invoice_id) as [Heq|]; [|reflexivity].
  f_equal. eapply NoDup_map_inj; eauto. congruence.
Qed.

Lemma paid_fields_draft r :
  Row.status r = "draft" -> Row.paid_at r = None ->
  Row.payment_method r = None -> paid_fields_ok r.
Proof.
  intros Hs Ha Hm. unfold paid_fields_ok. rewrite Hs, Ha, Hm.
  split; split; intros H; try discriminate; now contradiction H.
Qed.

Lemma paid_fields_set_status v r :
  v <> "paid" -> Row.status r <> "paid" -> paid_fields_ok r ->
  paid_fields_ok (Row.set_status v r).
Proof.
  unfold paid_fields_ok. simpl. intros Hv Hs [Ha Hm]. split; split; intros H.
  - apply Ha in H. contradiction.
  - contradiction.
  - apply Hm in H. contradiction.
  - contradiction.
Qed.

Lemma paid_fields_set_paid a m r : paid_fields_ok (Row.set_paid a m r).
Proof. unfold paid_fields_ok. simpl. split; split; intros; congruence. Qed.

Lemma paid_fields_sweep today r :
  paid_fields_ok r -> paid_fields_ok (sweep_row today r).
Proof.
  intros H. unfold sweep_row. destruct (is_overdue today r) eqn:Ho; [|exact H].
  apply is_overdue_iff in Ho. destruct Ho as [Hs _].
  apply paid_fields_set_status; [discriminate | rewrite Hs; discriminate | exact H].
Qed.

(** Rewriting rows in place, keys and due dates untouched, keeps a store
    well formed if it keeps the paid fields right. *)
Lemma well_formed_map f conn :
  well_formed conn ->
  (forall r, In r (invoices conn) -> Row.id (f r) = Row.id r) ->
  (forall r, In r (invoices conn) -> Row.due_date (f r) = Row.due_date r) ->
  (forall r, In r (invoices conn) -> paid_fields_ok r ->
             paid_fields_ok (f r)) ->
  well_formed (mkdb (map f (invoices conn)) (line_items conn)).
Proof.
  intros (Hnd & Hown & Hpaid & Hdue) Hid Hdd Hpf.
  assert (map Row.id (map f (invoices conn)) = map Row.id (invoices conn))
    as Hids by (rewrite map_map; now apply map_ext_in).
  unfold well_formed, unique_ids, items_owned, due_dates_ok. simpl.
  rewrite Hids. repeat split; try assumption.
  - apply Forall_forall. intros r' Hr'. apply in_map_iff in Hr'.
    destruct Hr' as [r [<- Hr]]. apply Hpf; [exact Hr|].
    rewrite Forall_forall in Hpaid. now apply Hpaid.
  - intros r' Hr'. apply in_map_iff in Hr'. destruct Hr' as [r [<- Hr]].
    rewrite Hdd by exact Hr. now apply Hdue.
Qed.

Lemma well_formed_transition msg set invoice_id conn :
  well_formed conn ->
  (forall r, Row.id (set r) = Row.id r) ->
  (forall r, Row.due_date (set r) = Row.due_date r) ->
  (forall r, Row.status r <> "paid" -> paid_fields_ok r ->
             paid_fields_ok (set r)) ->
  well_formed (store (transition msg set invoice_id conn)).
Proof.
  intros Hwf Hid Hdd Hpf.
  destruct (transition_store msg set invoice_id conn (proj1 Hwf))
    as [->|(row & Hin & Hrid & Hst & ->)]; [exact Hwf|].
  destruct Hwf as (Hnd & Hown & Hpaid & Hdue).
  assert (paid_fields_ok row) as Hrow
    by (rewrite Forall_forall in Hpaid; now apply Hpaid).
  apply well_formed_map; [repeat split; assumption | | |];
    intros r Hr; destruct (String.eqb_spec (Row.id r) invoice_id) as [Heq|];
    try reflexivity; try tauto.
  - rewrite Hid. congruence.
  - assert (r = row) by (eapply NoDup_map_inj; eauto; congruence).
    subst r. apply Hdd.
  - intros _. now apply Hpf.
Qed.

Lemma well_formed_create now uuid4 client_name client_email items tax_rate
    due_days discount notes currency conn :
  well_formed conn ->
  well_formed
    (store (create_invoice now uuid4 client_name client_email items tax_rate
              due_days discount notes currency conn)).
Proof.
  intros Hwf.
  destruct (outcome (create_invoice now uuid4 client_name client_email items
                       tax_rate due_days discount notes currency conn))
    as [inv|e] eqn:Hout.
  - destruct (create_invoice_ok _ _ _ _ _ _ _ _ _ _ _ _ Hout)
      as (_ & _ & _ & (due & Hdue & Hinv) & Hfresh & Hrows & Hli).
    destruct Hwf as (Hnd & Hown & Hpaid & Hdd).
    unfold well_formed, unique_ids, items_owned, due_dates_ok.
    rewrite Hrows, Hli, map_app. simpl.
    repeat split.
    + apply NoDup_app; [exact Hnd | repeat constructor; simpl; tauto |].
      intros i Hi [<-|[]]. now apply Hfresh.
    + intros l Hl. apply in_or_app. apply in_app_or in Hl.
      destruct Hl as [Hl|Hl]; [left; now apply Hown|].
      right. apply item_rows_invoice_id in Hl. rewrite Hl. now left.
    + apply Forall_app. split; [exact Hpaid|]. constructor; [|constructor].
      apply paid_fields_draft; subst inv; reflexivity.
    + intros r Hr. apply in_app_or in Hr. destruct Hr as [Hr|[<-|[]]];
        [now apply Hdd|].
      exists due. split; [now apply (add_days_valid _ _ _ Hdue)|].
      subst inv. reflexivity.
  - now rewrite (create_invoice_raise _ _ _ _ _ _ _ _ _ _ _ _ Hout).
Qed.

Lemma well_formed_sweep limit now conn :
  well_formed conn -> well_formed (store (mark_overdue limit now conn)).
Proof.
  intros Hwf.
  destruct (mark_overdue_cases limit now conn (proj1 Hwf)) as [-> | ->];
    [|exact Hwf].
  apply well_formed_map; [exact Hwf | | |]; intros r _.
  - apply sweep_row_id.
  - unfold sweep_row. now destruct (is_overdue _ r).
  - apply paid_fields_sweep.
Qed.

Lemma well_formed_step conn conn' :
  well_formed conn -> step conn conn' -> well_formed conn'.
Proof.
  intros Hwf Hstep. destruct Hstep.
  - now apply well_formed_create.
  - rewrite send_invoice_transition.
    apply well_formed_transition; try reflexivity; [exact Hwf|].
    intros r Hs Hr. apply paid_fields_set_status; [discriminate | | ]; assumption.
  - rewrite mark_paid_transition.
    apply well_formed_transition; try reflexivity; [exact Hwf|].
    intros r _ _. apply paid_fields_set_paid.
  - now apply well_formed_sweep.
Qed.

(** Every store the operations build is well formed. *)
Lemma reachable_well_formed conn : reachable conn -> well_formed conn.
Proof.
  induction 1 as [|conn conn' _ IH Hstep].
  - repeat split; try constructor; intros ? [].
  - now apply (well_formed_step conn).
Qed.

(** No operation touches a paid row. *)
Lemma paid_row_stays conn conn' r :
  unique_ids conn -> step conn conn' ->
  In r (invoices conn) -> Row.status r = "paid" -> In r (invoices conn').
Proof.
  intros Hnd Hstep Hr Hpaid.
  assert (forall msg set invoice_id,
            In r (invoices (store (transition msg set invoice_id conn))))
    as Htrans.
  { intros msg set invoice_id.
    destruct (transition_store msg set invoice_id conn Hnd)
      as [->|(row & Hin & Hrid & Hst & ->)]; [exact Hr|].
    simpl. apply in_map_iff. exists r. split; [|exact Hr].
    destruct (String.eqb_spec (Row.id r) invoice_id) as [Heq|]; [|reflexivity].
    assert (r = row) by (eapply NoDup_map_inj; eauto; congruence).
    subst r. contradiction. }
  destruct Hstep.
  - match goal with
    | |- In r (invoices (store ?c)) => destruct (outcome c) as [inv|e] eqn:Hout
    end.
    + destruct (create_invoice_ok _ _ _ _ _ _ _ _ _ _ _ _ Hout)
        as (_ & _ & _ & _ & _ & -> & _).
      apply in_or_app. now left.
    + now rewrite (create_invoice_raise _ _ _ _ _ _ _ _ _ _ _ _ Hout).
  - rewrite send_invoice_transition. apply Htrans.
  - rewrite mark_paid_transition. apply Htrans.
  - destruct (mark_overdue_cases limit now conn Hnd) as [-> | ->];
      [|exact Hr].
    simpl. apply in_map_iff. exists r. split; [|exact Hr].
    unfold sweep_row. destruct (is_overdue _ r) eqn:Ho; [|reflexivity].
    apply is_overdue_iff in Ho. destruct Ho as [Hs _]. congruence.
Qed.

(** A row whose paid fields are set either had them, with the same
    values, before the step, or the step is a [mark_paid] of that row. *)
Lemma paid_fields_origin conn conn' r' :
  unique_ids conn -> step conn conn' -> In r' (invoices conn') ->
  Row.paid_at r' <> None \/ Row.payment_method r' <> None ->
  (exists r, In r (invoices conn) /\ Row.id r = Row.id r'
             /\ Row.paid_at r = Row.paid_at r'
             /\ Row.payment_method r = Row.payment_method r')
  \/ (exists now payment_method,
        conn' = store (mark_paid now (Row.id r') payment_method conn)).
Proof.
  intros Hnd Hstep Hr' Hset.
  assert (forall r, In r (invoices conn) -> r = r' ->
            exists r, In r (invoices conn) /\ Row.id r = Row.id r'
                      /\ Row.paid_at r = Row.paid_at r'
                      /\ Row.payment_method r = Row.payment_method r')
    as Hsame by (intros r Hr ->; now exists r').
  destruct Hstep.
  - match type of Hr' with
    | In r' (invoices (store ?c)) => destruct (outcome c) as [inv|e] eqn:Hout
    end.
    + destruct (create_invoice_ok _ _ _ _ _ _ _ _ _ _ _ _ Hout)
        as (_ & _ & _ & _ & _ & Hrows & _).
      rewrite Hrows in Hr'. apply in_app_or in Hr'.
      destruct Hr' as [Hr'|[<-|[]]]; [left; eauto|].
      simpl in Hset. destruct Hset as [H|H]; now contradiction H.
    + rewrite (create_invoice_raise _ _ _ _ _ _ _ _ _ _ _ _ Hout) in Hr'.
      left; eauto.
  - left. rewrite send_invoice_transition in Hr'.
    destruct (transition_store "Cannot send a paid invoice"
                (Row.set_status "sent") invoice_id conn Hnd)
      as [Heq|(row & Hin & Hrid & Hst & Heq)]; rewrite Heq in Hr';
      [eauto|].
    simpl in Hr'. apply in_map_iff in Hr'. destruct Hr' as [r [Hf Hr]].
    destruct (String.eqb (Row.id r) invoice_id); [|eauto].
    exists row. subst r'. auto.
  - rewrite mark_paid_transition in Hr'.
    destruct (transition_store "Invoice already paid"
                (Row.set_paid (_now now) payment_method) invoice_id conn Hnd)
      as [Heq|(row & Hin & Hrid & Hst & Heq)]; rewrite Heq in Hr';
      [left; eauto|].
    simpl in Hr'. apply in_map_iff in Hr'. destruct Hr' as [r [Hf Hr]].
    destruct (String.eqb (Row.id r) invoice_id); [|left; eauto].
    right. exists now, payment_method. subst r'. simpl. now rewrite Hrid.
  - left.
    destruct (mark_overdue_cases limit now conn Hnd) as [Heq|Heq];
      rewrite Heq in Hr'; [|eauto].
    simpl in Hr'. apply in_map_iff in Hr'. destruct Hr' as [r [Hf Hr]].
    exists r. subst r'. unfold sweep_row.
    destruct (is_overdue _ r); auto.
Qed.

(** C6.  In every store the operations build, [paid_at] and
    [payment_method] are set exactly on the paid invoices; every
    operation keeps a well-formed store well formed; [create_invoice]
    returns and stores a draft with both fields NULL (the row stored is
    the invoice's, with its two rates as a REAL column keeps them: as
    they are unless a negative zero); a row with a field
    set either had it before the step or was the target of [mark_paid];
    and no step changes a paid row. *)
Theorem paid_fields_invariant :
  (forall conn r,
     reachable conn -> In r (invoices conn) -> paid_fields_ok r)
  /\ (forall conn conn',
        well_formed conn -> step conn conn' ->
        well_formed conn' /\ Forall paid_fields_ok (invoices conn'))
  /\ (forall now uuid4 client_name client_email items tax_rate due_days
             discount notes currency conn inv,
        outcome (create_invoice now uuid4 client_name client_email items
                   tax_rate due_days discount notes currency conn) = Ok inv ->
        Invoice.status inv = "draft"
        /\ Invoice.paid_at inv = None
        /\ Invoice.payment_method inv = None
        /\ In (Sql.stored_invoice (columns inv))
             (invoices
                (store (create_invoice now uuid4 client_name client_email
                          items tax_rate due_days discount notes currency
                          conn)))
        /\ (tax_rate <> S754_zero true -> discount <> S754_zero true ->
            In (columns inv)
              (invoices
                 (store (create_invoice now uuid4 client_name client_email
                           items tax_rate due_days discount notes currency
                           conn)))))
  /\ (forall conn conn' r',
        unique_ids conn -> step conn conn' -> In r' (invoices conn') ->
        Row.paid_at r' <> None \/ Row.payment_method r' <> None ->
        (exists r, In r (invoices conn) /\ Row.id r = Row.id r'
                   /\ Row.paid_at r = Row.paid_at r'
                   /\ Row.payment_method r = Row.payment_method r')
        \/ (exists now payment_method,
              conn' = store (mark_paid now (Row.id r') payment_method conn)))
  /\ (forall conn conn' r,
        unique_ids conn -> step conn conn' ->
        In r (invoices conn) -> Row.status r = "paid" ->
        In r (invoices conn')).
Proof.
  split; [|split; [|split; [|split]]].
  - intros conn r Hreach Hr.
    destruct (reachable_well_formed conn Hreach) as (_ & _ & Hpaid & _).
    rewrite Forall_forall in Hpaid. now apply Hpaid.
  - intros conn conn' Hwf Hstep.
    pose proof (well_formed_step conn conn' Hwf Hstep) as Hwf'.
    split; [exact Hwf' | apply Hwf'].
  - intros now uuid4 client_name client_email items tax_rate due_days
      discount notes currency conn inv Hout.
    destruct (create_invoice_ok _ _ _ _ _ _ _ _ _ _ _ _ Hout)
      as (_ & _ & _ & (due & _ & Hinv) & _ & Hrows & _).
    rewrite Hrows. subst inv.
    split; [reflexivity|]. split; [reflexivity|]. split; [reflexivity|].
    split.
    + apply in_or_app. right. now left.
    + intros Ht Hd. apply in_or_app. right. left.
      unfold Sql.stored_invoice, invoice_row, columns. simpl.
      now rewrite !real_id.
  - exact paid_fields_origin.
  - exact paid_row_stays.
Qed.

(* ------------------------------------------------------------------ *)
(** * The overdue fee *)
(* ------------------------------------------------------------------ *)

Lemma fromisoformat_valid s d :
  date_fromisoformat s = Some d -> valid d = true.
Proof.
  unfold date_fromisoformat.
  destruct (negb _); [discriminate|].
  destruct (Text.parse_digits _ _) as [y|]; [|discriminate].
  destruct (Text.parse_digits _ _) as [m|]; [|discriminate].
  destruct (Text.parse_digits _ _) as [dd|]; [|discriminate].
  destruct (valid (mkdate y m dd)) eqn:Hv;
    [|rewrite andb_false_r; discriminate].
  destruct (_ && _); [|discriminate].
  intros H. inversion H. subst d. exact Hv.
Qed.

(** A product with no day overdue is zero, unless it is no number. *)
Lemma fmul_no_days x :
  (is_finite x = true -> exists s, fmul x (of_int 0) = S754_zero s)
  /\ (is_finite x = false -> fmul x (of_int 0) = S754_nan).
Proof.
  change (of_int 0) with (S754_zero false).
  destruct x as [s|s| |s m e]; split; intros H; try discriminate;
    try reflexivity; eexists; reflexivity.
Qed.

Lemma get_invoice_inv invoice_id conn inv :
  get_invoice invoice_id conn = Ok inv ->
  exists row,
    In row (invoices conn) /\ Row.id row = invoice_id
    /\ inv = _row_to_invoice row
               (map item_of_row (Sql.select_line_items conn invoice_id)).
Proof.
  unfold get_invoice.
  destruct (Sql.select_invoice conn invoice_id) as [row|] eqn:Hsel;
    [|discriminate].
  intros H. inversion H. exists row.
  destruct (select_invoice_found _ _ _ Hsel). auto.
Qed.

(** C7.  [calculate_overdue_fee] returns [0.0] for a paid invoice,
    whatever its due date.  For any other invoice whose due date reads as
    a date, as every due date of a well-formed store does, it returns
    [round(total * daily_rate * max(0, days), 2)], [days] being the days
    from the due date to today; when the due date is today or later,
    [max(0, days)] is 0 and the fee is zero if [total * daily_rate] is a
    finite number, and NaN if that product is an infinity or a NaN. *)
Theorem overdue_fee_spec now invoice_id daily_rate conn inv :
  get_invoice invoice_id conn = Ok inv ->
  (Invoice.status inv = "paid" ->
   calculate_overdue_fee now invoice_id daily_rate conn = Ok (literal 0 1))
  /\ (Invoice.status inv <> "paid" ->
      forall due,
        date_fromisoformat (Invoice.due_date inv) = Some due ->
        calculate_overdue_fee now invoice_id daily_rate conn
        = Ok (py_round
                (fmul (fmul (Invoice.total inv) daily_rate)
                   (of_int (Z.max 0 (days_between (dt_date now) due)))) 2)
        /\ (valid (dt_date now) = true -> ~ before due (dt_date now) ->
            Z.max 0 (days_between (dt_date now) due) = 0
            /\ (is_finite (fmul (Invoice.total inv) daily_rate) = true ->
                exists fee,
                  calculate_overdue_fee now invoice_id daily_rate conn
                  = Ok fee
                  /\ feqb fee (literal 0 1) = true)
            /\ (is_finite (fmul (Invoice.total inv) daily_rate) = false ->
                calculate_overdue_fee now invoice_id daily_rate conn
                = Ok S754_nan)))
  /\ (well_formed conn ->
      exists due,
        valid due = true
        /\ date_fromisoformat (Invoice.due_date inv) = Some due).
Proof.
  intros Hget. split; [|split].
  - intros Hpaid. unfold calculate_overdue_fee. rewrite Hget. simpl.
    now rewrite Hpaid.
  - intros Hst due Hdue.
    assert (calculate_overdue_fee now invoice_id daily_rate conn
            = Ok (py_round
                    (fmul (fmul (Invoice.total inv) daily_rate)
                       (of_int (Z.max 0 (days_between (dt_date now) due))))
                    2)) as Hfee.
    { unfold calculate_overdue_fee. rewrite Hget. simpl.
      apply String.eqb_neq in Hst. now rewrite Hst, Hdue. }
    split; [exact Hfee|]. intros Hnow Hnot.
    assert (Z.max 0 (days_between (dt_date now) due) = 0) as Hdays.
    { pose proof (before_or_not due (dt_date now)
                    (fromisoformat_valid _ _ Hdue) Hnow Hnot).
      unfold days_between. lia. }
    split; [exact Hdays|]. rewrite Hfee, Hdays.
    destruct (fmul_no_days (fmul (Invoice.total inv) daily_rate))
      as [Hfin Hnan].
    split.
    + intros H. destruct (Hfin H) as [s ->]. eexists. split; [reflexivity|].
      now destruct s.
    + intros H. now rewrite (Hnan H).
  - intros (_ & _ & _ & Hdd).
    destruct (get_invoice_inv _ _ _ Hget) as (row & Hin & _ & ->).
    destruct (Hdd row Hin) as (d & Hv & Heq).
    exists d. split; [exact Hv|]. simpl. rewrite Heq.
    now apply fromisoformat_isoformat.
Qed.

(** Ten days after the due date of Acme's invoice of 261.25, at the
    default rate, the fee is 2.61. *)
Lemma overdue_fee_spec_witness :
  get_invoice "inv-0" Demo.acme_db = Ok (load Demo.acme_db Demo.acme_row)
  /\ calculate_overdue_fee (mkdatetime (mkdate 2026 12 13) 0 0 0 0)
       "inv-0" default_daily_rate Demo.acme_db
     = Ok (literal 261 2).
Proof.
  assert (get_invoice "inv-0" Demo.acme_db
          = Ok (load Demo.acme_db Demo.acme_row)) as Hget
    by (vm_compute; reflexivity).
  split; [exact Hget|].
  destruct (overdue_fee_spec (mkdatetime (mkdate 2026 12 13) 0 0 0 0)
              "inv-0" default_daily_rate Demo.acme_db _ Hget)
    as (_ & Hfee & _).
  destruct (Hfee ltac:(vm_compute; discriminate) (mkdate 2026 12 3)
              ltac:(vm_compute; reflexivity)) as [-> _].
  vm_compute. reflexivity.
Defined.

(** The claim of C7 as the specification words it fails on an invoice
    whose total overflows: it is a draft, due a month from now, and its
    fee is NaN, which is not zero. *)
Lemma overdue_fee_counterexample :
  match get_invoice "inv-0" Demo.huge_db with
  | Ok inv =>
      Invoice.status inv = "draft" /\ Invoice.due_date inv = "2026-12-03"
  | Raise _ => False
  end
  /\ date_isoformat (dt_date Demo.now) = "2026-11-03"
  /\ calculate_overdue_fee Demo.now "inv-0" default_daily_rate Demo.huge_db
     = Ok S754_nan
  /\ feqb S754_nan (literal 0 1) = false.
Proof. vm_compute. repeat split. Qed.

(* ------------------------------------------------------------------ *)
(** * Queries *)
(* ------------------------------------------------------------------ *)

Lemma get_invoice_load conn r :
  unique_ids conn -> In r (invoices conn) ->
  get_invoice (Row.id r) conn = Ok (load conn r).
Proof.
  intros Hnd Hr. unfold get_invoice.
  now rewrite (select_invoice_unique conn r Hnd Hr).
Qed.

Lemma load_all_map conn rows :
  unique_ids conn -> incl rows (invoices conn) ->
  load_all rows conn = map (load conn) rows.
Proof.
  intros Hnd. unfold load_all.
  induction rows as [|r rows IH]; simpl; intros Hincl; [reflexivity|].
  rewrite (get_invoice_load conn r Hnd) by (apply Hincl; now left).
  simpl. f_equal. apply IH. intros x Hx. apply Hincl. now right.
Qed.

Lemma load_all_length conn rows :
  incl rows (invoices conn) ->
  List.length (load_all rows conn) = List.length rows.
Proof.
  unfold load_all.
  induction rows as [|r rows IH]; simpl; intros Hincl; [reflexivity|].
  rewrite length_app, IH by (intros x Hx; apply Hincl; now right).
  unfold get_invoice.
  destruct (Sql.select_invoice conn (Row.id r)) eqn:Hsel; [reflexivity|].
  exfalso. apply select_invoice_missing in Hsel. apply Hsel.
  apply in_map, Hincl. now left.
Qed.

Lemma mapM_get conn rows :
  unique_ids conn -> incl rows (invoices conn) ->
  mapM (fun r => get_invoice (Row.id r) conn) rows
  = Ok (map (load conn) rows).
Proof.
  intros Hnd.
  induction rows as [|r rows IH]; simpl; intros Hincl; [reflexivity|].
  rewrite (get_invoice_load conn r Hnd) by (apply Hincl; now left).
  simpl. rewrite IH by (intros x Hx; apply Hincl; now right).
  reflexivity.
Qed.

Lemma report_rows_incl period_start period_end conn :
  incl (report_rows period_start period_end conn) (invoices conn).
Proof.
  unfold report_rows. destruct (_ && _); [|apply incl_refl].
  intros r Hr. now apply filter_In in Hr.
Qed.

Lemma with_status_load s conn rows :
  with_status s (map (load conn) rows)
  = map (load conn) (filter (has_status s) rows).
Proof.
  unfold with_status.
  induction rows as [|r rows IH]; simpl; [reflexivity|].
  unfold has_status at 1. destruct (String.eqb (Row.status r) s); simpl;
    now rewrite IH.
Qed.

(** C8.  [summary_report] counts the invoices of the period;
    [collection_rate] is [round(paid_count / total_count * 100, 1)] when
    there is one at least and the integer 0, with every count and every
    total, when there is none (no division takes place); the counts by
    status are those of the rows of each status; and one paid invoice
    with one draft gives [paid_count = 1], [draft_count = 1] and
    [collection_rate = 50.0].  The rate is rounded: it is the float
    nearest to the decimal [q / 10], [q] the integer nearest to 10 times
    the percentage and the even one of two; one paid invoice out of
    three gives 33.3 and two out of three 66.7, one out of eight 12.5
    and one out of sixteen 6.2. *)
Theorem summary_report_spec period_start period_end conn :
  let rep := summary_report period_start period_end conn in
  let rows := report_rows period_start period_end conn in
  Report.total_invoices rep = len rows
  /\ (rows <> [] ->
      Report.collection_rate rep
      = Float (py_round
                 (fmul (ratio (Report.paid_count rep)
                          (Report.total_invoices rep)) (of_int 100)) 1))
  /\ (rows = [] ->
      rep = Report.make period_start period_end 0 (Int 0) 0 (Int 0) 0
              (Int 0) 0 0 (Int 0))
  /\ (invoices conn = [] -> rows = [])
  /\ (unique_ids conn ->
      Report.paid_count rep = len (filter (has_status "paid") rows)
      /\ Report.overdue_count rep = len (filter (has_status "overdue") rows)
      /\ Report.draft_count rep = len (filter (has_status "draft") rows)
      /\ Report.sent_count rep = len (filter (has_status "sent") rows))
  /\ (unique_ids conn ->
      Report.paid_count rep = 1 -> Report.total_invoices rep = 2 ->
      Report.collection_rate rep = Float (literal 500 1))
  /\ (forall a b,
        unique_ids conn ->
        Permutation (invoices conn) [a; b] ->
        Row.status a = "paid" -> Row.status b = "draft" ->
        rows = invoices conn ->
        Report.paid_count rep = 1 /\ Report.draft_count rep = 1
        /\ Report.collection_rate rep = Float (literal 500 1))
  /\ (rows <> [] ->
      exists rate,
        Report.collection_rate rep = Float rate
        /\ rounded 1
             (fmul (ratio (Report.paid_count rep)
                      (Report.total_invoices rep)) (of_int 100)) rate
        /\ (forall y,
              rounded 1
                (fmul (ratio (Report.paid_count rep)
                         (Report.total_invoices rep)) (of_int 100)) y ->
              y = rate))
  /\ (forall paid total rate,
        In (paid, total, rate)
          [(1, 3, literal 333 1); (2, 3, literal 667 1);
           (1, 8, literal 125 1); (1, 16, literal 62 1);
           (3, 16, literal 188 1); (1, 2, literal 500 1)] ->
        Report.paid_count rep = paid -> Report.total_invoices rep = total ->
        Report.collection_rate rep = Float rate)
  /\ fmul (ratio 1 3) (of_int 100) <> literal 333 1
  /\ fmul (ratio 1 16) (of_int 100) <> literal 62 1.
Proof.
  intros rep rows.
  pose proof (report_rows_incl period_start period_end conn) as Hincl.
  fold rows in Hincl.
  assert (Report.total_invoices rep = len rows) as Htotal.
  { unfold rep, summary_report, len. fold rows. cbn [Report.total_invoices].
    now rewrite load_all_length. }
  assert (rows <> [] ->
          Report.collection_rate rep
          = Float (py_round
                     (fmul (ratio (Report.paid_count rep)
                              (Report.total_invoices rep)) (of_int 100)) 1))
    as Hrate.
  { intros Hne. unfold rep, summary_report. fold rows.
    cbn [Report.collection_rate Report.paid_count Report.total_invoices].
    destruct (load_all rows conn) as [|i l] eqn:Hload; [|reflexivity].
    exfalso. apply Hne. apply length_zero_iff_nil.
    rewrite <- (load_all_length conn rows Hincl), Hload. reflexivity. }
  assert (unique_ids conn ->
          Report.paid_count rep = len (filter (has_status "paid") rows)
          /\ Report.overdue_count rep
             = len (filter (has_status "overdue") rows)
          /\ Report.draft_count rep = len (filter (has_status "draft") rows)
          /\ Report.sent_count rep = len (filter (has_status "sent") rows))
    as Hcounts.
  { intros Hnd. unfold rep, summary_report, len. fold rows.
    cbn [Report.paid_count Report.overdue_count Report.draft_count
         Report.sent_count].
    rewrite (load_all_map conn rows Hnd Hincl), !with_status_load,
      !length_map.
    repeat split. }
  assert (Report.paid_count rep = 1 -> Report.total_invoices rep = 2 ->
          Report.collection_rate rep = Float (literal 500 1)) as Hhalf.
  { intros Hp Ht. rewrite Hrate.
    - rewrite Hp, Ht. reflexivity.
    - intros Hnil. rewrite Htotal, Hnil in Ht. discriminate. }
  split; [exact Htotal|]. split; [exact Hrate|].
  split; [|split; [|split; [exact Hcounts|split; [auto|split; [|split;
    [|split; [|split]]]]]]].
  - intros Hnil. unfold rep, summary_report. fold rows. now rewrite Hnil.
  - intros Hnil. unfold rows, report_rows. rewrite Hnil.
    now destruct (_ && _).
  - intros a b Hnd Hperm Ha Hb Hrows.
    destruct (Hcounts Hnd) as (Hp & _ & Hd & _).
    assert (Report.paid_count rep = 1 /\ Report.draft_count rep = 1
            /\ Report.total_invoices rep = 2) as (H1 & H2 & H3).
    { rewrite Hp, Hd, Htotal, Hrows. unfold len.
      assert (invoices conn = [a; b] \/ invoices conn = [b; a]) as [->| ->].
      { apply Permutation_sym, Permutation_length_2_inv in Hperm.
        destruct Hperm; auto. }
      - unfold has_status. simpl. rewrite Ha, Hb. repeat split.
      - unfold has_status. simpl. rewrite Ha, Hb. repeat split. }
    auto.
  - intros Hne. eexists. split; [exact (Hrate Hne)|]. split.
    + apply py_round_rounded. lia.
    + intros y Hy. apply (rounded_unique 1 _ _ _ Hy).
      apply py_round_rounded. lia.
  - intros paid total rate Hin Hp Ht. rewrite Hrate.
    + rewrite Hp, Ht. simpl in Hin.
      repeat (destruct Hin as [Hin|Hin];
              [inversion Hin; subst; vm_compute; reflexivity|]).
      contradiction.
    + intros Hnil. rewrite Htotal, Hnil in Ht. simpl in Hin.
      repeat (destruct Hin as [Hin|Hin];
              [inversion Hin; subst; discriminate|]).
      contradiction.
  - vm_compute. discriminate.
  - vm_compute. discriminate.
Qed.

(* ------------------------------------------------------------------ *)
(** * Text order and sorting *)
(* ------------------------------------------------------------------ *)

Lemma ascii_compare_refl c : Ascii.compare c c = Eq.
Proof. unfold Ascii.compare. apply N.compare_refl. Qed.

Lemma ascii_compare_lt_trans a b c :
  Ascii.compare a b = Lt -> Ascii.compare b c = Lt -> Ascii.compare a c = Lt.
Proof.
  unfold Ascii.compare. rewrite !N.compare_lt_iff. apply N.lt_trans.
Qed.

Lemma text_le_trans a : forall b c,
  Text.le a b = true -> Text.le b c = true -> Text.le a c = true.
Proof.
  unfold Text.le, String.leb.
  induction a as [|x a IH]; intros [|y b] [|z c]; simpl; try congruence.
  destruct (Ascii.compare x y) eqn:Hxy; try congruence;
    destruct (Ascii.compare y z) eqn:Hyz; try congruence.
  - apply Ascii.compare_eq_iff in Hxy, Hyz. subst.
    rewrite ascii_compare_refl. apply IH.
  - apply Ascii.compare_eq_iff in Hxy. subst. now rewrite Hyz.
  - apply Ascii.compare_eq_iff in Hyz. subst. now rewrite Hxy.
  - now rewrite (ascii_compare_lt_trans _ _ _ Hxy Hyz).
Qed.

Lemma text_le_total a b : Text.le a b = true \/ Text.le b a = true.
Proof. apply String.leb_total. Qed.

Section OrderByFacts.

Context {A : Type} (leb : A -> A -> bool).
Hypothesis leb_total : forall a b, leb a b = true \/ leb b a = true.
Hypothesis leb_trans :
  forall a b c, leb a b = true -> leb b c = true -> leb a c = true.

Lemma insert_by_perm x l : Permutation (insert_by leb x l) (x :: l).
Proof.
  induction l as [|y l IH]; simpl; [reflexivity|].
  destruct (leb x y); [reflexivity|].
  rewrite IH. apply perm_swap.
Qed.

Lemma order_by_perm l : Permutation (order_by leb l) l.
Proof.
  induction l as [|x l IH]; simpl; [reflexivity|].
  rewrite insert_by_perm. now constructor.
Qed.

Lemma insert_by_sorted x l :
  StronglySorted (fun a b => leb a b = true) l ->
  StronglySorted (fun a b => leb a b = true) (insert_by leb x l).
Proof.
  induction 1 as [|y l Hs IH Hall]; simpl.
  - repeat constructor.
  - destruct (leb x y) eqn:Hxy.
    + constructor; [now constructor|].
      constructor; [exact Hxy|].
      rewrite Forall_forall in *. intros z Hz.
      apply (leb_trans x y z Hxy). now apply Hall.
    + constructor; [exact IH|].
      rewrite Forall_forall in *. intros z Hz.
      apply (Permutation_in _ (insert_by_perm x l)) in Hz.
      destruct Hz as [<-|Hz]; [|now apply Hall].
      destruct (leb_total x y) as [H|H]; [congruence | exact H].
Qed.

Lemma order_by_sorted l :
  StronglySorted (fun a b => leb a b = true) (order_by leb l).
Proof.
  induction l as [|x l IH]; simpl; [constructor|].
  now apply insert_by_sorted.
Qed.

End OrderByFacts.

(* ------------------------------------------------------------------ *)
(** * LIKE *)
(* ------------------------------------------------------------------ *)

Lemma N_of_ascii_inj a b : N_of_ascii a = N_of_ascii b -> a = b.
Proof.
  intros H. rewrite <- (ascii_N_embedding a), <- (ascii_N_embedding b).
  now rewrite H.
Qed.

Lemma byte_neq a b :
  Ascii.eqb a b = false -> (N_of_ascii a =? N_of_ascii b)%N = false.
Proof.
  intros H. apply N.eqb_neq. intros Heq. apply N_of_ascii_inj in Heq.
  apply Ascii.eqb_neq in H. contradiction.
Qed.






Lemma like_percent p s :
  Text.like_chars (37%N :: p) s
  = Text.like_chars p s
    || match s with
       | [] => false
       | _ :: s' => Text.like_chars (37%N :: p) s'
       end.
Proof. destruct s; reflexivity. Qed.


Lemma like_any s : Text.like_chars [37%N] s = true.
Proof.
  induction s as [|c s IH]; rewrite like_percent; [reflexivity|].
  rewrite IH. apply orb_true_r.
Qed.






Lemma starts_with_iff n : forall h,
  Text.starts_with n h = true <-> exists post, h = (n ++ post)%string.
Proof.
  induction n as [|c n IH]; intros h; simpl.
  - split; [intros _; now exists h | reflexivity].
  - destruct h as [|d h].
    + split; [discriminate | intros [post H]; discriminate].
    + rewrite andb_true_iff, Ascii.eqb_eq, IH. split.
      * intros [-> [post ->]]. now exists post.
      * intros [post H]. inversion H. subst. split; [reflexivity|].
        now exists post.
Qed.

Lemma contains_iff n h :
  Text.contains n h = true <-> Text.substring_of n h.
Proof.
  unfold Text.substring_of.
  induction h as [|d h IH]; cbn [Text.contains]; rewrite orb_true_iff,
    starts_with_iff.
  - split.
    + intros [[post H]|H]; [|discriminate]. now exists EmptyString, post.
    + intros (pre & post & H). left. destruct pre; [|discriminate].
      now exists post.
  - rewrite IH. split.
    + intros [[post H]|(pre & post & ->)].
      * now exists EmptyString, post.
      * now exists (String d pre), post.
    + intros (pre & post & H). destruct pre as [|e pre].
      * left. now exists post.
      * right. inversion H. now exists pre, post.
Qed.

(* ------------------------------------------------------------------ *)
(** * Listing *)
(* ------------------------------------------------------------------ *)


Lemma created_desc_total a b :
  created_desc a b = true \/ created_desc b a = true.
Proof. unfold created_desc. apply text_le_total. Qed.

Lemma created_desc_trans a b c :
  created_desc a b = true -> created_desc b c = true ->
  created_desc a c = true.
Proof. unfold created_desc. intros H1 H2. eapply text_le_trans; eauto. Qed.

(** What [list_invoices] returns, whatever the filters, when [LIKE]
    takes the pattern. *)
Lemma list_invoices_rows status client conn :
  unique_ids conn -> like_refused status client conn = false ->
  exists rows,
    list_invoices status client conn = Ok (map (load conn) rows)
    /\ Permutation rows
         (filter (list_filter status client) (invoices conn))
    /\ StronglySorted newest_first rows.
Proof.
  intros Hnd Hfit.
  exists (order_by created_desc
            (filter (list_filter status client) (invoices conn))).
  split; [|split].
  - unfold list_invoices. rewrite Hfit. apply mapM_get; [exact Hnd|].
    intros r Hr. apply (Permutation_in _ (order_by_perm _ _)) in Hr.
    now apply filter_In in Hr.
  - apply order_by_perm.
  - apply (order_by_sorted created_desc created_desc_total
             created_desc_trans).
Qed.





(** [LIKE] reads a name up to its first NUL: the text ["cme"], which
    comes after the NUL of the name, does not list the invoice, and the
    text ["a"] does. *)
Lemma list_invoices_nul :
  Text.substring_of "cme" Demo.nul_name
  /\ list_invoices None (Some "cme") Demo.nul_db = Ok []
  /\ exists inv,
       list_invoices None (Some "a") Demo.nul_db = Ok [inv]
       /\ Invoice.client_name inv = Demo.nul_name.
Proof.
  split; [apply contains_iff; reflexivity|].
  split; [vm_compute; reflexivity|].
  eexists. split; [vm_compute; reflexivity | reflexivity].
Qed.

(* ------------------------------------------------------------------ *)
(** * The sample data, through the theorems *)
(* ------------------------------------------------------------------ *)

Lemma demo_acme_unique : unique_ids Demo.acme_db.
Proof. unfold unique_ids. vm_compute. repeat constructor. simpl. tauto. Qed.

Lemma demo_sent_unique : unique_ids Demo.sent_db.
Proof. unfold unique_ids. vm_compute. repeat constructor. simpl. tauto. Qed.

Lemma demo_two_reachable : reachable Demo.two_db.
Proof.
  unfold Demo.two_db, Demo.acme_db, Demo.create.
  eapply reachable_step; [|apply step_paid].
  eapply reachable_step; [|apply step_create].
  eapply reachable_step; [|apply step_create].
  apply reachable_init.
Qed.

Lemma demo_three_reachable : reachable Demo.three_db.
Proof.
  unfold Demo.three_db, Demo.create.
  eapply reachable_step; [exact demo_two_reachable | apply step_create].
Qed.


(** The paid invoice of the store of two has both paid fields set. *)
Lemma paid_fields_invariant_witness :
  reachable Demo.two_db /\ In Demo.paid_row (invoices Demo.two_db)
  /\ paid_fields_ok Demo.paid_row.
Proof.
  assert (In Demo.paid_row (invoices Demo.two_db)) as Hin
    by (vm_compute; now left).
  split; [exact demo_two_reachable|]. split; [exact Hin|].
  exact (proj1 paid_fields_invariant Demo.two_db Demo.paid_row
           demo_two_reachable Hin).
Defined.

(** One paid invoice out of two: a collection rate of 50.0; one out of
    three: 33.3. *)
Lemma summary_report_spec_witness :
  Report.paid_count (summary_report None None Demo.two_db) = 1
  /\ Report.total_invoices (summary_report None None Demo.two_db) = 2
  /\ Report.collection_rate (summary_report None None Demo.two_db)
     = Float (literal 500 1)
  /\ Report.paid_count (summary_report None None Demo.three_db) = 1
  /\ Report.total_invoices (summary_report None None Demo.three_db) = 3
  /\ Report.collection_rate (summary_report None None Demo.three_db)
     = Float (literal 333 1).
Proof.
  assert (Report.paid_count (summary_report None None Demo.two_db) = 1)
    as Hp by (vm_compute; reflexivity).
  assert (Report.total_invoices (summary_report None None Demo.two_db) = 2)
    as Ht by (vm_compute; reflexivity).
  assert (Report.paid_count (summary_report None None Demo.three_db) = 1)
    as Hp3 by (vm_compute; reflexivity).
  assert (Report.total_invoices (summary_report None None Demo.three_db) = 3)
    as Ht3 by (vm_compute; reflexivity).
  split; [exact Hp|]. split; [exact Ht|].
  split; [|split; [exact Hp3|split; [exact Ht3|]]].
  - destruct (summary_report_spec None None Demo.two_db)
      as (_ & _ & _ & _ & _ & _ & _ & _ & Hrates & _).
    apply (Hrates 1 2); [simpl; tauto | exact Hp | exact Ht].
  - destruct (summary_report_spec None None Demo.three_db)
      as (_ & _ & _ & _ & _ & _ & _ & _ & Hrates & _).
    apply (Hrates 1 3); [simpl; tauto | exact Hp3 | exact Ht3].
Defined.


(* ------------------------------------------------------------------ *)
(** * Unknown identifiers *)
(* ------------------------------------------------------------------ *)

Lemma select_invoice_none_iff conn invoice_id :
  Sql.select_invoice conn invoice_id = None
  <-> ~ In invoice_id (map Row.id (invoices conn)).
Proof.
  split; [apply select_invoice_missing|].
  intros Hnot. destruct (Sql.select_invoice conn invoice_id) as [row|] eqn:H;
    [|reflexivity].
  exfalso. apply Hnot. destruct (select_invoice_found _ _ _ H) as [Hin <-].
  now apply in_map.
Qed.

(** X1.  An id that no invoice of the store has makes [get_invoice],
    [send_invoice], [mark_paid] and [calculate_overdue_fee] raise the
    [KeyError] "Invoice <id> not found", the two that write leaving the
    store as it was; and [get_invoice] raises on no other id. *)
Theorem unknown_id_raises now invoice_id payment_method daily_rate conn :
  ~ In invoice_id (map Row.id (invoices conn)) ->
  get_invoice invoice_id conn
  = Raise (KeyError ("Invoice " ++ invoice_id ++ " not found")%string)
  /\ send_invoice invoice_id conn
     = (Raise (KeyError ("Invoice " ++ invoice_id ++ " not found")%string),
        conn)
  /\ mark_paid now invoice_id payment_method conn
     = (Raise (KeyError ("Invoice " ++ invoice_id ++ " not found")%string),
        conn)
  /\ calculate_overdue_fee now invoice_id daily_rate conn
     = Raise (KeyError ("Invoice " ++ invoice_id ++ " not found")%string)
  /\ (forall other e,
        get_invoice other conn = Raise e ->
        ~ In other (map Row.id (invoices conn))).
Proof.
  intros Hnot. apply select_invoice_none_iff in Hnot.
  assert (get_invoice invoice_id conn = Raise (not_found invoice_id)) as Hget
    by (unfold get_invoice; now rewrite Hnot).
  split; [exact Hget|]. split; [|split; [|split]].
  - rewrite send_invoice_transition. unfold transition. now rewrite Hnot.
  - rewrite mark_paid_transition. unfold transition. now rewrite Hnot.
  - unfold calculate_overdue_fee. now rewrite Hget.
  - intros other e H. apply select_invoice_none_iff.
    unfold get_invoice in H.
    destruct (Sql.select_invoice conn other); [discriminate | reflexivity].
Qed.

Lemma unknown_id_raises_witness :
  ~ In "nonexistent-id" (map Row.id (invoices Demo.acme_db))
  /\ get_invoice "nonexistent-id" Demo.acme_db
     = Raise (KeyError "Invoice nonexistent-id not found").
Proof.
  assert (~ In "nonexistent-id" (map Row.id (invoices Demo.acme_db))) as H
    by (vm_compute; intros [H|[]]; discriminate).
  split; [exact H|].
  exact (proj1 (unknown_id_raises Demo.now "nonexistent-id"
                  default_payment_method default_daily_rate Demo.acme_db H)).
Defined.

(* ------------------------------------------------------------------ *)
(** * What a step, and a history, leave alone *)
(* ------------------------------------------------------------------ *)

Lemma frozen_set_status v r : frozen (Row.set_status v r) = frozen r.
Proof. reflexivity. Qed.

Lemma frozen_set_paid a m r : frozen (Row.set_paid a m r) = frozen r.
Proof. reflexivity. Qed.

Lemma frozen_sweep today r : frozen (sweep_row today r) = frozen r.
Proof. unfold sweep_row. now destruct (is_overdue today r). Qed.

Lemma extends_map f conn :
  (forall r, In r (invoices conn) -> frozen (f r) = frozen r) ->
  extends conn (mkdb (map f (invoices conn)) (line_items conn)).
Proof.
  intros Hf. exists f, [], []. simpl. rewrite !app_nil_r.
  split; [reflexivity|]. split; [exact Hf|].
  split; [intros ? []|]. split; [constructor|].
  split; [reflexivity | intros ? []].
Qed.

Lemma extends_same conn : extends conn conn.
Proof.
  generalize (extends_map (fun r => r) conn (fun r _ => eq_refl)).
  now rewrite map_id, db_eta.
Qed.

Lemma extends_transition msg set invoice_id conn :
  unique_ids conn ->
  (forall r, frozen (set r) = frozen r) ->
  extends conn (store (transition msg set invoice_id conn)).
Proof.
  intros Hnd Hset.
  destruct (transition_store msg set invoice_id conn Hnd)
    as [->|(row & Hin & Hrid & Hst & ->)]; [apply extends_same|].
  apply extends_map. intros r Hr.
  destruct (String.eqb_spec (Row.id r) invoice_id); [|reflexivity].
  replace r with row; [apply Hset|].
  apply (NoDup_map_inj Row.id (invoices conn));
    [exact Hnd | exact Hin | exact Hr | congruence].
Qed.

(** Every call extends the store. *)
Lemma step_extends conn conn' :
  unique_ids conn -> step conn conn' -> extends conn conn'.
Proof.
  intros Hnd Hstep. destruct Hstep.
  - match goal with
    | |- context [store ?c] => destruct (outcome c) as [inv|e] eqn:Hout
    end.
    + destruct (create_invoice_ok _ _ _ _ _ _ _ _ _ _ _ _ Hout)
        as (_ & _ & _ & (due & _ & Hinv) & Hfresh & Hrows & Hli).
      exists (fun r => r), [Sql.stored_invoice (invoice_row inv)],
        (item_rows uuid4 (Invoice.id inv) O items).
      rewrite map_id. split; [exact Hrows|]. split; [reflexivity|].
      split; [|split; [|split; [exact Hli|]]].
      * intros r [<-|[]]. split; [exact Hfresh | subst inv; reflexivity].
      * repeat constructor. simpl. tauto.
      * intros l Hl. apply item_rows_invoice_id in Hl. now rewrite Hl.
    + rewrite (create_invoice_raise _ _ _ _ _ _ _ _ _ _ _ _ Hout).
      apply extends_same.
  - rewrite send_invoice_transition. now apply extends_transition.
  - rewrite mark_paid_transition. now apply extends_transition.
  - destruct (mark_overdue_cases limit now conn Hnd) as [-> | ->];
      [|apply extends_same].
    apply extends_map. intros r _. apply frozen_sweep.
Qed.

Lemma frozen_id r r' : frozen r = frozen r' -> Row.id r = Row.id r'.
Proof. intros H. now inversion H. Qed.

Lemma extends_ids f rows :
  (forall r, In r rows -> frozen (f r) = frozen r) ->
  map Row.id (map f rows) = map Row.id rows.
Proof.
  intros Hf. rewrite map_map. apply map_ext_in.
  intros r Hr. apply frozen_id, Hf, Hr.
Qed.

Lemma extends_unique_ids conn conn' :
  unique_ids conn -> extends conn conn' -> unique_ids conn'.
Proof.
  intros Hnd (f & added & items' & Hrows & Hf & Hadded & Hnd' & _).
  unfold unique_ids. rewrite Hrows, map_app, (extends_ids f _ Hf).
  apply NoDup_app; [exact Hnd | exact Hnd' |].
  intros i Hi Hi'. apply in_map_iff in Hi'. destruct Hi' as [r [<- Hr]].
  now apply (proj1 (Hadded r Hr)).
Qed.

Lemma find_map_frozen f rows invoice_id row :
  (forall r, In r rows -> frozen (f r) = frozen r) ->
  find (fun r => String.eqb (Row.id r) invoice_id) rows = Some row ->
  find (fun r => String.eqb (Row.id r) invoice_id) (map f rows)
  = Some (f row).
Proof.
  induction rows as [|r rows IH]; simpl; intros Hf Hsel; [discriminate|].
  rewrite (frozen_id _ _ (Hf r (or_introl eq_refl))).
  destruct (String.eqb (Row.id r) invoice_id).
  - now inversion Hsel.
  - apply IH; [|exact Hsel]. intros r' Hr'. apply Hf. now right.
Qed.

Lemma find_app_found {A : Type} (f : A -> bool) (l l' : list A) a :
  find f l = Some a -> find f (l ++ l') = Some a.
Proof.
  induction l as [|b l IH]; simpl; [discriminate|].
  destruct (f b); auto.
Qed.

(** The rows an id selects before and after. *)
Lemma extends_select conn conn' invoice_id row :
  extends conn conn' ->
  Sql.select_invoice conn invoice_id = Some row ->
  exists row',
    Sql.select_invoice conn' invoice_id = Some row'
    /\ frozen row' = frozen row
    /\ Sql.select_line_items conn' invoice_id
       = Sql.select_line_items conn invoice_id.
Proof.
  intros (f & added & items' & Hrows & Hf & Hadded & _ & Hli & Hitems) Hsel.
  destruct (select_invoice_found _ _ _ Hsel) as [Hin Hid].
  exists (f row). split; [|split; [now apply Hf|]].
  - unfold Sql.select_invoice in *. rewrite Hrows.
    apply find_app_found, find_map_frozen; assumption.
  - unfold Sql.select_line_items. rewrite Hli, filter_app.
    rewrite (filter_none _ items'); [now rewrite app_nil_r|].
    intros l Hl. apply String.eqb_neq. intros Heq.
    apply (Hitems l Hl). rewrite Heq, <- Hid. now apply in_map.
Qed.

Lemma steps_unique_ids conn conn' :
  unique_ids conn -> steps conn conn' -> unique_ids conn'.
Proof.
  intros Hnd. induction 1 as [|conn conn1 conn2 _ IH Hstep]; [exact Hnd|].
  apply (extends_unique_ids conn1 conn2 (IH Hnd)).
  exact (step_extends conn1 conn2 (IH Hnd) Hstep).
Qed.

Lemma steps_select conn conn' invoice_id row :
  unique_ids conn -> steps conn conn' ->
  Sql.select_invoice conn invoice_id = Some row ->
  exists row',
    Sql.select_invoice conn' invoice_id = Some row'
    /\ frozen row' = frozen row
    /\ (Row.status row = "paid" -> row' = row)
    /\ Sql.select_line_items conn' invoice_id
       = Sql.select_line_items conn invoice_id.
Proof.
  intros Hnd Hsteps. revert row.
  induction Hsteps as [|conn conn1 conn2 Hsteps IH Hstep]; intros row Hsel.
  - exists row. auto.
  - destruct (IH Hnd row Hsel) as (row1 & Hsel1 & Hfr1 & Hpaid1 & Hli1).
    pose proof (steps_unique_ids _ _ Hnd Hsteps) as Hnd1.
    destruct (extends_select _ _ _ _ (step_extends _ _ Hnd1 Hstep) Hsel1)
      as (row2 & Hsel2 & Hfr2 & Hli2).
    exists row2. split; [exact Hsel2|]. split; [congruence|].
    split; [|congruence].
    intros Hpaid. rewrite <- (Hpaid1 Hpaid).
    destruct (select_invoice_found _ _ _ Hsel1) as [Hin1 Hid1].
    destruct (select_invoice_found _ _ _ Hsel2) as [Hin2 Hid2].
    assert (unique_ids conn2) as Hnd2
      by exact (extends_unique_ids conn1 conn2 Hnd1
                  (step_extends conn1 conn2 Hnd1 Hstep)).
    apply (NoDup_map_inj Row.id (invoices conn2)); try assumption;
      [|congruence].
    apply (paid_row_stays conn1 conn2); try assumption.
    now rewrite (Hpaid1 Hpaid).
Qed.

(** X2.  No call removes an invoice or edits what it bills: after any
    number of calls an invoice that could be read can still be read, with
    the same number, client, line items, rates, dates of issue and of
    payment due, notes and currency, hence the same amounts; only its
    status and its two payment fields may differ, and not even those once
    it is paid. *)
Theorem history_keeps_invoices conn conn' invoice_id inv :
  unique_ids conn -> steps conn conn' ->
  get_invoice invoice_id conn = Ok inv ->
  exists inv',
    get_invoice invoice_id conn' = Ok inv'
    /\ inv' = Invoice.make (Invoice.id inv) (Invoice.number inv)
                (Invoice.client_name inv) (Invoice.client_email inv)
                (Invoice.line_items inv) (Invoice.tax_rate inv)
                (Invoice.discount inv) (Invoice.status inv')
                (Invoice.due_date inv) (Invoice.created_at inv)
                (Invoice.paid_at inv') (Invoice.payment_method inv')
                (Invoice.notes inv) (Invoice.currency inv)
    /\ Invoice.subtotal inv' = Invoice.subtotal inv
    /\ Invoice.discount_amount inv' = Invoice.discount_amount inv
    /\ Invoice.tax_amount inv' = Invoice.tax_amount inv
    /\ Invoice.total inv' = Invoice.total inv
    /\ (Invoice.status inv = "paid" -> inv' = inv).
Proof.
  intros Hnd Hsteps Hget.
  destruct (Sql.select_invoice conn invoice_id) as [row|] eqn:Hsel;
    [|unfold get_invoice in Hget; rewrite Hsel in Hget; discriminate].
  rewrite (get_invoice_row _ _ _ Hsel) in Hget. inversion Hget as [Hinv].
  destruct (steps_select _ _ _ _ Hnd Hsteps Hsel)
    as (row' & Hsel' & Hfr & Hpaid & Hli).
  exists (_row_to_invoice row'
            (map item_of_row (Sql.select_line_items conn' invoice_id))).
  split; [apply get_invoice_row, Hsel'|].
  rewrite Hli.
  assert (_row_to_invoice row'
            (map item_of_row (Sql.select_line_items conn invoice_id))
          = Invoice.make (Row.id row) (Row.number row)
              (Row.client_name row) (Row.client_email row)
              (map item_of_row (Sql.select_line_items conn invoice_id))
              (Row.tax_rate row) (Row.discount row) (Row.status row')
              (Row.due_date row) (Row.created_at row) (Row.paid_at row')
              (Row.payment_method row') (Row.notes row) (Row.currency row))
    as E.
  { unfold _row_to_invoice. inversion Hfr. congruence. }
  split; [rewrite E; reflexivity|].
  rewrite E. repeat (split; [reflexivity|]).
  simpl. intros Hst. now rewrite (Hpaid Hst).
Qed.

(* ------------------------------------------------------------------ *)
(** * The life of an invoice *)
(* ------------------------------------------------------------------ *)

(** Where the rows of the store after a call come from. *)
Lemma step_row conn conn' r' :
  unique_ids conn -> step conn conn' -> In r' (invoices conn') ->
  In r' (invoices conn)
  \/ (exists r, In r (invoices conn) /\ Row.status r <> "paid"
                /\ r' = Row.set_status "sent" r)
  \/ (exists r a m, In r (invoices conn) /\ Row.status r <> "paid"
                    /\ r' = Row.set_paid a m r)
  \/ (exists r, In r (invoices conn) /\ Row.status r = "sent"
                /\ r' = Row.set_status "overdue" r)
  \/ (Row.status r' = "draft" /\ Row.paid_at r' = None
      /\ Row.payment_method r' = None
      /\ ~ In (Row.id r') (map Row.id (invoices conn))).
Proof.
  intros Hnd Hstep Hin.
  assert (forall msg set invoice_id,
            In r' (invoices (store (transition msg set invoice_id conn))) ->
            In r' (invoices conn)
            \/ exists r, In r (invoices conn) /\ Row.status r <> "paid"
                         /\ r' = set r) as Htrans.
  { intros msg set invoice_id Hr'.
    destruct (transition_store msg set invoice_id conn Hnd)
      as [E|(row & Hrow & Hrid & Hst & E)]; rewrite E in Hr';
      [now left|].
    simpl in Hr'. apply in_map_iff in Hr'. destruct Hr' as (r & <- & Hr).
    destruct (String.eqb (Row.id r) invoice_id); [right | now left].
    now exists row. }
  destruct Hstep.
  - match type of Hin with
    | context [store ?c] => destruct (outcome c) as [inv|e] eqn:Hout
    end.
    + destruct (create_invoice_ok _ _ _ _ _ _ _ _ _ _ _ _ Hout)
        as (_ & _ & _ & (due & _ & Hinv) & Hfresh & Hrows & _).
      rewrite Hrows in Hin. apply in_app_or in Hin.
      destruct Hin as [Hin|[<-|[]]]; [now left|].
      do 4 right. subst inv. simpl in *. auto.
    + rewrite (create_invoice_raise _ _ _ _ _ _ _ _ _ _ _ _ Hout) in Hin.
      now left.
  - rewrite send_invoice_transition in Hin.
    destruct (Htrans _ _ _ Hin) as [H|(r & Hr & Hst & ->)]; [now left|].
    right; left. now exists r.
  - rewrite mark_paid_transition in Hin.
    destruct (Htrans _ _ _ Hin) as [H|(r & Hr & Hst & ->)]; [now left|].
    right; right; left. now exists r, (_now now), payment_method.
  - destruct (mark_overdue_cases limit now conn Hnd) as [E|E];
      rewrite E in Hin; [|now left].
    simpl in Hin. apply in_map_iff in Hin. destruct Hin as (r & <- & Hr).
    unfold sweep_row.
    destruct (is_overdue _ r) eqn:Ho; [|now left].
    do 3 right; left. exists r. apply is_overdue_iff in Ho. tauto.
Qed.

(** X3.  One call moves an invoice along its life or leaves it exactly
    as it was: a status other than paid may become sent or paid (paid
    together with the two payment fields), sent may become overdue, and
    nothing else happens to it. *)
Theorem status_lifecycle conn conn' invoice_id inv :
  unique_ids conn -> step conn conn' ->
  get_invoice invoice_id conn = Ok inv ->
  exists inv',
    get_invoice invoice_id conn' = Ok inv'
    /\ (inv' = inv
        \/ (Invoice.status inv <> "paid" /\ Invoice.status inv' = "sent"
            /\ Invoice.paid_at inv' = Invoice.paid_at inv
            /\ Invoice.payment_method inv' = Invoice.payment_method inv)
        \/ (Invoice.status inv <> "paid" /\ Invoice.status inv' = "paid"
            /\ Invoice.paid_at inv' <> None
            /\ Invoice.payment_method inv' <> None)
        \/ (Invoice.status inv = "sent" /\ Invoice.status inv' = "overdue"
            /\ Invoice.paid_at inv' = Invoice.paid_at inv
            /\ Invoice.payment_method inv' = Invoice.payment_method inv)).
Proof.
  intros Hnd Hstep Hget.
  destruct (Sql.select_invoice conn invoice_id) as [row|] eqn:Hsel;
    [|unfold get_invoice in Hget; rewrite Hsel in Hget; discriminate].
  rewrite (get_invoice_row _ _ _ Hsel) in Hget. inversion Hget as [Hinv].
  destruct (extends_select _ _ _ _ (step_extends _ _ Hnd Hstep) Hsel)
    as (row' & Hsel' & Hfr & Hli).
  exists (_row_to_invoice row'
            (map item_of_row (Sql.select_line_items conn' invoice_id))).
  split; [apply get_invoice_row, Hsel'|]. rewrite Hli.
  destruct (select_invoice_found _ _ _ Hsel) as [Hin Hid].
  destruct (select_invoice_found _ _ _ Hsel') as [Hin' Hid'].
  assert (forall r, In r (invoices conn) -> Row.id r = Row.id row' ->
                    r = row) as Hsame.
  { intros r Hr Hrid.
    apply (NoDup_map_inj Row.id (invoices conn)); try assumption.
    congruence. }
  destruct (step_row _ _ _ Hnd Hstep Hin')
    as [H|[(r & Hr & Hst & E)|[(r & a & m & Hr & Hst & E)
       |[(r & Hr & Hst & E)|(_ & _ & _ & Hfresh)]]]].
  - left. now rewrite (Hsame row' H eq_refl).
  - right; left. rewrite E in *. rewrite (Hsame r Hr eq_refl) in *.
    simpl. auto.
  - right; right; left. rewrite E in *.
    rewrite (Hsame r Hr eq_refl) in *. simpl.
    repeat split; [assumption | discriminate | discriminate].
  - do 3 right. rewrite E in *. rewrite (Hsame r Hr eq_refl) in *.
    simpl. auto.
  - exfalso. apply Hfresh. rewrite Hid', <- Hid. now apply in_map.
Qed.

Lemma reachable_known_status conn :
  reachable conn ->
  forall r, In r (invoices conn) -> known_status (Row.status r).
Proof.
  induction 1 as [|conn conn' Hreach IH Hstep]; [intros ? []|].
  intros r' Hr'. unfold known_status.
  pose proof (proj1 (reachable_well_formed _ Hreach)) as Hnd.
  destruct (step_row _ _ _ Hnd Hstep Hr')
    as [H|[(r & Hr & Hst & ->)|[(r & a & m & Hr & Hst & ->)
       |[(r & Hr & Hst & ->)|(Hd & _)]]]]; simpl; auto.
  now apply IH.
Qed.

(** X4.  In a store built by the operations every status is one of
    draft, sent, paid and overdue, and so is the status of every invoice
    read from it. *)
Theorem status_known conn :
  reachable conn ->
  (forall r, In r (invoices conn) -> known_status (Row.status r))
  /\ (forall invoice_id inv,
        get_invoice invoice_id conn = Ok inv ->
        known_status (Invoice.status inv)).
Proof.
  intros Hreach.
  pose proof (reachable_known_status conn Hreach) as Hrows.
  split; [exact Hrows|].
  intros invoice_id inv Hget.
  destruct (get_invoice_inv _ _ _ Hget) as (row & Hin & _ & ->).
  simpl. now apply Hrows.
Qed.

Lemma status_known_witness :
  reachable Demo.two_db
  /\ known_status (Row.status Demo.paid_row).
Proof.
  split; [exact demo_two_reachable|].
  apply (proj1 (status_known Demo.two_db demo_two_reachable)).
  vm_compute. now left.
Defined.

Lemma demo_two_steps : steps Demo.acme_db Demo.two_db.
Proof.
  unfold Demo.two_db, Demo.create.
  eapply steps_step; [|apply step_paid].
  eapply steps_step; [|apply step_create].
  apply steps_refl.
Qed.

Lemma demo_acme_get :
  get_invoice "inv-0" Demo.acme_db = Ok (load Demo.acme_db Demo.acme_row).
Proof. vm_compute. reflexivity. Qed.

(** The invoice of Acme Corp keeps its total of 261.25 while another
    invoice is created and it is paid. *)
Lemma history_keeps_invoices_witness :
  unique_ids Demo.acme_db /\ steps Demo.acme_db Demo.two_db
  /\ exists inv',
       get_invoice "inv-0" Demo.two_db = Ok inv'
       /\ Invoice.total inv'
          = Invoice.total (load Demo.acme_db Demo.acme_row).
Proof.
  split; [exact demo_acme_unique|]. split; [exact demo_two_steps|].
  destruct (history_keeps_invoices Demo.acme_db Demo.two_db "inv-0"
              (load Demo.acme_db Demo.acme_row) demo_acme_unique
              demo_two_steps demo_acme_get)
    as (inv' & Hget & _ & _ & _ & _ & Htotal & _).
  exists inv'. split; [exact Hget | exact Htotal].
Defined.

(** Sending the draft of Acme Corp is one of the moves. *)
Lemma status_lifecycle_witness :
  unique_ids Demo.acme_db /\ step Demo.acme_db Demo.sent_db
  /\ exists inv',
       get_invoice "inv-0" Demo.sent_db = Ok inv'
       /\ (inv' = load Demo.acme_db Demo.acme_row
           \/ Invoice.status inv' = "sent" \/ Invoice.status inv' = "paid"
           \/ Invoice.status inv' = "overdue").
Proof.
  split; [exact demo_acme_unique|].
  split; [apply step_send|].
  destruct (status_lifecycle Demo.acme_db Demo.sent_db "inv-0"
              (load Demo.acme_db Demo.acme_row) demo_acme_unique
              (step_send Demo.acme_db (Demo.uuid4 O)) demo_acme_get)
    as (inv' & Hget & Hmove).
  exists inv'. split; [exact Hget|]. tauto.
Defined.

(* ------------------------------------------------------------------ *)
(** * Calls one after the other *)
(* ------------------------------------------------------------------ *)

Lemma is_overdue_sweep today r : is_overdue today (sweep_row today r) = false.
Proof.
  unfold sweep_row. destruct (is_overdue today r) eqn:H; [reflexivity|exact H].
Qed.

(** What a sweep that returns has found, and that it was within the
    bound. *)
Lemma mark_overdue_returns limit now conn ids :
  outcome (mark_overdue limit now conn) = Ok ids ->
  ids = overdue_ids (date_isoformat (dt_date now)) conn
  /\ (ids = [] \/ len ids <= limit).
Proof.
  unfold mark_overdue, outcome.
  destruct (overdue_ids _ conn) as [|i l] eqn:Hids.
  - simpl. intros H. inversion H. auto.
  - destruct (len (i :: l) <=? limit) eqn:Hfit; simpl; intros H;
      inversion H.
    split; [reflexivity|]. right. now apply Z.leb_le.
Qed.

(** The sweep reads the clock for the day only. *)
Lemma mark_overdue_day limit now now' conn :
  dt_date now' = dt_date now ->
  mark_overdue limit now' conn = mark_overdue limit now conn.
Proof. intros H. unfold mark_overdue. now rewrite H. Qed.

(** X5.  After a sweep that has returned, a second sweep on the same day
    finds nothing to do, whatever the bound on host parameters: it
    returns no id and leaves the store as the first sweep left it.  After
    a sweep that has raised, the store is as it was and a second sweep on
    the same day raises as the first did. *)
Theorem mark_overdue_idempotent limit limit' now now' conn :
  unique_ids conn -> dt_date now' = dt_date now ->
  (forall ids,
     outcome (mark_overdue limit now conn) = Ok ids ->
     mark_overdue limit' now' (store (mark_overdue limit now conn))
     = (Ok [], store (mark_overdue limit now conn)))
  /\ (forall e,
        outcome (mark_overdue limit now conn) = Raise e ->
        store (mark_overdue limit now conn) = conn
        /\ mark_overdue limit now' (store (mark_overdue limit now conn))
           = (Raise e, conn)
        /\ e = OperationalError "too many SQL variables"
        /\ limit
           < len (overdue_ids (date_isoformat (dt_date now)) conn)).
Proof.
  intros Hnd Hday. split.
  - intros ids Hout.
    destruct (mark_overdue_cases limit now conn Hnd) as [E|E];
      rewrite E in Hout |- *; [|discriminate].
    cbn [store snd]. rewrite (mark_overdue_day limit' now now' _ Hday).
    unfold mark_overdue, overdue_ids. cbn [invoices].
    rewrite filter_none; [reflexivity|].
    intros r' Hr'. apply in_map_iff in Hr'. destruct Hr' as (r & <- & _).
    apply is_overdue_sweep.
  - intros e Hout.
    destruct (mark_overdue_cases limit now conn Hnd) as [E|E];
      [rewrite E in Hout; discriminate|].
    assert (limit < len (overdue_ids (date_isoformat (dt_date now)) conn))
      as Hlt.
    { revert E. unfold mark_overdue.
      destruct (overdue_ids _ conn) as [|i l]; [discriminate|].
      destruct (len (i :: l) <=? limit) eqn:Hfit; [discriminate|].
      intros _. now apply Z.leb_gt. }
    rewrite E in Hout |- *. cbn [store snd outcome fst] in *.
    inversion Hout; subst e.
    split; [reflexivity|].
    split; [|split; [reflexivity | exact Hlt]].
    now rewrite (mark_overdue_day limit now now' _ Hday).
Qed.

Lemma mark_overdue_idempotent_witness :
  unique_ids Demo.sent_db
  /\ outcome (mark_overdue 250000 Demo.later Demo.sent_db) = Ok ["inv-0"]
  /\ outcome
       (mark_overdue 250000 Demo.later
          (store (mark_overdue 250000 Demo.later Demo.sent_db)))
     = Ok [].
Proof.
  assert (outcome (mark_overdue 250000 Demo.later Demo.sent_db)
          = Ok ["inv-0"]) as H by (vm_compute; reflexivity).
  split; [exact demo_sent_unique|]. split; [exact H|].
  now rewrite (proj1 (mark_overdue_idempotent 250000 250000 Demo.later
                        Demo.later Demo.sent_db demo_sent_unique eq_refl)
                 _ H).
Defined.

Lemma transition_inv msg set invoice_id conn inv :
  outcome (transition msg set invoice_id conn) = Ok inv ->
  exists row,
    Sql.select_invoice conn invoice_id = Some row
    /\ Row.status row <> "paid".
Proof.
  unfold transition.
  destruct (Sql.select_invoice conn invoice_id) as [row|]; [|discriminate].
  destruct (String.eqb_spec (Row.status row) "paid"); [discriminate|].
  intros _. now exists row.
Qed.

Lemma select_updated set invoice_id conn row :
  (forall r, Row.id (set r) = Row.id r) ->
  Sql.select_invoice conn invoice_id = Some row ->
  Sql.select_invoice (Sql.update_invoices (has_id invoice_id) set conn)
    invoice_id = Some (set row).
Proof.
  intros Hset Hsel. rewrite (select_update _ _ _ _ Hset), Hsel. simpl.
  destruct (select_invoice_found _ _ _ Hsel) as [_ Hid].
  unfold has_id. now rewrite Hid, String.eqb_refl.
Qed.

(** X6.  Payment is final: once [mark_paid] has succeeded the invoice
    reads back as the one it returned, [send_invoice] and a second
    [mark_paid] are refused with their [ValueError] and change nothing,
    the overdue fee is [0.0] whatever the date and the rate, and no
    sweep finds the invoice or lists it. *)
Theorem paid_invoice_refuses now invoice_id payment_method conn inv :
  outcome (mark_paid now invoice_id payment_method conn) = Ok inv ->
  let conn' := store (mark_paid now invoice_id payment_method conn) in
  get_invoice invoice_id conn' = Ok inv
  /\ send_invoice invoice_id conn'
     = (Raise (ValueError "Cannot send a paid invoice"), conn')
  /\ (forall now' payment_method',
        mark_paid now' invoice_id payment_method' conn'
        = (Raise (ValueError "Invoice already paid"), conn'))
  /\ (forall now' daily_rate,
        calculate_overdue_fee now' invoice_id daily_rate conn'
        = Ok (literal 0 1))
  /\ (forall now',
        ~ In invoice_id (overdue_ids (date_isoformat (dt_date now')) conn'))
  /\ (forall limit now' ids,
        outcome (mark_overdue limit now' conn') = Ok ids ->
        ~ In invoice_id ids).
Proof.
  rewrite mark_paid_transition. intros Hout conn'.
  destruct (transition_inv _ _ _ _ _ Hout) as (row & Hsel & Hst).
  pose proof (transition_ok "Invoice already paid"
                (Row.set_paid (_now now) payment_method) invoice_id conn row
                (set_paid_id _ _) Hsel Hst) as E.
  assert (conn' = Sql.update_invoices (has_id invoice_id)
                    (Row.set_paid (_now now) payment_method) conn) as Hconn
    by (unfold conn'; now rewrite E).
  assert (Sql.select_invoice conn' invoice_id
          = Some (Row.set_paid (_now now) payment_method row)) as Hsel'
    by (rewrite Hconn; apply select_updated;
        [apply set_paid_id | exact Hsel]).
  assert (get_invoice invoice_id conn' = Ok inv) as Hget.
  { rewrite E in Hout. simpl in Hout. inversion Hout as [Hinv].
    rewrite (get_invoice_row _ _ _ Hsel'), Hconn.
    now rewrite select_line_items_update. }
  assert (forall now',
            ~ In invoice_id
                (overdue_ids (date_isoformat (dt_date now')) conn'))
    as Hnever.
  { intros now' Hin. unfold overdue_ids in Hin.
    apply in_map_iff in Hin. destruct Hin as (r' & Hid & Hr').
    apply filter_In in Hr'. destruct Hr' as [Hr' Ho].
    apply is_overdue_iff in Ho. destruct Ho as [Hsent _].
    rewrite Hconn in Hr'. simpl in Hr'. apply in_map_iff in Hr'.
    destruct Hr' as (r & <- & Hr).
    unfold has_id in *.
    destruct (String.eqb_spec (Row.id r) invoice_id) as [_|Hne].
    + discriminate Hsent.
    + apply Hne. exact Hid. }
  split; [exact Hget|]. split; [|split; [|split; [|split]]].
  - rewrite send_invoice_transition.
    now apply (transition_paid _ _ _ _ _ Hsel').
  - intros now' payment_method'. rewrite mark_paid_transition.
    now apply (transition_paid _ _ _ _ _ Hsel').
  - intros now' daily_rate. unfold calculate_overdue_fee.
    rewrite (get_invoice_row _ _ _ Hsel'). reflexivity.
  - exact Hnever.
  - intros limit now' ids Hids.
    destruct (mark_overdue_returns _ _ _ _ Hids) as [-> _].
    apply Hnever.
Qed.

Lemma paid_invoice_refuses_witness :
  outcome (mark_paid Demo.now "inv-0" default_payment_method Demo.acme_db)
  = Ok (_row_to_invoice Demo.paid_row Demo.items)
  /\ calculate_overdue_fee Demo.later "inv-0" default_daily_rate
       (store (mark_paid Demo.now "inv-0" default_payment_method
                 Demo.acme_db))
     = Ok (literal 0 1).
Proof.
  assert (outcome (mark_paid Demo.now "inv-0" default_payment_method
                     Demo.acme_db)
          = Ok (_row_to_invoice Demo.paid_row Demo.items)) as H
    by (vm_compute; reflexivity).
  split; [exact H|].
  destruct (paid_invoice_refuses Demo.now "inv-0" default_payment_method
              Demo.acme_db _ H) as (_ & _ & _ & Hfee & _).
  apply Hfee.
Defined.

(** The one row a condition picks by its id. *)
Lemma filter_one_id (P : Row.t -> bool) (h : Row.t -> Row.t) rows r0 :
  NoDup (map Row.id rows) -> In r0 rows ->
  (forall r, Row.id (h r) = Row.id r) ->
  (forall r, In r rows -> P (h r) = String.eqb (Row.id r) (Row.id r0)) ->
  map Row.id (filter P (map h rows)) = [Row.id r0].
Proof.
  intros Hnd Hin Hid HP.
  induction rows as [|r rows IH]; [contradiction|].
  inversion Hnd as [|? ? Hnotin Hnd']; subst.
  cbn [map filter]. rewrite (HP r (or_introl eq_refl)).
  destruct Hin as [->|Hin].
  - rewrite String.eqb_refl. cbn [map]. rewrite Hid. f_equal.
    rewrite filter_none; [reflexivity|].
    intros r' Hr'. apply in_map_iff in Hr'. destruct Hr' as (r & <- & Hr).
    rewrite (HP r (or_intror Hr)). apply String.eqb_neq.
    intros Heq. apply Hnotin. rewrite <- Heq. now apply in_map.
  - replace (String.eqb (Row.id r) (Row.id r0)) with false.
    + apply IH; [exact Hnd' | exact Hin |].
      intros r' Hr'. apply HP. now right.
    + symmetry. apply String.eqb_neq. intros Heq. apply Hnotin.
      rewrite Heq. now apply in_map.
Qed.

(** X7.  An invoice a sweep has marked overdue can be sent again and is
    then sent; the next sweep of the same day finds that invoice and no
    other, returns its id and marks it overdue once more. *)
Theorem overdue_invoice_resent limit now invoice_id conn ids :
  unique_ids conn ->
  outcome (mark_overdue limit now conn) = Ok ids ->
  In invoice_id ids ->
  let conn1 := store (mark_overdue limit now conn) in
  let conn2 := store (send_invoice invoice_id conn1) in
  let conn3 := store (mark_overdue limit now conn2) in
  (exists inv,
     get_invoice invoice_id conn1 = Ok inv
     /\ Invoice.status inv = "overdue")
  /\ (exists inv,
        outcome (send_invoice invoice_id conn1) = Ok inv
        /\ Invoice.status inv = "sent"
        /\ get_invoice invoice_id conn2 = Ok inv)
  /\ outcome (mark_overdue limit now conn2) = Ok [invoice_id]
  /\ (exists inv,
        get_invoice invoice_id conn3 = Ok inv
        /\ Invoice.status inv = "overdue").
Proof.
  intros Hnd Hout Hin conn1 conn2 conn3.
  set (today := date_isoformat (dt_date now)).
  destruct (mark_overdue_returns _ _ _ _ Hout) as [Hids Hfit].
  fold today in Hids.
  assert (1 <= limit) as Hlimit.
  { destruct Hfit as [Hnil|Hfit]; [rewrite Hnil in Hin; contradiction|].
    destruct ids as [|i l]; [contradiction|].
    unfold len in Hfit. simpl List.length in Hfit. lia. }
  assert (conn1 = mkdb (map (sweep_row today) (invoices conn))
                    (line_items conn)) as Hconn1.
  { unfold conn1.
    destruct (mark_overdue_cases limit now conn Hnd) as [E|E];
      rewrite E in Hout |- *; [reflexivity | discriminate]. }
  rewrite Hids in Hin. unfold overdue_ids in Hin.
  apply in_map_iff in Hin. destruct Hin as (r & Hid & Hr).
  apply filter_In in Hr. destruct Hr as [Hr Ho].
  pose proof (select_invoice_unique conn r Hnd Hr) as Hsel.
  rewrite Hid in Hsel.
  assert (Sql.select_invoice conn1 invoice_id
          = Some (Row.set_status "overdue" r)) as Hsel1.
  { rewrite Hconn1.
    rewrite (select_map _ _ _ _ (sweep_row_id _)), db_eta, Hsel. simpl.
    unfold sweep_row. now rewrite Ho. }
  split.
  { eexists. split; [apply (get_invoice_row _ _ _ Hsel1) | reflexivity]. }
  pose proof (transition_ok "Cannot send a paid invoice"
                (Row.set_status "sent") invoice_id conn1 _
                (set_status_id _) Hsel1 ltac:(discriminate)) as E.
  assert (conn2 = Sql.update_invoices (has_id invoice_id)
                    (Row.set_status "sent") conn1) as Hconn2
    by (unfold conn2; now rewrite send_invoice_transition, E).
  assert (Sql.select_invoice conn2 invoice_id
          = Some (Row.set_status "sent" (Row.set_status "overdue" r)))
    as Hsel2
    by (rewrite Hconn2; apply select_updated;
        [apply set_status_id | exact Hsel1]).
  split.
  { eexists. split; [rewrite send_invoice_transition, E; reflexivity|].
    split; [reflexivity|].
    rewrite (get_invoice_row _ _ _ Hsel2), Hconn2.
    now rewrite select_line_items_update. }
  assert (unique_ids conn1) as Hnd1
    by exact (extends_unique_ids conn conn1 Hnd
                (step_extends conn conn1 Hnd (step_overdue conn limit now))).
  assert (unique_ids conn2) as Hnd2
    by exact (extends_unique_ids conn1 conn2 Hnd1
                (step_extends conn1 conn2 Hnd1
                   (step_send conn1 invoice_id))).
  assert (overdue_ids today conn2 = [invoice_id]) as Hids2.
  { unfold overdue_ids. rewrite Hconn2, Hconn1.
    unfold Sql.update_invoices. cbn [invoices]. rewrite map_map.
    replace [invoice_id] with [Row.id r] by now rewrite Hid.
    apply (filter_one_id (is_overdue today)
             (fun x => if has_id invoice_id (sweep_row today x)
                       then Row.set_status "sent" (sweep_row today x)
                       else sweep_row today x));
      [exact Hnd | exact Hr | |].
    - intros x. destruct (has_id _ _); [simpl|]; apply sweep_row_id.
    - intros x Hx. unfold has_id. rewrite sweep_row_id, <- Hid.
      destruct (String.eqb_spec (Row.id x) (Row.id r)) as [Heq|Hne].
      + assert (x = r)
          by (apply (NoDup_map_inj Row.id (invoices conn));
              [exact Hnd | exact Hx | exact Hr | exact Heq]).
        subst x. unfold sweep_row. rewrite Ho.
        apply is_overdue_iff in Ho. apply is_overdue_iff. simpl. tauto.
      + apply is_overdue_sweep. }
  pose proof (mark_overdue_ok limit now conn2 Hnd2) as Hrun.
  fold today in Hrun. rewrite Hids2 in Hrun.
  specialize (Hrun (or_intror Hlimit)).
  split; [now rewrite Hrun|].
  assert (Sql.select_invoice conn3 invoice_id
          = Some (Row.set_status "overdue"
                    (Row.set_status "sent" (Row.set_status "overdue" r))))
    as Hsel3.
  { unfold conn3. rewrite Hrun. cbn [store snd].
    rewrite (select_map _ _ _ _ (sweep_row_id _)), db_eta, Hsel2. simpl.
    unfold sweep_row.
    replace (is_overdue today
               (Row.set_status "sent" (Row.set_status "overdue" r)))
      with true; [reflexivity|].
    symmetry. apply is_overdue_iff in Ho. apply is_overdue_iff.
    simpl. tauto. }
  eexists. split; [apply (get_invoice_row _ _ _ Hsel3) | reflexivity].
Qed.

Lemma overdue_invoice_resent_witness :
  unique_ids Demo.sent_db
  /\ outcome (mark_overdue 250000 Demo.later Demo.sent_db) = Ok ["inv-0"]
  /\ In "inv-0" ["inv-0"]
  /\ (exists inv,
        get_invoice "inv-0"
          (store (mark_overdue 250000 Demo.later
                    (store (send_invoice "inv-0"
                              (store (mark_overdue 250000 Demo.later
                                        Demo.sent_db))))))
        = Ok inv
        /\ Invoice.status inv = "overdue").
Proof.
  assert (outcome (mark_overdue 250000 Demo.later Demo.sent_db)
          = Ok ["inv-0"]) as H by (vm_compute; reflexivity).
  assert (In "inv-0" ["inv-0"]) as Hin by (simpl; tauto).
  split; [exact demo_sent_unique|]. split; [exact H|]. split; [exact Hin|].
  exact (proj2 (proj2 (proj2 (overdue_invoice_resent 250000 Demo.later
                                "inv-0" Demo.sent_db ["inv-0"]
                                demo_sent_unique H Hin)))).
Defined.

(* ------------------------------------------------------------------ *)
(** * Invoice numbers *)
(* ------------------------------------------------------------------ *)

(** A digit is a character by itself, no wildcard, without case, and
    not the dash. *)
Lemma is_digit_facts c :
  Number.is_digit c = true ->
  (N_of_ascii c =? 0)%N = false /\ (N_of_ascii c <? 192)%N = true
  /\ (N_of_ascii c =? 37)%N = false /\ (N_of_ascii c =? 95)%N = false
  /\ Text.same_char 45 (N_of_ascii c) = false
  /\ Text.same_char (N_of_ascii c) 45 = false
  /\ (N_of_ascii c <? 128)%N = true
  /\ Text.tolower (N_of_ascii c) = N_of_ascii c.
Proof.
  destruct c as [[] [] [] [] [] [] [] []]; intros H; vm_compute in H;
    try discriminate H; repeat split; reflexivity.
Qed.

Lemma digit_same c d :
  Number.is_digit c = true -> Number.is_digit d = true ->
  Text.same_char (N_of_ascii c) (N_of_ascii d) = Ascii.eqb c d.
Proof.
  intros Hc Hd.
  destruct (is_digit_facts c Hc) as (_ & _ & _ & _ & _ & _ & Lc & Tc).
  destruct (is_digit_facts d Hd) as (_ & _ & _ & _ & _ & _ & Ld & Td).
  unfold Text.same_char. rewrite Lc, Ld, Tc, Td. cbn [andb].
  rewrite orb_diag.
  destruct (Ascii.eqb_spec c d) as [->|Hne]; [apply N.eqb_refl|].
  apply byte_neq. now apply Ascii.eqb_neq.
Qed.

Lemma is_digit_digit d : 0 <= d <= 9 -> Number.is_digit (Text.digit d) = true.
Proof.
  intros H.
  assert (d = 0 \/ d = 1 \/ d = 2 \/ d = 3 \/ d = 4 \/ d = 5 \/ d = 6
          \/ d = 7 \/ d = 8 \/ d = 9) as C by lia.
  repeat (destruct C as [C|C]); subst; reflexivity.
Qed.

Lemma all_digits_decimal_aux fuel : forall n acc,
  Number.all_digits acc = true ->
  Number.all_digits (Text.decimal_aux fuel n acc) = true.
Proof.
  induction fuel as [|fuel IH]; intros n acc Hacc; simpl; [exact Hacc|].
  assert (Number.all_digits (String (Text.digit (n mod 10)) acc) = true)
    as H.
  { simpl. rewrite Hacc, is_digit_digit; [reflexivity|].
    pose proof (Z.mod_pos_bound n 10). lia. }
  destruct (n <? 10); [exact H | now apply IH].
Qed.

(** [str(n)] is a text of digits. *)
Lemma all_digits_decimal n : Number.all_digits (Text.decimal n) = true.
Proof. now apply all_digits_decimal_aux. Qed.

Lemma like_cons c p d s :
  (c =? 37)%N = false ->
  Text.like_chars (c :: p) (d :: s)
  = ((c =? 95)%N || Text.same_char c d) && Text.like_chars p s.
Proof. intros H. cbn [Text.like_chars]. now rewrite H. Qed.

(** A byte below [0xC0] other than NUL is a character by itself. *)
Lemma chars_cons b s :
  (N_of_ascii b =? 0)%N = false -> (N_of_ascii b <? 192)%N = true ->
  Text.chars (String b s) = N_of_ascii b :: Text.chars s.
Proof.
  intros H0 H. unfold Text.chars. cbn [Text.read Text.flush app].
  now rewrite H0, H.
Qed.

(** The pattern of a year matches the numbers of that year only. *)
Lemma like_year t' : forall t rest,
  Number.all_digits t' = true -> Number.all_digits t = true ->
  Text.like_chars (Text.chars (t' ++ "-%"))
    (Text.chars (t ++ String "-" rest))
  = String.eqb t' t.
Proof.
  induction t' as [|c' t' IH]; intros [|c t] rest H' H; simpl in H', H;
    cbn [append].
  - rewrite (chars_cons "-" rest) by reflexivity.
    change (Text.chars "-%") with [45%N; 37%N].
    rewrite like_cons by reflexivity. now rewrite like_any.
  - apply andb_prop in H. destruct H as [Hc _].
    destruct (is_digit_facts c Hc) as (E0 & E192 & _ & _ & E & _).
    rewrite (chars_cons c) by assumption.
    change (Text.chars "-%") with [45%N; 37%N].
    rewrite like_cons by reflexivity. now rewrite E.
  - apply andb_prop in H'. destruct H' as [Hc' _].
    destruct (is_digit_facts c' Hc') as (E0 & E192 & E1 & E2 & _ & E & _).
    rewrite (chars_cons c') by assumption.
    rewrite (chars_cons "-" rest) by reflexivity.
    change (N_of_ascii "-") with 45%N.
    rewrite like_cons by exact E1. now rewrite E2, E.
  - apply andb_prop in H, H'. destruct H as [Hc H], H' as [Hc' H'].
    destruct (is_digit_facts c Hc) as (E0 & E192 & _).
    destruct (is_digit_facts c' Hc') as (E0' & E192' & E1 & E2 & _).
    rewrite (chars_cons c), (chars_cons c') by assumption.
    rewrite like_cons by exact E1.
    rewrite E2, (IH t rest H' H), (digit_same c' c Hc' Hc).
    reflexivity.
Qed.

Lemma like_pattern_make t' t k :
  Number.all_digits t' = true -> Number.all_digits t = true ->
  Text.like (Number.pattern t') (Number.make t k) = String.eqb t' t.
Proof.
  intros H' H. unfold Number.pattern, Number.make, Text.like.
  change ("INV-" ++ t' ++ "-%")%string
    with (String "I" (String "N" (String "V" (String "-" (t' ++ "-%"))))).
  change ("INV-" ++ t ++ "-" ++ Text.format_d 5 k)%string
    with (String "I" (String "N" (String "V" (String "-"
            (t ++ String "-" (Text.format_d 5 k)))))).
  rewrite !(chars_cons "I"), !(chars_cons "N"), !(chars_cons "V"),
    !(chars_cons "-" (_ ++ _)) by reflexivity.
  rewrite !like_cons by reflexivity.
  rewrite (like_year t' t _ H' H).
  reflexivity.
Qed.

Lemma string_app_inv_head a : forall b c,
  (a ++ b)%string = (a ++ c)%string -> b = c.
Proof.
  induction a as [|x a IH]; simpl; intros b c H; [exact H|].
  inversion H. now apply IH.
Qed.

(** Reading a decimal back. *)
Lemma parse_snoc s : forall acc c,
  Text.parse_digits (s ++ String c EmptyString) acc
  = match Text.parse_digits s acc with
    | Some v =>
        match Text.digit_value c with
        | Some d => Some (10 * v + d)
        | None => None
        end
    | None => None
    end.
Proof.
  induction s as [|x s IH]; intros acc c; simpl.
  - now destruct (Text.digit_value c).
  - destruct (Text.digit_value x); [apply IH | reflexivity].
Qed.

Lemma parse_decimal n :
  0 <= n -> Text.parse_digits (Text.decimal n) 0 = Some n.
Proof.
  pattern n. apply (well_founded_induction (Z.lt_wf 0)).
  clear n. intros n IH Hn.
  destruct (Z_lt_le_dec n 10) as [Hs|Hb].
  - rewrite decimal_small by lia. simpl.
    rewrite digit_value_digit by lia. reflexivity.
  - rewrite decimal_step by exact Hb. rewrite parse_snoc.
    assert (0 <= n / 10 < n) as Hq
      by (split; [apply Z.div_pos; lia | apply Z.div_lt; lia]).
    rewrite IH by lia.
    rewrite digit_value_digit by (pose proof (Z.mod_pos_bound n 10); lia).
    f_equal. pose proof (Z.div_mod n 10). lia.
Qed.

Lemma parse_zeros k s :
  Text.parse_digits (Text.zeros k ++ s) 0 = Text.parse_digits s 0.
Proof. induction k as [|k IH]; simpl; [reflexivity | exact IH]. Qed.

(** [f"{n:05d}"] reads back as [n]: two sequence numbers are written
    differently. *)
Lemma parse_format_d w n :
  0 <= n -> Text.parse_digits (Text.format_d w n) 0 = Some n.
Proof.
  intros Hn. unfold Text.format_d. now rewrite parse_zeros, parse_decimal.
Qed.

Lemma make_inj t t' k k' :
  Number.all_digits t = true -> Number.all_digits t' = true ->
  0 <= k -> 0 <= k' ->
  Number.make t k = Number.make t' k' -> t = t' /\ k = k'.
Proof.
  intros Ht Ht' Hk Hk' E.
  assert (t = t') as <-.
  { apply String.eqb_eq. rewrite <- (like_pattern_make t t' k' Ht Ht'), <- E.
    rewrite like_pattern_make by assumption. apply String.eqb_refl. }
  split; [reflexivity|].
  unfold Number.make in E.
  apply (string_app_inv_head "INV-") in E.
  apply string_app_inv_head in E.
  apply (string_app_inv_head "-") in E.
  pose proof (parse_format_d 5 k Hk) as P.
  rewrite E, (parse_format_d 5 k' Hk') in P. congruence.
Qed.

Lemma first_snoc t n :
  Number.first t (S n)
  = Number.first t n ++ [Number.make t (Z.of_nat n + 1)].
Proof.
  unfold Number.first. rewrite seq_S, map_app.
  cbn [map]. do 3 f_equal. lia.
Qed.

Lemma first_length t n : List.length (Number.first t n) = n.
Proof. unfold Number.first. now rewrite length_map, length_seq. Qed.

Lemma in_first t n x :
  In x (Number.first t n)
  <-> exists k, 1 <= k <= Z.of_nat n /\ x = Number.make t k.
Proof.
  unfold Number.first. rewrite in_map_iff. split.
  - intros (i & <- & Hi). apply in_seq in Hi.
    exists (Z.of_nat i). split; [lia | reflexivity].
  - intros (k & Hk & ->). exists (Z.to_nat k).
    rewrite Z2Nat.id by lia. split; [reflexivity|].
    apply in_seq. lia.
Qed.

Lemma filter_map_length {A B : Type} (f : B -> bool) (g : A -> B) l :
  List.length (filter f (map g l))
  = List.length (filter (fun a => f (g a)) l).
Proof.
  induction l as [|a l IH]; simpl; [reflexivity|].
  destruct (f (g a)); simpl; now rewrite IH.
Qed.

(** What [_invoice_number] returns, in terms of the numbers of the
    year. *)
Lemma invoice_number_make now conn :
  _invoice_number now conn
  = Number.make (Text.decimal (year (dt_date now)))
      (Z.of_nat
         (List.length
            (Number.of_year (Text.decimal (year (dt_date now))) conn)) + 1).
Proof.
  unfold _invoice_number, Number.make, Number.of_year, Number.pattern.
  now rewrite filter_map_length.
Qed.

Lemma frozen_number r r' : frozen r = frozen r' -> Row.number r = Row.number r'.
Proof. intros H. now inversion H. Qed.

(** The numbers of the table after a call: the same, or one more, the
    one [_invoice_number] made. *)
Lemma step_numbers conn conn' :
  unique_ids conn -> step conn conn' ->
  map Row.number (invoices conn') = map Row.number (invoices conn)
  \/ exists now,
       map Row.number (invoices conn')
       = map Row.number (invoices conn) ++ [_invoice_number now conn].
Proof.
  intros Hnd Hstep.
  assert (forall msg set invoice_id,
            (forall r, frozen (set r) = frozen r) ->
            map Row.number
              (invoices (store (transition msg set invoice_id conn)))
            = map Row.number (invoices conn)) as Htrans.
  { intros msg set invoice_id Hset.
    destruct (transition_store msg set invoice_id conn Hnd)
      as [->|(row & Hin & Hrid & Hst & ->)]; [reflexivity|].
    simpl. rewrite map_map. apply map_ext_in. intros r Hr.
    destruct (String.eqb_spec (Row.id r) invoice_id); [|reflexivity].
    replace r with row; [apply frozen_number, Hset|].
    apply (NoDup_map_inj Row.id (invoices conn));
      [exact Hnd | exact Hin | exact Hr | congruence]. }
  destruct Hstep.
  - match goal with
    | |- context [store ?c] => destruct (outcome c) as [inv|e] eqn:Hout
    end.
    + destruct (create_invoice_ok _ _ _ _ _ _ _ _ _ _ _ _ Hout)
        as (_ & _ & _ & (due & _ & Hinv) & _ & Hrows & _).
      right. exists now. rewrite Hrows, map_app. subst inv. reflexivity.
    + rewrite (create_invoice_raise _ _ _ _ _ _ _ _ _ _ _ _ Hout).
      now left.
  - left. rewrite send_invoice_transition. now apply Htrans.
  - left. rewrite mark_paid_transition. now apply Htrans.
  - left. destruct (mark_overdue_cases limit now conn Hnd) as [-> | ->];
      [|reflexivity].
    simpl. rewrite map_map. apply map_ext. intros r.
    apply frozen_number, frozen_sweep.
Qed.

Lemma sequential_numbers conn conn' :
  map Row.number (invoices conn') = map Row.number (invoices conn) ->
  Number.sequential conn -> Number.sequential conn'.
Proof.
  intros E [Hmade Hseq]. split.
  - intros r' Hr'.
    assert (In (Row.number r') (map Row.number (invoices conn))) as H
      by (rewrite <- E; now apply in_map).
    apply in_map_iff in H. destruct H as (r & Hn & Hr).
    rewrite <- Hn. now apply Hmade.
  - intros t Ht. unfold Number.of_year. rewrite E. now apply Hseq.
Qed.

Lemma sequential_create now conn conn' :
  map Row.number (invoices conn')
  = map Row.number (invoices conn) ++ [_invoice_number now conn] ->
  Number.sequential conn -> Number.sequential conn'.
Proof.
  intros E [Hmade Hseq].
  set (ty := Text.decimal (year (dt_date now))).
  pose proof (all_digits_decimal (year (dt_date now))) as Hty. fold ty in Hty.
  rewrite invoice_number_make in E. fold ty in E.
  split.
  - intros r' Hr'.
    assert (In (Row.number r')
              (map Row.number (invoices conn)
               ++ [Number.make ty
                     (Z.of_nat (List.length (Number.of_year ty conn)) + 1)]))
      as H by (rewrite <- E; now apply in_map).
    apply in_app_or in H. destruct H as [H|[H|[]]].
    + apply in_map_iff in H. destruct H as (r & Hn & Hr).
      rewrite <- Hn. now apply Hmade.
    + rewrite <- H. eauto.
  - intros t Ht. unfold Number.of_year. rewrite E, filter_app.
    cbn [filter]. rewrite (like_pattern_make t ty _ Ht Hty).
    fold (Number.of_year t conn).
    destruct (String.eqb_spec t ty) as [->|Hne].
    + rewrite length_app. simpl. rewrite Nat.add_1_r, first_snoc.
      now rewrite <- (Hseq ty Hty).
    + rewrite app_nil_r. now apply Hseq.
Qed.

Lemma reachable_sequential conn : reachable conn -> Number.sequential conn.
Proof.
  induction 1 as [|conn conn' Hreach IH Hstep].
  - split; [intros ? []|]. intros t _. reflexivity.
  - pose proof (proj1 (reachable_well_formed _ Hreach)) as Hnd.
    destruct (step_numbers conn conn' Hnd Hstep) as [E|[now E]].
    + now apply (sequential_numbers conn).
    + now apply (sequential_create now conn).
Qed.

Lemma NoDup_map_injective {A B : Type} (f : A -> B) l :
  (forall a b, f a = f b -> a = b) -> NoDup l -> NoDup (map f l).
Proof.
  intros Hf. induction 1 as [|a l Hnotin Hnd IH]; simpl; constructor;
    [|exact IH].
  intros Hin. apply in_map_iff in Hin. destruct Hin as (b & E & Hb).
  apply Hf in E. now subst.
Qed.

Lemma first_NoDup t n :
  Number.all_digits t = true -> NoDup (Number.first t n).
Proof.
  intros Ht. unfold Number.first.
  apply NoDup_map_injective; [|apply seq_NoDup].
  intros i j E.
  apply (make_inj t t _ _ Ht Ht) in E; [|lia|lia].
  now apply Nat2Z.inj.
Qed.

(** A list is free of duplicates when each of its classes is. *)
Lemma NoDup_by_year l :
  (forall x, In x l ->
     exists t, Number.all_digits t = true
               /\ Text.like (Number.pattern t) x = true) ->
  (forall t, Number.all_digits t = true ->
     NoDup (filter (Text.like (Number.pattern t)) l)) ->
  NoDup l.
Proof.
  induction l as [|x l IH]; intros Hmade Hnd; [constructor|].
  destruct (Hmade x (or_introl eq_refl)) as (t & Ht & Hx).
  pose proof (Hnd t Ht) as Hndt. cbn [filter] in Hndt. rewrite Hx in Hndt.
  inversion Hndt as [|? ? Hnotin _]; subst.
  constructor.
  - intros Hin. apply Hnotin, filter_In. now split.
  - apply IH.
    + intros y Hy. apply Hmade. now right.
    + intros t' Ht'. pose proof (Hnd t' Ht') as H. cbn [filter] in H.
      destruct (Text.like (Number.pattern t') x); [|exact H].
      now inversion H.
Qed.

Lemma sequential_NoDup conn :
  Number.sequential conn -> NoDup (map Row.number (invoices conn)).
Proof.
  intros [Hmade Hseq]. apply NoDup_by_year.
  - intros x Hx. apply in_map_iff in Hx. destruct Hx as (r & <- & Hr).
    destruct (Hmade r Hr) as (t & k & Ht & ->).
    exists t. split; [exact Ht|].
    rewrite like_pattern_make by assumption. apply String.eqb_refl.
  - intros t Ht. fold (Number.of_year t conn). rewrite (Hseq t Ht).
    now apply first_NoDup.
Qed.

Lemma sequential_fresh now conn :
  Number.sequential conn ->
  ~ In (_invoice_number now conn) (map Row.number (invoices conn)).
Proof.
  intros [Hmade Hseq] Hin.
  set (ty := Text.decimal (year (dt_date now))).
  pose proof (all_digits_decimal (year (dt_date now))) as Hty. fold ty in Hty.
  rewrite invoice_number_make in Hin. fold ty in Hin.
  assert (In (Number.make ty
                (Z.of_nat (List.length (Number.of_year ty conn)) + 1))
            (Number.of_year ty conn)) as H.
  { apply filter_In. split; [exact Hin|].
    rewrite like_pattern_make by assumption. apply String.eqb_refl. }
  rewrite (Hseq ty Hty) in H at 2.
  apply in_first in H. destruct H as (k & Hk & E).
  apply (make_inj ty ty _ _ Hty Hty) in E; lia.
Qed.

(** X8.  In a store built by the operations the numbers of a year are
    INV-<year>-00001, INV-<year>-00002 and so on without a gap, in the
    order of creation, and the next call of [_invoice_number] in that
    year makes the one after the last. *)
Theorem invoice_numbers_sequential conn :
  reachable conn ->
  (forall t, Number.all_digits t = true ->
     Number.of_year t conn
     = Number.first t (List.length (Number.of_year t conn)))
  /\ (forall r, In r (invoices conn) ->
        exists t k,
          Number.all_digits t = true
          /\ 1 <= k <= Z.of_nat (List.length (Number.of_year t conn))
          /\ Row.number r = Number.make t k)
  /\ (forall now,
        let t := Text.decimal (year (dt_date now)) in
        Number.all_digits t = true
        /\ _invoice_number now conn
           = Number.make t
               (Z.of_nat (List.length (Number.of_year t conn)) + 1)).
Proof.
  intros Hreach.
  destruct (reachable_sequential conn Hreach) as [Hmade Hseq].
  split; [exact Hseq|]. split.
  - intros r Hr. destruct (Hmade r Hr) as (t & k & Ht & E).
    assert (In (Row.number r) (Number.of_year t conn)) as Hin.
    { apply filter_In. split; [now apply in_map|].
      rewrite E, like_pattern_make by assumption. apply String.eqb_refl. }
    rewrite (Hseq t Ht) in Hin at 1. apply in_first in Hin.
    destruct Hin as (k' & Hk' & E'). now exists t, k'.
  - intros now t. split; [apply all_digits_decimal|].
    apply invoice_number_make.
Qed.

(** The two invoices of the sample store are the first two of 2026. *)
Lemma invoice_numbers_sequential_witness :
  reachable Demo.two_db
  /\ Number.of_year "2026" Demo.two_db
     = [Number.make "2026" 1; Number.make "2026" 2].
Proof.
  split; [exact demo_two_reachable|].
  rewrite (proj1 (invoice_numbers_sequential Demo.two_db demo_two_reachable)
             "2026" eq_refl).
  vm_compute. reflexivity.
Defined.

(** X9.  In a store built by the operations no two invoices have the
    same number, and the number [_invoice_number] makes next is new: the
    UNIQUE constraint on [number] never refuses an insert. *)
Theorem invoice_numbers_distinct conn :
  reachable conn ->
  NoDup (map Row.number (invoices conn))
  /\ (forall now,
        ~ In (_invoice_number now conn) (map Row.number (invoices conn)))
  /\ (forall a b inv_a inv_b,
        get_invoice a conn = Ok inv_a -> get_invoice b conn = Ok inv_b ->
        Invoice.number inv_a = Invoice.number inv_b -> a = b).
Proof.
  intros Hreach.
  pose proof (reachable_sequential conn Hreach) as Hseq.
  pose proof (sequential_NoDup conn Hseq) as Hnd.
  split; [exact Hnd|]. split.
  - intros now. now apply sequential_fresh.
  - intros a b inv_a inv_b Ha Hb E.
    destruct (get_invoice_inv _ _ _ Ha) as (ra & Hra & <- & ->).
    destruct (get_invoice_inv _ _ _ Hb) as (rb & Hrb & <- & ->).
    simpl in E. f_equal.
    now apply (NoDup_map_inj Row.number (invoices conn)).
Qed.

Lemma invoice_numbers_distinct_witness :
  reachable Demo.two_db
  /\ NoDup (map Row.number (invoices Demo.two_db)).
Proof.
  split; [exact demo_two_reachable|].
  exact (proj1 (invoice_numbers_distinct Demo.two_db demo_two_reachable)).
Defined.

(* ------------------------------------------------------------------ *)
(** * When [create_invoice] succeeds *)
(* ------------------------------------------------------------------ *)

Lemma existsb_key_false {A : Type} (key : A -> string) l x :
  existsb (fun a => String.eqb (key a) x) l = false
  <-> ~ In x (map key l).
Proof.
  induction l as [|a l IH]; simpl; [tauto|].
  rewrite orb_false_iff, IH, String.eqb_neq. tauto.
Qed.

Lemma insert_invoice_iff conn r :
  (exists conn', Sql.insert_invoice conn r = Ok conn')
  <-> ~ In (Row.id r) (map Row.id (invoices conn))
      /\ ~ In (Row.number r) (map Row.number (invoices conn))
      /\ is_nan (Row.tax_rate r) = false
      /\ is_nan (Row.discount r) = false.
Proof.
  unfold Sql.insert_invoice, Sql.real_not_null.
  rewrite <- (existsb_key_false Row.id), <- (existsb_key_false Row.number).
  destruct (existsb (fun r' => String.eqb (Row.id r') (Row.id r))
              (invoices conn));
    destruct (existsb (fun r' => String.eqb (Row.number r') (Row.number r))
                (invoices conn));
    destruct (is_nan (Row.tax_rate r)); destruct (is_nan (Row.discount r));
    simpl; split; try (intros [? H]; discriminate H);
    try (intros (H1 & H2 & H3 & H4); discriminate); eauto.
Qed.

Lemma insert_line_item_iff conn l :
  (exists conn', Sql.insert_line_item conn l = Ok conn')
  <-> ~ In (ItemRow.id l) (map ItemRow.id (line_items conn))
      /\ is_nan (ItemRow.qty l) = false
      /\ is_nan (ItemRow.unit_price l) = false.
Proof.
  unfold Sql.insert_line_item, Sql.real_not_null.
  rewrite <- (existsb_key_false ItemRow.id).
  destruct (existsb (fun l' => String.eqb (ItemRow.id l') (ItemRow.id l))
              (line_items conn));
    destruct (is_nan (ItemRow.qty l));
    destruct (is_nan (ItemRow.unit_price l));
    simpl; split; try (intros [? H]; discriminate H);
    try (intros (H1 & H2 & H3); discriminate); eauto.
Qed.

(** The loop inserts every item exactly when the identifiers drawn for
    them are new and distinct and no number is a NaN. *)
Lemma insert_items_iff uuid4 invoice_id items : forall i conn,
  (exists conn', insert_items uuid4 invoice_id i items conn = Ok conn')
  <-> NoDup (map (fun k => uuid4 (S k)) (seq i (List.length items)))
      /\ (forall x,
            In x (map (fun k => uuid4 (S k)) (seq i (List.length items))) ->
            ~ In x (map ItemRow.id (line_items conn)))
      /\ (forall li, In li items ->
            is_nan (LineItem.qty li) = false
            /\ is_nan (LineItem.unit_price li) = false).
Proof.
  induction items as [|li rest IH]; intros i conn.
  - simpl. split; [|eauto]. intros _.
    split; [constructor|]. split; intros ? [].
  - cbn [insert_items List.length seq map].
    split.
    + intros [conn' H].
      destruct (Sql.insert_line_item conn (item_row uuid4 invoice_id i li))
        as [conn1|e] eqn:H1; [|discriminate H].
      simpl in H.
      destruct (proj1 (insert_line_item_iff _ _) (ex_intro _ conn1 H1))
        as (Hfresh & Hq & Hp).
      destruct (insert_line_item_ok _ _ _ H1) as (-> & _).
      destruct (proj1 (IH (S i) _) (ex_intro _ conn' H))
        as (Hnd & Hnew & Hnan).
      simpl in Hfresh, Hnew, Hq, Hp.
      split; [|split].
      * constructor; [|exact Hnd].
        intros Hin. apply (Hnew _ Hin).
        rewrite map_app. apply in_or_app. right. now left.
      * intros x [<-|Hx]; [exact Hfresh|].
        intros Hin. apply (Hnew _ Hx).
        rewrite map_app. apply in_or_app. now left.
      * intros li' [<-|Hli]; [now split | now apply Hnan].
    + intros (Hnd & Hnew & Hnan).
      inversion Hnd as [|? ? Hnotin Hnd']; subst.
      destruct (proj2 (insert_line_item_iff conn
                         (item_row uuid4 invoice_id i li))) as [conn1 H1].
      { simpl. split; [apply Hnew; now left|].
        apply Hnan. now left. }
      rewrite H1. simpl.
      destruct (insert_line_item_ok _ _ _ H1) as (-> & _).
      apply IH. split; [exact Hnd'|]. split.
      * intros x Hx. simpl. rewrite map_app. intros Hin.
        apply in_app_or in Hin. destruct Hin as [Hin|[<-|[]]].
        -- apply (Hnew x); [now right | exact Hin].
        -- now apply Hnotin.
      * intros li' Hli. apply Hnan. now right.
Qed.

Lemma in_unit_range_not_nan x : in_unit_range x = true -> is_nan x = false.
Proof.
  destruct x; try reflexivity. intros H. vm_compute in H. discriminate H.
Qed.

Lemma add_days_iff d n :
  (exists due, add_days d n = Ok due)
  <-> 1 <= toordinal d + n <= _MAXORDINAL.
Proof.
  unfold add_days.
  destruct (Z.leb_spec 1 (toordinal d + n)) as [H1|H1];
    destruct (Z.leb_spec (toordinal d + n) _MAXORDINAL) as [H2|H2]; simpl;
    (split; [intros [? H]; try discriminate H; lia | intros H]);
    try lia; eauto.
Qed.

(** When [create_invoice] succeeds, in any store. *)
Lemma create_invoice_outcome now uuid4 client_name client_email items
    tax_rate due_days discount notes currency conn :
  (exists inv,
     outcome (create_invoice now uuid4 client_name client_email items
                tax_rate due_days discount notes currency conn) = Ok inv)
  <-> items <> []
      /\ in_unit_range tax_rate = true
      /\ in_unit_range discount = true
      /\ 1 <= toordinal (dt_date now) + due_days <= _MAXORDINAL
      /\ ~ In (uuid4 O) (map Row.id (invoices conn))
      /\ ~ In (_invoice_number now conn) (map Row.number (invoices conn))
      /\ items_insertable uuid4 items conn.
Proof.
  unfold items_insertable, item_ids.
  rewrite <- add_days_iff.
  unfold create_invoice, outcome, raise.
  destruct items as [|li rest];
    [cbn [fst]; split; [intros [? H]; discriminate H | tauto]|].
  set (items := li :: rest).
  destruct (in_unit_range tax_rate) eqn:Htax; cbn [negb fst];
    [|split; [intros [? H]; discriminate H
             | intros (_ & H & _); discriminate H]].
  destruct (in_unit_range discount) eqn:Hdisc; cbn [negb fst];
    [|split; [intros [? H]; discriminate H
             | intros (_ & _ & H & _); discriminate H]].
  destruct (add_days (dt_date now) due_days) as [due|e]; cbn [fst];
    [|split; [intros [? H]; discriminate H
             | intros (_ & _ & _ & [? H] & _); discriminate H]].
  unfold with_conn. cbv beta zeta.
  set (inv := Invoice.make (uuid4 O) (_invoice_number now conn) client_name
                client_email items tax_rate discount "draft"
                (date_isoformat due) (isoformat now) None None notes
                currency).
  pose proof (insert_invoice_iff conn (invoice_row inv)) as Hrow.
  cbn [invoice_row inv Row.id Row.number Row.tax_rate Row.discount
       Invoice.id Invoice.number Invoice.tax_rate Invoice.discount]
    in Hrow.
  destruct (Sql.insert_invoice conn (invoice_row inv)) as [conn1|e] eqn:H1;
    cbn [bind].
  - destruct (insert_invoice_ok _ _ _ H1) as [Hconn1 _].
    pose proof (insert_items_iff uuid4 (Invoice.id inv) items O conn1)
      as Hitems.
    replace (line_items conn1) with (line_items conn) in Hitems
      by (rewrite Hconn1; reflexivity).
    destruct (insert_items uuid4 (Invoice.id inv) O items conn1)
      as [conn2|e] eqn:H2; cbn [bind fst].
    + split; [intros _ | eauto].
      split; [discriminate|]. repeat (split; [reflexivity|]).
      split; [eauto|].
      destruct (proj1 Hrow (ex_intro _ conn1 eq_refl)) as (Hid & Hn & _).
      split; [exact Hid|]. split; [exact Hn|].
      apply Hitems. eauto.
    + split; [intros [? H]; discriminate H|].
      intros (_ & _ & _ & _ & _ & _ & H).
      apply Hitems in H. destruct H as [? H]. discriminate H.
  - split; [intros [? H]; discriminate H|].
    intros (_ & _ & _ & _ & Hid & Hnum & _).
    destruct (proj2 Hrow) as [? H]; [|discriminate H].
    split; [exact Hid|]. split; [exact Hnum|].
    split; now apply in_unit_range_not_nan.
Qed.

(** X10.  In a store built by the operations [create_invoice] succeeds
    exactly when there is an item, both rates are in [0, 1], the due date
    is within the calendar, the identifier drawn for the invoice is new,
    the identifiers drawn for the items are new and distinct, and no
    quantity or price is a NaN.  Nothing else is asked of the arguments:
    not of the sign of a quantity or a price, nor of the texts. *)
Theorem create_invoice_succeeds now uuid4 client_name client_email items
    tax_rate due_days discount notes currency conn :
  reachable conn ->
  ((exists inv,
      outcome (create_invoice now uuid4 client_name client_email items
                 tax_rate due_days discount notes currency conn) = Ok inv)
   <-> items <> []
       /\ in_unit_range tax_rate = true
       /\ in_unit_range discount = true
       /\ 1 <= toordinal (dt_date now) + due_days <= _MAXORDINAL
       /\ ~ In (uuid4 O) (map Row.id (invoices conn))
       /\ items_insertable uuid4 items conn).
Proof.
  intros Hreach.
  pose proof (sequential_fresh now conn (reachable_sequential conn Hreach))
    as Hnum.
  rewrite create_invoice_outcome. tauto.
Qed.

(** A second invoice for the sample store, under identifiers of its
    own. *)
Lemma create_invoice_succeeds_witness :
  reachable Demo.acme_db
  /\ exists inv,
       outcome (Demo.create Demo.uuid4' "Globex" Demo.items Demo.acme_db)
       = Ok inv.
Proof.
  assert (reachable Demo.acme_db) as Hreach
    by (eapply reachable_step; [apply reachable_init | apply step_create]).
  split; [exact Hreach|].
  apply (create_invoice_succeeds Demo.now Demo.uuid4' "Globex"
           "billing@example.com" Demo.items (literal 1 1) 30 (literal 5 2)
           EmptyString "USD" Demo.acme_db Hreach).
  split; [discriminate|].
  split; [vm_compute; reflexivity|]. split; [vm_compute; reflexivity|].
  split; [vm_compute; split; discriminate|].
  split; [vm_compute; intros [H|[]]; discriminate H|].
  split; [|split].
  - vm_compute. repeat constructor; simpl; intros H;
      repeat (destruct H as [H|H]; try discriminate H); exact H.
  - vm_compute. intros x Hx Hin.
    repeat (destruct Hx as [Hx|Hx]; try (subst x;
      repeat (destruct Hin as [Hin|Hin]; try discriminate Hin);
      exact Hin)); exact Hx.
  - intros li Hli.
    repeat (destruct Hli as [Hli|Hli]; try (subst li; split; reflexivity));
      destruct Hli.
Defined.

(* ------------------------------------------------------------------ *)
(** * Reports and listings *)
(* ------------------------------------------------------------------ *)

Lemma len_has_status_cons s r rows :
  len (filter (has_status s) (r :: rows))
  = (if String.eqb (Row.status r) s then 1 else 0)
    + len (filter (has_status s) rows).
Proof.
  unfold len. cbn [filter]. unfold has_status at 1.
  destruct (String.eqb (Row.status r) s); cbn [List.length]; lia.
Qed.

(** Rows of known status fall into the four classes the report counts. *)
Lemma status_partition rows :
  (forall r, In r rows -> known_status (Row.status r)) ->
  len (filter (has_status "draft") rows)
  + len (filter (has_status "sent") rows)
  + len (filter (has_status "paid") rows)
  + len (filter (has_status "overdue") rows)
  = len rows.
Proof.
  induction rows as [|r rows IH]; intros Hknown; [reflexivity|].
  specialize (IH (fun r' Hr' => Hknown r' (or_intror Hr'))).
  rewrite !len_has_status_cons.
  assert (len (r :: rows) = 1 + len rows) as ->
    by (unfold len; cbn [List.length]; lia).
  destruct (Hknown r (or_introl eq_refl)) as [E|[E|[E|E]]];
    rewrite E; simpl (String.eqb _ _); cbv iota; lia.
Qed.

Lemma report_counts period_start period_end conn :
  unique_ids conn ->
  let rep := summary_report period_start period_end conn in
  let rows := report_rows period_start period_end conn in
  Report.total_invoices rep = len rows
  /\ Report.draft_count rep = len (filter (has_status "draft") rows)
  /\ Report.sent_count rep = len (filter (has_status "sent") rows)
  /\ Report.paid_count rep = len (filter (has_status "paid") rows)
  /\ Report.overdue_count rep = len (filter (has_status "overdue") rows).
Proof.
  intros Hnd rep rows. unfold rep, summary_report. fold rows.
  cbn [Report.total_invoices Report.draft_count Report.sent_count
       Report.paid_count Report.overdue_count].
  rewrite (load_all_map conn rows Hnd (report_rows_incl _ _ _)).
  rewrite !with_status_load. unfold len. rewrite !length_map.
  repeat split; reflexivity.
Qed.

(** X11.  In a store built by the operations the four counts of the
    report add up to its number of invoices: every invoice is counted
    under exactly one status, and the paid ones are never more than
    all. *)
Theorem report_counts_add_up period_start period_end conn :
  reachable conn ->
  let rep := summary_report period_start period_end conn in
  Report.draft_count rep + Report.sent_count rep + Report.paid_count rep
  + Report.overdue_count rep
  = Report.total_invoices rep
  /\ 0 <= Report.paid_count rep <= Report.total_invoices rep
  /\ 0 <= Report.overdue_count rep <= Report.total_invoices rep.
Proof.
  intros Hreach rep.
  pose proof (proj1 (reachable_well_formed _ Hreach)) as Hnd.
  destruct (report_counts period_start period_end conn Hnd)
    as (Ht & Hd & Hs & Hp & Ho).
  fold rep in Ht, Hd, Hs, Hp, Ho.
  assert (forall r, In r (report_rows period_start period_end conn) ->
                    known_status (Row.status r)) as Hknown.
  { intros r Hr. apply (reachable_known_status conn Hreach).
    now apply (report_rows_incl period_start period_end conn). }
  pose proof (status_partition _ Hknown) as Hsum.
  rewrite Ht, Hd, Hs, Hp, Ho. split; [exact Hsum|].
  unfold len in *. lia.
Qed.

(** Two invoices, one of them paid: 1 draft, 0 sent, 1 paid, none
    overdue. *)
Lemma report_counts_add_up_witness :
  reachable Demo.two_db
  /\ Report.draft_count (summary_report None None Demo.two_db)
     + Report.sent_count (summary_report None None Demo.two_db)
     + Report.paid_count (summary_report None None Demo.two_db)
     + Report.overdue_count (summary_report None None Demo.two_db)
     = Report.total_invoices (summary_report None None Demo.two_db).
Proof.
  split; [exact demo_two_reachable|].
  exact (proj1 (report_counts_add_up None None Demo.two_db
                  demo_two_reachable)).
Defined.

(** A text is after each of its proper prefixes. *)
Lemma le_longer a : forall c b, Text.le (a ++ String c b) a = false.
Proof.
  unfold Text.le, String.leb.
  induction a as [|x a IH]; intros c b; simpl; [reflexivity|].
  rewrite ascii_compare_refl. apply IH.
Qed.

Lemma isoformat_date now :
  exists rest,
    isoformat now = (date_isoformat (dt_date now) ++ String "T" rest)%string.
Proof. unfold isoformat. eexists. reflexivity. Qed.

Lemma date_isoformat_truthy d : truthy (Some (date_isoformat d)) = true.
Proof.
  unfold truthy, date_isoformat.
  now destruct (Text.format_d 4 (year d)).
Qed.

Lemma summary_report_none period_start period_end conn :
  report_rows period_start period_end conn = [] ->
  summary_report period_start period_end conn
  = Report.make period_start period_end 0 (Int 0) 0 (Int 0) 0 (Int 0) 0 0
      (Int 0).
Proof. intros H. unfold summary_report. rewrite H. reflexivity. Qed.

(** X12.  The period of a report.  With one bound missing or empty the
    other is ignored: the report is the one over all invoices, under the
    bounds given.  With both, the invoices counted are those whose
    [created_at] lies between them as text; so an end given as a plain
    date leaves out every invoice created on that date, the time of day
    making its [created_at] the later text. *)
Theorem report_period_edges period_start period_end conn :
  let rep := summary_report period_start period_end conn in
  let all := summary_report None None conn in
  (truthy period_start = false \/ truthy period_end = false ->
   rep = Report.make period_start period_end (Report.total_invoices all)
           (Report.total_invoiced all) (Report.paid_count all)
           (Report.paid_total all) (Report.overdue_count all)
           (Report.overdue_total all) (Report.draft_count all)
           (Report.sent_count all) (Report.collection_rate all))
  /\ (truthy period_start = true -> truthy period_end = true ->
      Report.total_invoices rep
      = len (filter
               (fun r =>
                  Text.le (text_of period_start) (Row.created_at r)
                  && Text.le (Row.created_at r) (text_of period_end))
               (invoices conn)))
  /\ (truthy period_start = true ->
      forall day, period_end = Some (date_isoformat day) ->
      (forall r now,
         In r (report_rows period_start period_end conn) ->
         dt_date now = day -> Row.created_at r <> isoformat now)
      /\ ((forall r, In r (invoices conn) ->
             exists now,
               dt_date now = day /\ Row.created_at r = isoformat now) ->
          rep = Report.make period_start period_end 0 (Int 0) 0 (Int 0) 0
                  (Int 0) 0 0 (Int 0))).
Proof.
  intros rep all. split; [|split].
  - intros H.
    assert (report_rows period_start period_end conn = invoices conn) as E.
    { unfold report_rows.
      destruct H as [-> | ->]; [reflexivity | now rewrite andb_false_r]. }
    unfold rep, all, summary_report. rewrite E. reflexivity.
  - intros Hs He. unfold rep, summary_report.
    cbn [Report.total_invoices]. unfold len.
    rewrite load_all_length by apply report_rows_incl.
    unfold report_rows. now rewrite Hs, He.
  - intros Hs day ->.
    assert (forall r now,
              In r (report_rows period_start (Some (date_isoformat day))
                      conn) ->
              dt_date now = day -> Row.created_at r <> isoformat now)
      as Hout.
    { intros r now Hr Hday Hcreated.
      unfold report_rows in Hr.
      rewrite Hs, date_isoformat_truthy in Hr.
      apply filter_In in Hr. destruct Hr as [_ Hr].
      apply andb_true_iff in Hr. destruct Hr as [_ Hr].
      destruct (isoformat_date now) as [rest E].
      rewrite Hcreated, E, Hday in Hr. cbn [text_of] in Hr.
      now rewrite le_longer in Hr. }
    split; [exact Hout|].
    intros Hall. apply summary_report_none.
    destruct (report_rows period_start (Some (date_isoformat day)) conn)
      as [|r rows] eqn:E; [reflexivity|].
    exfalso.
    assert (In r (invoices conn)) as Hr
      by (apply (report_rows_incl period_start
                   (Some (date_isoformat day)) conn); rewrite E; now left).
    destruct (Hall r Hr) as (now & Hday & Hcreated).
    apply (Hout r now); [now left | exact Hday | exact Hcreated].
Qed.

(** The invoice of Acme Corp, created on 3 November 2026 at 10:00, is
    not in the report from 1 November to 3 November. *)
Lemma report_period_edges_witness :
  truthy (Some "2026-11-01") = true
  /\ Report.total_invoices
       (summary_report (Some "2026-11-01")
          (Some (date_isoformat (mkdate 2026 11 3))) Demo.acme_db) = 0
  /\ Report.total_invoices (summary_report None None Demo.acme_db) = 1.
Proof.
  split; [reflexivity|]. split; [|vm_compute; reflexivity].
  destruct (report_period_edges (Some "2026-11-01")
              (Some (date_isoformat (mkdate 2026 11 3))) Demo.acme_db)
    as (_ & _ & Hday).
  destruct (Hday eq_refl (mkdate 2026 11 3) eq_refl) as [_ Hnone].
  rewrite Hnone; [reflexivity|].
  intros r Hr. exists Demo.now. split; [reflexivity|].
  vm_compute in Hr. destruct Hr as [<-|[]]. vm_compute. reflexivity.
Defined.

(** X13.  [list_invoices] without a client filter ([None] or the empty
    text) never raises in a store with [id] as key: it returns each
    invoice of the status asked for once, all invoices when no status or
    the empty one is given, newest first, each as [get_invoice] reads
    it. *)
Theorem list_invoices_by_status status client conn :
  unique_ids conn -> truthy client = false ->
  exists rows,
    list_invoices status client conn = Ok (map (load conn) rows)
    /\ NoDup rows
    /\ StronglySorted newest_first rows
    /\ (forall r,
          In r rows
          <-> In r (invoices conn)
              /\ (truthy status = true -> Row.status r = text_of status))
    /\ (truthy status = false -> Permutation rows (invoices conn))
    /\ (forall r, In r rows ->
          get_invoice (Invoice.id (load conn r)) conn = Ok (load conn r)).
Proof.
  intros Hnd Hclient.
  assert (like_refused status client conn = false) as Hfit
    by (unfold like_refused; now rewrite Hclient).
  destruct (list_invoices_rows status client conn Hnd Hfit)
    as (rows & Hlist & Hperm & Hsorted).
  assert (forall r,
            list_filter status client r
            = if truthy status
              then String.eqb (Row.status r) (text_of status) else true)
    as Hfilter
    by (intros r; unfold list_filter, status_filter, client_filter;
        rewrite Hclient; apply andb_true_r).
  assert (forall r,
            In r rows
            <-> In r (invoices conn)
                /\ (truthy status = true -> Row.status r = text_of status))
    as Hin.
  { intros r. split.
    - intros Hr. apply (Permutation_in _ Hperm) in Hr.
      apply filter_In in Hr. destruct Hr as [Hr Hf].
      rewrite Hfilter in Hf. split; [exact Hr|].
      intros Ht. rewrite Ht in Hf. now apply String.eqb_eq.
    - intros (Hr & Hs).
      apply (Permutation_in _ (Permutation_sym Hperm)).
      apply filter_In. split; [exact Hr|]. rewrite Hfilter.
      destruct (truthy status); [|reflexivity].
      apply String.eqb_eq. now apply Hs. }
  exists rows. split; [exact Hlist|].
  split; [|split; [exact Hsorted|split; [exact Hin|split]]].
  - apply (Permutation_NoDup (Permutation_sym Hperm)).
    apply NoDup_filter. apply (NoDup_map_inv Row.id). exact Hnd.
  - intros Hs. rewrite Hperm. rewrite filter_all; [reflexivity|].
    intros r _. now rewrite Hfilter, Hs.
  - intros r Hr. apply Hin in Hr. destruct Hr as [Hr _].
    now apply get_invoice_load.
Qed.

(** The one paid invoice of the sample store. *)
Lemma list_invoices_by_status_witness :
  unique_ids Demo.two_db /\ truthy None = false
  /\ exists rows,
       list_invoices (Some "paid") None Demo.two_db
       = Ok (map (load Demo.two_db) rows)
       /\ In Demo.paid_row rows.
Proof.
  assert (unique_ids Demo.two_db) as Hnd
    by exact (proj1 (reachable_well_formed _ demo_two_reachable)).
  split; [exact Hnd|]. split; [reflexivity|].
  destruct (list_invoices_by_status (Some "paid") None Demo.two_db Hnd
              eq_refl) as (rows & Hlist & _ & _ & Hin & _).
  exists rows. split; [exact Hlist|].
  apply Hin. split; [vm_compute; now left | reflexivity].
Defined.

(* ------------------------------------------------------------------ *)
(** * Day numbers and dates, there and back *)
(* ------------------------------------------------------------------ *)

(** The month and the day [_ord2ymd] finds for the [n]-th day of a year
    (counted from 0) are [n] days after 1 January. *)
Lemma month_day_ordinal y n (leapyear : bool) :
  0 <= n <= 364 -> _is_leap y = leapyear ->
  let m := Z.shiftr (n + 50) 5 in
  let preceding :=
    nth (Z.to_nat m) _DAYS_BEFORE_MONTH 0
    + (if (2 <? m) && leapyear then 1 else 0) in
  let d :=
    if n <? preceding then
      mkdate y (m - 1)
        (n - (preceding
              - (nth (Z.to_nat (m - 1)) _DAYS_IN_MONTH 0
                 + (if (m - 1 =? 2) && leapyear then 1 else 0))) + 1)
    else mkdate y m (n - preceding + 1) in
  year d = y /\ _days_before_month y (month d) + day d = n + 1.
Proof.
  intros Hn Hleap. cbv zeta.
  rewrite Z.shiftr_div_pow2 by lia. change (2 ^ 5) with 32.
  assert (1 <= (n + 50) / 32 <= 12) as Hm
    by (Z.div_mod_to_equations; lia).
  remember ((n + 50) / 32) as m eqn:Hmdef.
  assert (32 * m <= n + 50 < 32 * m + 32) as Hrange
    by (subst m; Z.div_mod_to_equations; lia).
  clear Hmdef.
  destruct leapyear; each_month Hm; month_tables;
    match goal with
    | |- context [n <? ?c] => destruct (Z.ltb_spec n c)
    end;
    cbn [year month day]; (split; [reflexivity|]);
    unfold _days_before_month; month_tables; rewrite ?Hleap; lia.
Qed.

(** The days before a year, by the cycles of 400, 100 and 4 years. *)
Lemma days_before_year_cycles n400 n100 n4 n1 :
  0 <= n100 <= 3 -> 0 <= n4 <= 24 -> 0 <= n1 <= 3 ->
  _days_before_year (n400 * 400 + 1 + n100 * 100 + n4 * 4 + n1)
  = 146097 * n400 + 36524 * n100 + 1461 * n4 + 365 * n1.
Proof.
  intros H100 H4 H1. unfold _days_before_year.
  set (y := n400 * 400 + 1 + n100 * 100 + n4 * 4 + n1 - 1).
  assert (y / 4 = 100 * n400 + 25 * n100 + n4) as ->
    by (subst y; Z.div_mod_to_equations; lia).
  assert (y / 100 = 4 * n400 + n100) as ->
    by (subst y; Z.div_mod_to_equations; lia).
  assert (y / 400 = n400) as ->
    by (subst y; Z.div_mod_to_equations; lia).
  subst y. lia.
Qed.

(** [date.fromordinal(o).toordinal() == o] *)
Lemma ord2ymd_toordinal o : 1 <= o -> toordinal (_ord2ymd o) = o.
Proof.
  intros Ho. unfold _ord2ymd.
  change _DI400Y with 146097. change _DI100Y with 36524.
  change _DI4Y with 1461. cbv zeta.
  set (n400 := (o - 1) / 146097).
  set (r400 := (o - 1) mod 146097).
  set (n100 := r400 / 36524).
  set (r100 := r400 mod 36524).
  set (n4 := r100 / 1461).
  set (r4 := r100 mod 1461).
  set (n1 := r4 / 365).
  set (n := r4 mod 365).
  assert (o - 1 = 146097 * n400 + r400 /\ 0 <= r400 < 146097) as [E400 B400]
    by (subst n400 r400; Z.div_mod_to_equations; lia).
  assert (r400 = 36524 * n100 + r100 /\ 0 <= r100 < 36524) as [E100 B100]
    by (subst n100 r100; Z.div_mod_to_equations; lia).
  assert (r100 = 1461 * n4 + r4 /\ 0 <= r4 < 1461) as [E4 B4]
    by (subst n4 r4; Z.div_mod_to_equations; lia).
  assert (r4 = 365 * n1 + n /\ 0 <= n < 365) as [E1 B1]
    by (subst n1 n; Z.div_mod_to_equations; lia).
  clearbody n400 r400 n100 r100 n4 r4 n1 n.
  assert (0 <= n400 /\ 0 <= n100 <= 4 /\ 0 <= n4 <= 24 /\ 0 <= n1 <= 4)
    as (P400 & P100 & P4 & P1) by lia.
  destruct (Z.eqb_spec n1 4) as [F1|F1];
    [|destruct (Z.eqb_spec n100 4) as [F100|F100]]; cbn [orb].
  - (* the last day of a leap year *)
    assert (n4 <= 23) by lia.
    unfold toordinal, _ymd2ord. cbn [year month day].
    replace (n400 * 400 + 1 + n100 * 100 + n4 * 4 + n1 - 1)
      with (n400 * 400 + 1 + n100 * 100 + n4 * 4 + 3) by lia.
    rewrite days_before_year_cycles by lia.
    unfold _days_before_month.
    rewrite leap_flag by lia.
    replace (n4 =? 24) with false by (symmetry; apply Z.eqb_neq; lia).
    change ((3 =? 3) && (negb false || (n100 =? 3))) with true.
    month_tables. lia.
  - (* the last day of a cycle of 400 years *)
    assert (n4 = 0 /\ n1 = 0 /\ n = 0) as (-> & -> & ->) by lia.
    subst n100.
    unfold toordinal, _ymd2ord. cbn [year month day].
    replace (n400 * 400 + 1 + 4 * 100 + 0 * 4 + 0 - 1)
      with (n400 * 400 + 1 + 3 * 100 + 24 * 4 + 3) by lia.
    rewrite days_before_year_cycles by lia.
    unfold _days_before_month.
    rewrite leap_flag by lia.
    change ((3 =? 3) && (negb (24 =? 24) || (3 =? 3))) with true.
    month_tables. lia.
  - pose proof (month_day_ordinal
                  (n400 * 400 + 1 + n100 * 100 + n4 * 4 + n1) n
                  ((n1 =? 3) && (negb (n4 =? 24) || (n100 =? 3)))
                  ltac:(lia) (leap_flag n400 n100 n4 n1 ltac:(lia)
                                ltac:(lia) ltac:(lia))) as H.
    cbv zeta in H. destruct H as [Hy Hd].
    unfold toordinal, _ymd2ord. rewrite Hy.
    rewrite days_before_year_cycles by lia. lia.
Qed.

Lemma before_total a b :
  a = b \/ before a b \/ before b a.
Proof.
  destruct a as [ya ma da], b as [yb mb db]. unfold before. simpl.
  destruct (Z.lt_trichotomy ya yb) as [H|[H|H]]; [tauto|subst|tauto].
  destruct (Z.lt_trichotomy ma mb) as [H'|[H'|H']]; [tauto|subst|tauto].
  destruct (Z.lt_trichotomy da db) as [H''|[H''|H'']]; [tauto|subst|tauto].
  now left.
Qed.

Lemma toordinal_inj a b :
  valid a = true -> valid b = true -> toordinal a = toordinal b -> a = b.
Proof.
  intros Ha Hb E.
  destruct (before_total a b) as [H|[H|H]]; [exact H| |].
  - pose proof (toordinal_lt a b Ha Hb H). lia.
  - pose proof (toordinal_lt b a Hb Ha H). lia.
Qed.

(** The order of the calendar is the order of the day numbers. *)
Lemma before_iff a b :
  valid a = true -> valid b = true ->
  (before a b <-> toordinal a < toordinal b).
Proof.
  intros Ha Hb. split; [now apply toordinal_lt|].
  intros Hlt. destruct (before_total a b) as [H|[H|H]]; [|exact H|].
  - subst. lia.
  - pose proof (toordinal_lt b a Hb Ha H). lia.
Qed.

Lemma toordinal_range d :
  valid d = true -> 1 <= toordinal d <= _MAXORDINAL.
Proof.
  intros Hd. split.
  - destruct (valid_bounds d Hd) as (Hy & Hm & Hday).
    unfold toordinal, _ymd2ord.
    pose proof (days_before_year_le 1 (year d) ltac:(lia)) as H1.
    change (_days_before_year 1) with 0 in H1.
    pose proof (days_before_month_bound (year d) (month d) Hm). lia.
  - change _MAXORDINAL with (toordinal (mkdate 9999 12 31)).
    apply before_or_not; [reflexivity | exact Hd |].
    destruct (valid_bounds d Hd) as (Hy & Hm & Hday).
    pose proof (days_in_month_le (year d) (month d)).
    unfold before. simpl. lia.
Qed.

(** [date.fromordinal(d.toordinal()) == d] *)
Lemma toordinal_ord2ymd d : valid d = true -> _ord2ymd (toordinal d) = d.
Proof.
  intros Hd. pose proof (toordinal_range d Hd) as Hr.
  apply toordinal_inj; [now apply ord2ymd_valid | exact Hd |].
  apply ord2ymd_toordinal. lia.
Qed.

(* ------------------------------------------------------------------ *)
(** * From creation to the due date *)
(* ------------------------------------------------------------------ *)

(** What a successful [create_invoice] leaves to be read. *)
Lemma create_invoice_reads_back now uuid4 client_name client_email items
    tax_rate due_days discount notes currency conn inv :
  items_owned conn ->
  outcome (create_invoice now uuid4 client_name client_email items tax_rate
             due_days discount notes currency conn) = Ok inv ->
  let conn' :=
    store (create_invoice now uuid4 client_name client_email items tax_rate
             due_days discount notes currency conn) in
  Sql.select_invoice conn' (Invoice.id inv)
  = Some (Sql.stored_invoice (invoice_row inv))
  /\ load conn' (Sql.stored_invoice (invoice_row inv)) = read_back inv
  /\ get_invoice (Invoice.id inv) conn' = Ok (read_back inv).
Proof.
  intros Howned Hok conn'.
  destruct (create_invoice_ok _ _ _ _ _ _ _ _ _ _ _ _ Hok)
    as (Hne & _ & _ & (due & _ & Hinv) & Hfresh & Hrows & Hli).
  fold conn' in Hrows, Hli.
  assert (Sql.select_line_items conn' (Invoice.id inv)
          = item_rows uuid4 (Invoice.id inv) O items) as Hitems
    by (now apply (select_line_items_created conn)).
  assert (Sql.select_invoice conn' (Invoice.id inv)
          = Some (Sql.stored_invoice (invoice_row inv))) as Hsel.
  { unfold Sql.select_invoice. rewrite Hrows.
    apply find_app_fresh; [|apply String.eqb_refl].
    intros r Hr. apply String.eqb_neq. intros Heq. apply Hfresh.
    rewrite <- Heq. now apply in_map. }
  assert (load conn' (Sql.stored_invoice (invoice_row inv)) = read_back inv)
    as Hload.
  { unfold load.
    replace (Row.id (Sql.stored_invoice (invoice_row inv)))
      with (Invoice.id inv) by reflexivity.
    rewrite Hitems, item_rows_items. subst inv. reflexivity. }
  split; [exact Hsel|]. split; [exact Hload|].
  rewrite (get_invoice_row _ _ _ Hsel). f_equal. exact Hload.
Qed.

Lemma add_days_ordinal d n due :
  add_days d n = Ok due ->
  valid due = true /\ toordinal due = toordinal d + n.
Proof.
  intros H. split; [now apply (add_days_valid d n)|].
  unfold add_days in H.
  destruct (Z.leb_spec 1 (toordinal d + n)) as [H1|H1];
    [|discriminate H].
  destruct (toordinal d + n <=? _MAXORDINAL); [|discriminate H].
  inversion H. now apply ord2ymd_toordinal.
Qed.

(** X14.  The due date of a created invoice is the day [due_days] days
    after the day of creation, and it reads back as that date; so the
    overdue fee of the invoice, whenever it is asked for before payment,
    is charged for the days since creation less [due_days], and for none
    when that is negative.  It is charged on the total of the invoice as
    it is read back, which is the invoice created when none of its
    quantities, prices and rates is a negative zero. *)
Theorem due_date_arithmetic now uuid4 client_name client_email items
    tax_rate due_days discount notes currency conn inv :
  reachable conn ->
  outcome (create_invoice now uuid4 client_name client_email items tax_rate
             due_days discount notes currency conn) = Ok inv ->
  let conn' :=
    store (create_invoice now uuid4 client_name client_email items tax_rate
             due_days discount notes currency conn) in
  exists due,
    valid due = true
    /\ Invoice.due_date inv = date_isoformat due
    /\ date_fromisoformat (Invoice.due_date inv) = Some due
    /\ days_between due (dt_date now) = due_days
    /\ (valid (dt_date now) = true -> due_days = 0 -> due = dt_date now)
    /\ (forall now' daily_rate,
          calculate_overdue_fee now' (Invoice.id inv) daily_rate conn'
          = Ok (py_round
                  (fmul (fmul (Invoice.total (read_back inv)) daily_rate)
                     (of_int
                        (Z.max 0
                           (days_between (dt_date now') (dt_date now)
                            - due_days)))) 2))
    /\ (no_negative_zero inv ->
        forall now' daily_rate,
          calculate_overdue_fee now' (Invoice.id inv) daily_rate conn'
          = Ok (py_round
                  (fmul (fmul (Invoice.total inv) daily_rate)
                     (of_int
                        (Z.max 0
                           (days_between (dt_date now') (dt_date now)
                            - due_days)))) 2)).
Proof.
  intros Hreach Hok conn'.
  destruct (reachable_well_formed _ Hreach) as (_ & Howned & _).
  destruct (create_invoice_reads_back _ _ _ _ _ _ _ _ _ _ _ _ Howned Hok)
    as (_ & _ & Hget). fold conn' in Hget.
  destruct (create_invoice_ok _ _ _ _ _ _ _ _ _ _ _ _ Hok)
    as (_ & _ & _ & (due & Hadd & Hinv) & _).
  destruct (add_days_ordinal _ _ _ Hadd) as [Hvalid Hord].
  assert (Invoice.due_date inv = date_isoformat due) as Hdue
    by (subst inv; reflexivity).
  assert (Invoice.status inv = "draft") as Hst by (subst inv; reflexivity).
  exists due. split; [exact Hvalid|]. split; [exact Hdue|].
  split; [rewrite Hdue; now apply fromisoformat_isoformat|].
  assert (forall now' daily_rate,
            calculate_overdue_fee now' (Invoice.id inv) daily_rate conn'
            = Ok (py_round
                    (fmul (fmul (Invoice.total (read_back inv)) daily_rate)
                       (of_int
                          (Z.max 0
                             (days_between (dt_date now') (dt_date now)
                              - due_days)))) 2)) as Hfee.
  { intros now' daily_rate. unfold calculate_overdue_fee.
    rewrite Hget. cbn [bind].
    replace (Invoice.status (read_back inv)) with "draft"
      by (symmetry; exact Hst).
    replace (Invoice.due_date (read_back inv)) with (date_isoformat due)
      by (symmetry; exact Hdue).
    change (String.eqb "draft" "paid") with false. cbv iota.
    rewrite (fromisoformat_isoformat due Hvalid).
    do 5 f_equal. unfold days_between. lia. }
  split; [unfold days_between; lia|]. split; [|split].
  - intros Hnow H0. apply toordinal_inj; [exact Hvalid | exact Hnow | lia].
  - exact Hfee.
  - intros (Hitems & Ht & Hd) now' daily_rate.
    rewrite <- (read_back_id inv Hitems Ht Hd) at 2. apply Hfee.
Qed.

(** The invoice of Acme Corp, created on 3 November 2026 with 30 days to
    pay, is due on 3 December. *)
Lemma due_date_arithmetic_witness :
  reachable empty_db
  /\ outcome (Demo.create Demo.uuid4 "Acme Corp" Demo.items empty_db)
     = Ok (load Demo.acme_db Demo.acme_row)
  /\ exists due,
       date_isoformat due = "2026-12-03"
       /\ days_between due (mkdate 2026 11 3) = 30.
Proof.
  assert (outcome (Demo.create Demo.uuid4 "Acme Corp" Demo.items empty_db)
          = Ok (load Demo.acme_db Demo.acme_row)) as Hok
    by (vm_compute; reflexivity).
  split; [exact reachable_init|]. split; [exact Hok|].
  destruct (due_date_arithmetic Demo.now Demo.uuid4 "Acme Corp"
              "billing@example.com" Demo.items (literal 1 1) 30
              (literal 5 2) EmptyString "USD" empty_db _ reachable_init Hok)
    as (due & _ & Hdue & _ & Hdays & _).
  exists due. split; [symmetry; exact Hdue | exact Hdays].
Defined.

(** X15.  From creation to overdue: an invoice that is created, then
    sent, is found by the sweep of a day exactly when that day is more
    than [due_days] days after the day of creation, and is in the list
    of a sweep that returns exactly then; before it is sent no sweep
    finds it.  The sweep returns what it has found when that is within
    the bound on host parameters, and raises OperationalError, the store
    unchanged, when it is not. *)
Theorem overdue_after_due_days now uuid4 client_name client_email items
    tax_rate due_days discount notes currency conn inv now' :
  reachable conn -> valid (dt_date now') = true ->
  outcome (create_invoice now uuid4 client_name client_email items tax_rate
             due_days discount notes currency conn) = Ok inv ->
  let conn1 :=
    store (create_invoice now uuid4 client_name client_email items tax_rate
             due_days discount notes currency conn) in
  let conn2 := store (send_invoice (Invoice.id inv) conn1) in
  let today := date_isoformat (dt_date now') in
  (~ In (Invoice.id inv) (overdue_ids today conn1))
  /\ (In (Invoice.id inv) (overdue_ids today conn2)
      <-> due_days < days_between (dt_date now') (dt_date now))
  /\ (forall limit ids,
        outcome (mark_overdue limit now' conn1) = Ok ids ->
        ~ In (Invoice.id inv) ids)
  /\ (forall limit ids,
        outcome (mark_overdue limit now' conn2) = Ok ids ->
        (In (Invoice.id inv) ids
         <-> due_days < days_between (dt_date now') (dt_date now)))
  /\ (forall limit,
        len (overdue_ids today conn2) <= limit ->
        outcome (mark_overdue limit now' conn2)
        = Ok (overdue_ids today conn2))
  /\ (forall limit,
        0 <= limit -> limit < len (overdue_ids today conn2) ->
        mark_overdue limit now' conn2
        = (Raise (OperationalError "too many SQL variables"), conn2)).
Proof.
  intros Hreach Hnow' Hok conn1 conn2 today.
  destruct (reachable_well_formed _ Hreach) as (_ & Howned & _).
  assert (reachable conn1) as Hreach1
    by (eapply reachable_step; [exact Hreach | apply step_create]).
  pose proof (proj1 (reachable_well_formed _ Hreach1)) as Hnd1.
  destruct (create_invoice_reads_back _ _ _ _ _ _ _ _ _ _ _ _ Howned Hok)
    as (Hsel1 & _ & _). fold conn1 in Hsel1.
  destruct (create_invoice_ok _ _ _ _ _ _ _ _ _ _ _ _ Hok)
    as (_ & _ & _ & (due & Hadd & Hinv) & _).
  destruct (add_days_ordinal _ _ _ Hadd) as [Hvalid Hord].
  assert (Row.due_date (Sql.stored_invoice (invoice_row inv))
          = date_isoformat due) as Hdue
    by (subst inv; reflexivity).
  assert (Row.status (Sql.stored_invoice (invoice_row inv)) = "draft")
    as Hst
    by (subst inv; reflexivity).
  (* the rows of the id, before and after sending *)
  assert (forall c r,
            unique_ids c -> Sql.select_invoice c (Invoice.id inv) = Some r ->
            (In (Invoice.id inv) (overdue_ids today c)
             <-> is_overdue today r = true)) as Hlisted.
  { intros c r Hndc Hselc. unfold overdue_ids.
    destruct (select_invoice_found _ _ _ Hselc) as [Hr Hid].
    split.
    - intros Hin. apply in_map_iff in Hin. destruct Hin as (r' & Hid' & Hr').
      apply filter_In in Hr'. destruct Hr' as [Hr' Ho].
      replace r with r'; [exact Ho|].
      apply (NoDup_map_inj Row.id (invoices c)); try assumption.
      congruence.
    - intros Ho. rewrite <- Hid. apply in_map, filter_In. now split. }
  assert (~ In (Invoice.id inv) (overdue_ids today conn1)) as Hnot.
  { rewrite (Hlisted conn1 _ Hnd1 Hsel1). unfold is_overdue. rewrite Hst.
    discriminate. }
  pose proof (transition_ok "Cannot send a paid invoice"
                (Row.set_status "sent") (Invoice.id inv) conn1 _
                (set_status_id _) Hsel1
                ltac:(rewrite Hst; discriminate)) as E.
  assert (conn2 = Sql.update_invoices (has_id (Invoice.id inv))
                    (Row.set_status "sent") conn1) as Hconn2
    by (unfold conn2; now rewrite send_invoice_transition, E).
  assert (Sql.select_invoice conn2 (Invoice.id inv)
          = Some (Row.set_status "sent"
                    (Sql.stored_invoice (invoice_row inv)))) as Hsel2
    by (rewrite Hconn2; apply select_updated;
        [apply set_status_id | exact Hsel1]).
  assert (unique_ids conn2) as Hnd2.
  { unfold unique_ids. rewrite Hconn2.
    rewrite update_ids by apply set_status_id. exact Hnd1. }
  assert (In (Invoice.id inv) (overdue_ids today conn2)
          <-> due_days < days_between (dt_date now') (dt_date now)) as Hiff.
  { rewrite (Hlisted conn2 _ Hnd2 Hsel2), is_overdue_iff.
    cbn [Row.set_status Row.status Row.due_date].
    cbn [Row.due_date] in Hdue. rewrite Hdue.
    unfold today. rewrite (date_isoformat_lt due (dt_date now') Hvalid Hnow').
    rewrite (before_iff due (dt_date now') Hvalid Hnow').
    unfold days_between. split; [intros [_ H]; lia | intros H; split;
                                 [reflexivity | lia]]. }
  split; [exact Hnot|]. split; [exact Hiff|].
  split; [|split; [|split]].
  - intros limit ids Hids.
    destruct (mark_overdue_returns _ _ _ _ Hids) as [-> _]. exact Hnot.
  - intros limit ids Hids.
    destruct (mark_overdue_returns _ _ _ _ Hids) as [-> _]. exact Hiff.
  - intros limit Hfit.
    now rewrite (mark_overdue_ok limit now' conn2 Hnd2 (or_intror Hfit)).
  - intros limit H0 Hlt. apply mark_overdue_refused; [exact Hlt|].
    intros Hnil. fold today in Hnil. rewrite Hnil in Hlt.
    unfold len in Hlt. simpl in Hlt. lia.
Qed.

(** The invoice of Acme Corp, due on 3 December 2026, is overdue on New
    Year's Day, 59 days after its creation. *)
Lemma overdue_after_due_days_witness :
  reachable empty_db /\ valid (dt_date Demo.later) = true
  /\ outcome (Demo.create Demo.uuid4 "Acme Corp" Demo.items empty_db)
     = Ok (load Demo.acme_db Demo.acme_row)
  /\ In "inv-0"
       (overdue_ids (date_isoformat (dt_date Demo.later)) Demo.sent_db).
Proof.
  assert (outcome (Demo.create Demo.uuid4 "Acme Corp" Demo.items empty_db)
          = Ok (load Demo.acme_db Demo.acme_row)) as Hok
    by (vm_compute; reflexivity).
  split; [exact reachable_init|]. split; [reflexivity|].
  split; [exact Hok|].
  apply (proj1 (proj2 (overdue_after_due_days Demo.now Demo.uuid4
                         "Acme Corp" "billing@example.com" Demo.items
                         (literal 1 1) 30 (literal 5 2) EmptyString "USD"
                         empty_db _ Demo.later reachable_init eq_refl
                         Hok))).
  vm_compute. reflexivity.
Defined.

(* ------------------------------------------------------------------ *)
(** * A new invoice in the listing and in the report *)
(* ------------------------------------------------------------------ *)

Lemma list_filter_status status r :
  list_filter status None r
  = if truthy status then String.eqb (Row.status r) (text_of status)
    else true.
Proof. unfold list_filter, client_filter. apply andb_true_r. Qed.

(** X16.  A created invoice shows at once: the listing of all invoices
    contains it as it is read back (the invoice itself when none of its
    quantities, prices and rates is a negative zero) and is one longer
    than the table was, the listing of the drafts contains it, and the
    report over all invoices counts one invoice and one draft more, the
    other counts as before. *)
Theorem created_invoice_listed now uuid4 client_name client_email items
    tax_rate due_days discount notes currency conn inv :
  reachable conn ->
  outcome (create_invoice now uuid4 client_name client_email items tax_rate
             due_days discount notes currency conn) = Ok inv ->
  let conn' :=
    store (create_invoice now uuid4 client_name client_email items tax_rate
             due_days discount notes currency conn) in
  let rep := summary_report None None conn in
  let rep' := summary_report None None conn' in
  (exists invs,
     list_invoices None None conn' = Ok invs
     /\ In (read_back inv) invs
     /\ (no_negative_zero inv -> In inv invs)
     /\ List.length invs = S (List.length (invoices conn)))
  /\ (exists drafts,
        list_invoices (Some "draft") None conn' = Ok drafts
        /\ In (read_back inv) drafts
        /\ (no_negative_zero inv -> In inv drafts))
  /\ Report.total_invoices rep' = Report.total_invoices rep + 1
  /\ Report.draft_count rep' = Report.draft_count rep + 1
  /\ Report.sent_count rep' = Report.sent_count rep
  /\ Report.paid_count rep' = Report.paid_count rep
  /\ Report.overdue_count rep' = Report.overdue_count rep.
Proof.
  intros Hreach Hok conn' rep rep'.
  destruct (reachable_well_formed _ Hreach) as (Hnd & Howned & _).
  assert (reachable conn') as Hreach'
    by (eapply reachable_step; [exact Hreach | apply step_create]).
  pose proof (proj1 (reachable_well_formed _ Hreach')) as Hnd'.
  destruct (create_invoice_reads_back _ _ _ _ _ _ _ _ _ _ _ _ Howned Hok)
    as (_ & Hload & _). fold conn' in Hload.
  destruct (create_invoice_ok _ _ _ _ _ _ _ _ _ _ _ _ Hok)
    as (_ & _ & _ & (due & _ & Hinv) & _ & Hrows & _).
  fold conn' in Hrows.
  assert (Row.status (Sql.stored_invoice (invoice_row inv)) = "draft")
    as Hst
    by (subst inv; reflexivity).
  assert (In (Sql.stored_invoice (invoice_row inv)) (invoices conn')) as Hin
    by (rewrite Hrows; apply in_or_app; right; now left).
  assert (no_negative_zero inv -> read_back inv = inv) as Hsame
    by (intros (Hitems & Ht & Hd); now apply read_back_id).
  split; [|split].
  - destruct (list_invoices_rows None None conn' Hnd' eq_refl)
      as (rows & Hlist & Hperm & _).
    rewrite filter_all in Hperm by reflexivity.
    assert (In (read_back inv) (map (load conn') rows)) as Hlisted.
    { rewrite <- Hload. apply in_map.
      now apply (Permutation_in _ (Permutation_sym Hperm)). }
    exists (map (load conn') rows). split; [exact Hlist|].
    split; [exact Hlisted|]. split.
    + intros Hz. now rewrite <- (Hsame Hz).
    + rewrite length_map, (Permutation_length Hperm), Hrows, length_app.
      simpl. lia.
  - destruct (list_invoices_rows (Some "draft") None conn' Hnd' eq_refl)
      as (rows & Hlist & Hperm & _).
    assert (In (read_back inv) (map (load conn') rows)) as Hlisted.
    { rewrite <- Hload. apply in_map.
      apply (Permutation_in _ (Permutation_sym Hperm)).
      apply filter_In. split; [exact Hin|].
      rewrite list_filter_status. cbn [truthy text_of].
      rewrite Hst. reflexivity. }
    exists (map (load conn') rows). split; [exact Hlist|].
    split; [exact Hlisted|].
    intros Hz. now rewrite <- (Hsame Hz).
  - destruct (report_counts None None conn Hnd) as (Ht & Hd & Hs & Hp & Ho).
    destruct (report_counts None None conn' Hnd')
      as (Ht' & Hd' & Hs' & Hp' & Ho').
    fold rep in Ht, Hd, Hs, Hp, Ho. fold rep' in Ht', Hd', Hs', Hp', Ho'.
    rewrite Ht, Hd, Hs, Hp, Ho, Ht', Hd', Hs', Hp', Ho'.
    change (report_rows None None conn') with (invoices conn').
    change (report_rows None None conn) with (invoices conn).
    assert (forall s,
              filter (has_status s) [Sql.stored_invoice (invoice_row inv)]
              = if String.eqb "draft" s
                then [Sql.stored_invoice (invoice_row inv)] else [])
      as Hf
      by (intros s; cbn [filter]; unfold has_status; rewrite Hst;
          reflexivity).
    rewrite Hrows, !filter_app, !Hf. unfold len.
    simpl (String.eqb _ _). cbv iota.
    rewrite !length_app. cbn [List.length].
    repeat split; lia.
Qed.

(** The invoice of Acme Corp is in the listing of its store. *)
Lemma created_invoice_listed_witness :
  reachable empty_db
  /\ outcome (Demo.create Demo.uuid4 "Acme Corp" Demo.items empty_db)
     = Ok (load Demo.acme_db Demo.acme_row)
  /\ exists invs,
       list_invoices None None Demo.acme_db = Ok invs
       /\ In (load Demo.acme_db Demo.acme_row) invs.
Proof.
  assert (outcome (Demo.create Demo.uuid4 "Acme Corp" Demo.items empty_db)
          = Ok (load Demo.acme_db Demo.acme_row)) as Hok
    by (vm_compute; reflexivity).
  split; [exact reachable_init|]. split; [exact Hok|].
  destruct (created_invoice_listed Demo.now Demo.uuid4 "Acme Corp"
              "billing@example.com" Demo.items (literal 1 1) 30
              (literal 5 2) EmptyString "USD" empty_db _ reachable_init Hok)
    as ((invs & Hlist & _ & Hin & _) & _).
  exists invs. split; [exact Hlist|]. apply Hin.
  split; [|split; vm_compute; discriminate].
  intros li Hli. vm_compute in Hli.
  destruct Hli as [<-|[<-|[]]]; split; discriminate.
Defined.

(* ------------------------------------------------------------------ *)
(** * Timestamps as texts *)
(* ------------------------------------------------------------------ *)

Lemma compare_cons_same c x y :
  String.compare (String c x) (String c y) = String.compare x y.
Proof. cbn [String.compare]. now rewrite ascii_compare_refl. Qed.

Lemma date_isoformat_length d :
  valid d = true -> String.length (date_isoformat d) = 10%nat.
Proof.
  intros Hd. rewrite (date_isoformat_fixed d Hd).
  rewrite !append_length, !fixed_length. reflexivity.
Qed.

Lemma valid_time_bounds t :
  valid_time t = true ->
  valid (dt_date t) = true
  /\ 0 <= hour t < 24 /\ 0 <= minute t < 60 /\ 0 <= second t < 60
  /\ 0 <= microsecond t < 1000000.
Proof.
  unfold valid_time. rewrite !andb_true_iff, !Z.leb_le, !Z.ltb_lt. tauto.
Qed.

(** The fraction of a second, as [isoformat] writes it. *)
Lemma compare_fraction a b :
  0 <= a < 1000000 -> 0 <= b < 1000000 ->
  String.compare
    (if a =? 0 then EmptyString else "." ++ Text.format_d 6 a)
    (if b =? 0 then EmptyString else "." ++ Text.format_d 6 b)
  = (a ?= b).
Proof.
  intros Ha Hb.
  rewrite !(format_d_fixed 5) by (simpl; lia).
  destruct (Z.eqb_spec a 0) as [->|Ha0], (Z.eqb_spec b 0) as [->|Hb0].
  - reflexivity.
  - change ("." ++ ?x)%string with (String "." x). cbn [String.compare].
    symmetry. apply Z.compare_lt_iff. lia.
  - change ("." ++ ?x)%string with (String "." x). cbn [String.compare].
    symmetry. apply Z.compare_gt_iff. lia.
  - change ("." ++ ?x)%string with (String "." x).
    rewrite compare_cons_same. apply (compare_fixed 6); simpl; lia.
Qed.

(** The texts [isoformat] writes compare as the clock readings do. *)
Lemma isoformat_compare a b :
  valid_time a = true -> valid_time b = true ->
  String.compare (isoformat a) (isoformat b) = datetime_cmp a b.
Proof.
  intros Ha Hb.
  destruct (valid_time_bounds a Ha) as (Hda & Hha & Hma & Hsa & Hua).
  destruct (valid_time_bounds b Hb) as (Hdb & Hhb & Hmb & Hsb & Hub).
  unfold isoformat, datetime_cmp.
  rewrite compare_app by now rewrite !date_isoformat_length.
  rewrite date_isoformat_compare by assumption.
  unfold lexicographic.
  destruct (year (dt_date a) ?= year (dt_date b)); try reflexivity.
  destruct (month (dt_date a) ?= month (dt_date b)); try reflexivity.
  destruct (day (dt_date a) ?= day (dt_date b)); try reflexivity.
  change ("T" ++ ?x)%string with (String "T" x). rewrite compare_cons_same.
  rewrite !format_d_2 by lia.
  rewrite compare_app by now rewrite !fixed_length.
  rewrite (compare_fixed 2) by (simpl; lia).
  destruct (hour a ?= hour b); try reflexivity.
  change (":" ++ ?x)%string with (String ":" x). rewrite compare_cons_same.
  rewrite compare_app by now rewrite !fixed_length.
  rewrite (compare_fixed 2) by (simpl; lia).
  destruct (minute a ?= minute b); try reflexivity.
  change (":" ++ ?x)%string with (String ":" x). rewrite compare_cons_same.
  rewrite compare_app by now rewrite !fixed_length.
  rewrite (compare_fixed 2) by (simpl; lia).
  destruct (second a ?= second b); try reflexivity.
  now apply compare_fraction.
Qed.

Lemma string_compare_refl s : String.compare s s = Eq.
Proof.
  induction s as [|c s IH]; [reflexivity|].
  now rewrite compare_cons_same.
Qed.

Lemma isoformat_truthy t : truthy (Some (isoformat t)) = true.
Proof.
  destruct (isoformat_date t) as [rest ->].
  unfold truthy. now destruct (date_isoformat (dt_date t)).
Qed.

(** X17.  The texts of [created_at] order as the clock readings they
    were written from: text order, which is what ORDER BY and BETWEEN
    use, is the order of time, and two readings give the same text only
    when they are the same.  So [list_invoices] puts the invoice created
    later first, and a report between the texts of two readings selects
    the invoices created from the one to the other. *)
Theorem created_at_chronological a b :
  valid_time a = true -> valid_time b = true ->
  (Text.le (isoformat a) (isoformat b) = true <-> datetime_cmp a b <> Gt)
  /\ (Text.lt (isoformat a) (isoformat b) = true <-> datetime_cmp a b = Lt)
  /\ (isoformat a = isoformat b <-> datetime_cmp a b = Eq)
  /\ (forall ra rb,
        Row.created_at ra = isoformat a -> Row.created_at rb = isoformat b ->
        (created_desc ra rb = true <-> datetime_cmp b a <> Gt))
  /\ (forall t r conn,
        valid_time t = true -> Row.created_at r = isoformat t ->
        (In r (report_rows (Some (isoformat a)) (Some (isoformat b)) conn)
         <-> In r (invoices conn)
             /\ datetime_cmp a t <> Gt /\ datetime_cmp t b <> Gt)).
Proof.
  intros Ha Hb.
  assert (forall x y,
            valid_time x = true -> valid_time y = true ->
            (Text.le (isoformat x) (isoformat y) = true
             <-> datetime_cmp x y <> Gt)) as Hle.
  { intros x y Hx Hy. unfold Text.le, String.leb.
    rewrite (isoformat_compare x y Hx Hy).
    destruct (datetime_cmp x y); split; congruence. }
  split; [now apply Hle|]. split; [|split; [|split]].
  - unfold Text.lt, String.ltb. rewrite (isoformat_compare a b Ha Hb).
    destruct (datetime_cmp a b); split; congruence.
  - rewrite <- (isoformat_compare a b Ha Hb).
    split; [intros ->; apply string_compare_refl
           | apply String.compare_eq_iff].
  - intros ra rb Era Erb. unfold created_desc. rewrite Era, Erb.
    now apply Hle.
  - intros t r conn Ht Er. unfold report_rows.
    rewrite !isoformat_truthy. cbn [andb text_of].
    rewrite filter_In, andb_true_iff, Er.
    rewrite (Hle a t Ha Ht), (Hle t b Ht Hb). tauto.
Qed.

(** 3 November 2026, 10:00, is before New Year's Day 2027. *)
Lemma created_at_chronological_witness :
  valid_time Demo.now = true /\ valid_time Demo.later = true
  /\ Text.lt (isoformat Demo.now) (isoformat Demo.later) = true.
Proof.
  split; [reflexivity|]. split; [reflexivity|].
  apply (proj1 (proj2 (created_at_chronological Demo.now Demo.later
                         eq_refl eq_refl))).
  reflexivity.
Defined.

(* ------------------------------------------------------------------ *)
(** * What is stored for an invoice *)
(* ------------------------------------------------------------------ *)

(** A call rewrites rows in place, or it is a creation that succeeds. *)
Lemma step_cases conn conn' :
  unique_ids conn -> step conn conn' ->
  (exists f,
     conn' = mkdb (map f (invoices conn)) (line_items conn)
     /\ forall r, In r (invoices conn) -> frozen (f r) = frozen r)
  \/ (exists now uuid4 client_name client_email items tax_rate due_days
             discount notes currency inv,
        outcome (create_invoice now uuid4 client_name client_email items
                   tax_rate due_days discount notes currency conn) = Ok inv
        /\ conn'
           = store (create_invoice now uuid4 client_name client_email items
                      tax_rate due_days discount notes currency conn)).
Proof.
  intros Hnd Hstep.
  assert (exists f,
            conn = mkdb (map f (invoices conn)) (line_items conn)
            /\ forall r, In r (invoices conn) -> frozen (f r) = frozen r)
    as Hsame
    by (exists (fun r => r); rewrite map_id, db_eta; auto).
  assert (forall msg set invoice_id,
            (forall r, frozen (set r) = frozen r) ->
            exists f,
              store (transition msg set invoice_id conn)
              = mkdb (map f (invoices conn)) (line_items conn)
              /\ forall r, In r (invoices conn) -> frozen (f r) = frozen r)
    as Htrans.
  { intros msg set invoice_id Hset.
    destruct (transition_store msg set invoice_id conn Hnd)
      as [->|(row & Hin & Hrid & Hst & ->)]; [exact Hsame|].
    eexists. split; [reflexivity|]. intros r Hr. cbv beta.
    destruct (String.eqb_spec (Row.id r) invoice_id); [|reflexivity].
    replace r with row; [apply Hset|].
    apply (NoDup_map_inj Row.id (invoices conn));
      [exact Hnd | exact Hin | exact Hr | congruence]. }
  destruct Hstep.
  - match goal with
    | |- context [store ?c] => destruct (outcome c) as [inv|e] eqn:Hout
    end.
    + right. repeat eexists. exact Hout.
    + left. rewrite (create_invoice_raise _ _ _ _ _ _ _ _ _ _ _ _ Hout).
      exact Hsame.
  - left. rewrite send_invoice_transition. now apply Htrans.
  - left. rewrite mark_paid_transition. now apply Htrans.
  - left. destruct (mark_overdue_cases limit now conn Hnd) as [-> | ->];
      [|exact Hsame].
    eexists. split; [reflexivity|]. intros r _. apply frozen_sweep.
Qed.

Lemma in_unit_range_real x : in_unit_range (Sql.real x) = in_unit_range x.
Proof. destruct x as [[|]| | |]; reflexivity. Qed.

Lemma is_nan_real x : is_nan (Sql.real x) = is_nan x.
Proof. destruct x as [[|]| | |]; reflexivity. Qed.

Lemma frozen_rates r r' :
  frozen r = frozen r' ->
  Row.id r = Row.id r' /\ Row.tax_rate r = Row.tax_rate r'
  /\ Row.discount r = Row.discount r'.
Proof. intros H. now inversion H. Qed.

Lemma item_rows_length uuid4 invoice_id items : forall i,
  List.length (item_rows uuid4 invoice_id i items) = List.length items.
Proof.
  induction items as [|li rest IH]; intros i; simpl; [reflexivity|].
  now rewrite IH.
Qed.

Lemma item_rows_values uuid4 invoice_id items : forall i l,
  In l (item_rows uuid4 invoice_id i items) ->
  exists li, In li items /\ ItemRow.qty l = Sql.real (LineItem.qty li)
             /\ ItemRow.unit_price l = Sql.real (LineItem.unit_price li).
Proof.
  induction items as [|li rest IH]; intros i l; simpl; [intros []|].
  intros [<-|Hl].
  - exists li. auto.
  - destruct (IH _ _ Hl) as (li' & Hli' & Hq & Hp). exists li'. auto.
Qed.

Lemma invoice_ok_step conn conn' :
  well_formed conn -> step conn conn' ->
  (forall r, In r (invoices conn) -> invoice_ok conn r) ->
  forall r', In r' (invoices conn') -> invoice_ok conn' r'.
Proof.
  intros Hwf Hstep Hok r' Hr'.
  destruct Hwf as (Hnd & Howned & _).
  destruct (step_cases conn conn' Hnd Hstep)
    as [(f & -> & Hf)
       |(now & uuid4 & cn & ce & items & tax & dd & disc & notes & cur & inv
         & Hout & ->)].
  - simpl in Hr'. apply in_map_iff in Hr'. destruct Hr' as (r & <- & Hr).
    destruct (frozen_rates _ _ (Hf r Hr)) as (Eid & Etax & Edisc).
    unfold invoice_ok, Sql.select_line_items. cbn [line_items].
    rewrite Eid, Etax, Edisc. exact (Hok r Hr).
  - destruct (create_invoice_ok _ _ _ _ _ _ _ _ _ _ _ _ Hout)
      as (Hne & Htax & Hdisc & (due & _ & Hinv) & Hfresh & Hrows & Hli).
    rewrite Hrows in Hr'. apply in_app_or in Hr'.
    destruct Hr' as [Hr|[<-|[]]].
    + (* an invoice that was there *)
      assert (Sql.select_line_items
                (store (create_invoice now uuid4 cn ce items tax dd disc
                          notes cur conn)) (Row.id r')
              = Sql.select_line_items conn (Row.id r')) as E.
      { unfold Sql.select_line_items. rewrite Hli, filter_app.
        rewrite (filter_none _ (item_rows _ _ _ _)); [now rewrite app_nil_r|].
        intros l Hl. apply item_rows_invoice_id in Hl. rewrite Hl.
        apply String.eqb_neq. intros Heq. apply Hfresh.
        rewrite Heq. now apply in_map. }
      unfold invoice_ok. rewrite E. exact (Hok r' Hr).
    + (* the new one *)
      assert (Sql.select_line_items
                (store (create_invoice now uuid4 cn ce items tax dd disc
                          notes cur conn)) (Invoice.id inv)
              = item_rows uuid4 (Invoice.id inv) O items) as E
        by (now apply (select_line_items_created conn)).
      destruct (proj1 (create_invoice_outcome now uuid4 cn ce items tax dd
                         disc notes cur conn) (ex_intro _ inv Hout))
        as (_ & _ & _ & _ & _ & _ & _ & _ & Hnan).
      unfold invoice_ok.
      replace (Row.id (Sql.stored_invoice (invoice_row inv)))
        with (Invoice.id inv) by reflexivity.
      rewrite E.
      cbn [Sql.stored_invoice Row.tax_rate Row.discount].
      rewrite !in_unit_range_real.
      split; [subst inv; exact Htax|]. split; [subst inv; exact Hdisc|].
      split; [|split].
      * destruct items; [now elim Hne | discriminate].
      * now rewrite item_rows_positions, item_rows_length.
      * intros l Hl. destruct (item_rows_values _ _ _ _ _ Hl)
          as (li & Hli' & -> & ->).
        rewrite !is_nan_real. now apply Hnan.
Qed.

Lemma reachable_invoice_ok conn :
  reachable conn -> forall r, In r (invoices conn) -> invoice_ok conn r.
Proof.
  induction 1 as [|conn conn' Hreach IH Hstep]; [intros ? []|].
  apply (invoice_ok_step conn); [|exact Hstep | exact IH].
  now apply reachable_well_formed.
Qed.

(** X18.  What the checks of [create_invoice] and of the tables
    establish stays true of every invoice the store ever holds: read by
    [get_invoice] it has both rates in [0, 1], at least one line item,
    the items at positions 0, 1, 2, ... and no NaN among their quantities
    and prices. *)
Theorem stored_invoice_invariant conn invoice_id inv :
  reachable conn -> get_invoice invoice_id conn = Ok inv ->
  in_unit_range (Invoice.tax_rate inv) = true
  /\ in_unit_range (Invoice.discount inv) = true
  /\ Invoice.line_items inv <> []
  /\ map ItemRow.position (Sql.select_line_items conn invoice_id)
     = map Z.of_nat (seq O (List.length (Invoice.line_items inv)))
  /\ (forall li, In li (Invoice.line_items inv) ->
        is_nan (LineItem.qty li) = false
        /\ is_nan (LineItem.unit_price li) = false).
Proof.
  intros Hreach Hget.
  destruct (get_invoice_inv _ _ _ Hget) as (row & Hin & Hid & ->).
  destruct (reachable_invoice_ok conn Hreach row Hin)
    as (Htax & Hdisc & Hne & Hpos & Hnan).
  rewrite Hid in Hne, Hpos, Hnan.
  cbn [_row_to_invoice Invoice.tax_rate Invoice.discount
       Invoice.line_items].
  split; [exact Htax|]. split; [exact Hdisc|]. split; [|split].
  - destruct (Sql.select_line_items conn invoice_id);
      [now elim Hne | discriminate].
  - now rewrite length_map.
  - intros li Hli. apply in_map_iff in Hli. destruct Hli as (l & <- & Hl).
    now apply Hnan.
Qed.

(** The paid invoice of the sample store has its two items. *)
Lemma stored_invoice_invariant_witness :
  reachable Demo.two_db
  /\ exists inv,
       get_invoice "inv-0" Demo.two_db = Ok inv
       /\ Invoice.line_items inv <> [].
Proof.
  split; [exact demo_two_reachable|].
  assert (get_invoice "inv-0" Demo.two_db
          = Ok (load Demo.two_db Demo.paid_row)) as Hget
    by (vm_compute; reflexivity).
  exists (load Demo.two_db Demo.paid_row). split; [exact Hget|].
  exact (proj1 (proj2 (proj2 (stored_invoice_invariant Demo.two_db "inv-0" _
                                demo_two_reachable Hget)))).
Defined.

(* ------------------------------------------------------------------ *)
(** * How [create_invoice] fails, and two invoices in a row *)
(* ------------------------------------------------------------------ *)

(** The exception of a failed [create_invoice] tells the step that
    failed. *)
Lemma create_invoice_raise_kind now uuid4 client_name client_email items
    tax_rate due_days discount notes currency conn e :
  outcome (create_invoice now uuid4 client_name client_email items tax_rate
             due_days discount notes currency conn) = Raise e ->
  (exists msg, e = ValueError msg)
  \/ (items <> [] /\ in_unit_range tax_rate = true
      /\ in_unit_range discount = true
      /\ ((e = OverflowError
           /\ ~ 1 <= toordinal (dt_date now) + due_days <= _MAXORDINAL)
          \/ (e = IntegrityError
              /\ 1 <= toordinal (dt_date now) + due_days <= _MAXORDINAL))).
Proof.
  unfold create_invoice, outcome, raise.
  destruct items as [|li rest];
    [cbn [fst]; intros H; inversion H; eauto|].
  set (items := li :: rest).
  destruct (in_unit_range tax_rate) eqn:Htax; cbn [negb fst];
    [|intros H; inversion H; eauto].
  destruct (in_unit_range discount) eqn:Hdisc; cbn [negb fst];
    [|intros H; inversion H; eauto].
  pose proof (add_days_iff (dt_date now) due_days) as Hdate.
  destruct (add_days (dt_date now) due_days) as [due|e'] eqn:Hadd;
    cbn [fst].
  - unfold with_conn. cbv beta zeta.
    match goal with
    | |- context [Sql.insert_invoice conn ?r] =>
        destruct (Sql.insert_invoice conn r) as [conn1|e1] eqn:H1
    end; cbn [bind].
    + match goal with
      | |- context [insert_items ?u ?i ?k ?l conn1] =>
          destruct (insert_items u i k l conn1) as [conn2|e2] eqn:H2
      end; cbn [bind fst]; [discriminate|].
      intros H. inversion H; subst e2.
      apply insert_items_raise in H2. subst e.
      right. repeat (split; [first [discriminate | reflexivity]|]).
      right. split; [reflexivity|]. apply Hdate. eauto.
    + cbn [fst]. intros H. inversion H; subst e1.
      apply insert_invoice_raise in H1. subst e.
      right. repeat (split; [first [discriminate | reflexivity]|]).
      right. split; [reflexivity|]. apply Hdate. eauto.
  - intros H. inversion H; subst e'.
    apply add_days_raise in Hadd. subst e.
    right. repeat (split; [first [discriminate | reflexivity]|]).
    left. split; [reflexivity|].
    intros Hr. apply Hdate in Hr. destruct Hr as [? Hr]. discriminate Hr.
Qed.

(** X19.  The exception of [create_invoice] names the check that failed.
    Past the validation of the arguments (whose failure is the
    [ValueError]) it is [OverflowError] exactly when the due date is
    outside the calendar, and [IntegrityError] exactly when the date is
    fine and an insert is refused: an identifier drawn is already used,
    twice drawn, or a quantity or price is a NaN; in a store built by the
    operations the invoice number is never the reason.  It is never a
    [KeyError]. *)
Theorem create_invoice_errors now uuid4 client_name client_email items
    tax_rate due_days discount notes currency conn :
  let r :=
    outcome (create_invoice now uuid4 client_name client_email items
               tax_rate due_days discount notes currency conn) in
  let valid_arguments :=
    items <> [] /\ in_unit_range tax_rate = true
    /\ in_unit_range discount = true in
  let in_calendar :=
    1 <= toordinal (dt_date now) + due_days <= _MAXORDINAL in
  (r = Raise OverflowError <-> valid_arguments /\ ~ in_calendar)
  /\ (r = Raise IntegrityError
      <-> valid_arguments /\ in_calendar
          /\ (In (uuid4 O) (map Row.id (invoices conn))
              \/ In (_invoice_number now conn)
                   (map Row.number (invoices conn))
              \/ ~ items_insertable uuid4 items conn))
  /\ (reachable conn -> r = Raise IntegrityError ->
      In (uuid4 O) (map Row.id (invoices conn))
      \/ ~ items_insertable uuid4 items conn)
  /\ (forall msg, r <> Raise (KeyError msg)).
Proof.
  intros r valid_arguments in_calendar.
  pose proof (create_invoice_outcome now uuid4 client_name client_email
                items tax_rate due_days discount notes currency conn)
    as Hok.
  pose proof (create_invoice_value_error now uuid4 client_name client_email
                items tax_rate due_days discount notes currency conn)
    as Hvalue.
  fold r in Hok, Hvalue.
  assert (forall e, r = Raise e ->
            (exists msg, e = ValueError msg)
            \/ (valid_arguments
                /\ ((e = OverflowError /\ ~ in_calendar)
                    \/ (e = IntegrityError /\ in_calendar)))) as Hkind
    by (intros e He;
        destruct (create_invoice_raise_kind _ _ _ _ _ _ _ _ _ _ _ _ He)
          as [H|(A & B & C & D)];
        [left; exact H
        | right; split; [split; [exact A | split; [exact B | exact C]]
                        | exact D]]).
  assert (valid_arguments -> forall msg, r <> Raise (ValueError msg))
    as Hnovalue.
  { intros (Hne & Htax & Hdisc) msg Hr.
    destruct (proj1 Hvalue (ex_intro _ msg Hr)) as [H|[H|H]];
      [contradiction | congruence | congruence]. }
  assert (r = Raise IntegrityError
          <-> valid_arguments /\ in_calendar
              /\ (In (uuid4 O) (map Row.id (invoices conn))
                  \/ In (_invoice_number now conn)
                       (map Row.number (invoices conn))
                  \/ ~ items_insertable uuid4 items conn)) as Hintegrity.
  { split.
    - intros Hr.
      destruct (Hkind _ Hr)
        as [[msg H]|(Hv & [[H _]|[_ Hc]])]; try discriminate H.
      split; [exact Hv|]. split; [exact Hc|].
      destruct (in_dec string_dec (uuid4 O) (map Row.id (invoices conn)))
        as [Hid|Hid]; [now left|].
      destruct (in_dec string_dec (_invoice_number now conn)
                  (map Row.number (invoices conn))) as [Hn|Hn];
        [right; now left|].
      right; right. intros Hins.
      destruct (proj2 Hok) as [inv Hinv]; [|congruence].
      destruct Hv as (Hne & Htax & Hdisc). tauto.
    - intros (Hv & Hc & Hrefused).
      destruct r as [inv|e] eqn:Hr.
      + exfalso.
        destruct (proj1 Hok (ex_intro _ inv eq_refl))
          as (_ & _ & _ & _ & Hid & Hn & Hins). tauto.
      + destruct (Hkind e eq_refl)
          as [[msg ->]|(_ & [[-> Hnc]|[-> _]])];
          [now elim (Hnovalue Hv msg) | contradiction | reflexivity]. }
  split; [|split; [exact Hintegrity|split]].
  - split.
    + intros Hr.
      destruct (Hkind _ Hr)
        as [[msg H]|(Hv & [[_ Hc]|[H _]])]; try discriminate H.
      now split.
    + intros (Hv & Hnc).
      destruct r as [inv|e] eqn:Hr.
      * exfalso.
        destruct (proj1 Hok (ex_intro _ inv eq_refl))
          as (_ & _ & _ & Hc & _). contradiction.
      * destruct (Hkind e eq_refl)
          as [[msg ->]|(_ & [[-> _]|[-> Hc]])];
          [now elim (Hnovalue Hv msg) | reflexivity | contradiction].
  - intros Hreach Hr.
    destruct (proj1 Hintegrity Hr) as (_ & _ & [H|[H|H]]);
      [now left | | now right].
    exfalso. revert H.
    apply (sequential_fresh now conn (reachable_sequential conn Hreach)).
  - intros msg Hr.
    destruct (Hkind _ Hr) as [[msg' H]|(_ & [[H _]|[H _]])];
      discriminate H.
Qed.

(** A second invoice under the identifier of the first is refused. *)
Lemma create_invoice_errors_witness :
  outcome (Demo.create Demo.uuid4 "Globex" Demo.items Demo.acme_db)
  = Raise IntegrityError
  /\ In (Demo.uuid4 O) (map Row.id (invoices Demo.acme_db)).
Proof.
  assert (outcome (Demo.create Demo.uuid4 "Globex" Demo.items Demo.acme_db)
          = Raise IntegrityError) as Hr by (vm_compute; reflexivity).
  split; [exact Hr|].
  assert (reachable Demo.acme_db) as Hreach
    by (eapply reachable_step; [apply reachable_init | apply step_create]).
  destruct (create_invoice_errors Demo.now Demo.uuid4 "Globex"
              "billing@example.com" Demo.items (literal 1 1) 30
              (literal 5 2) EmptyString "USD" Demo.acme_db)
    as (_ & _ & Hwhy & _).
  destruct (Hwhy Hreach Hr) as [H|H]; [exact H|].
  vm_compute. now left.
Defined.

Lemma of_year_create now conn conn' t :
  map Row.number (invoices conn')
  = map Row.number (invoices conn) ++ [_invoice_number now conn] ->
  Number.all_digits t = true ->
  Number.of_year t conn'
  = Number.of_year t conn
    ++ (if String.eqb t (Text.decimal (year (dt_date now)))
        then [_invoice_number now conn] else []).
Proof.
  intros E Ht. unfold Number.of_year. rewrite E, filter_app.
  cbn [filter]. rewrite invoice_number_make.
  rewrite (like_pattern_make t _ _ Ht (all_digits_decimal _)).
  now destruct (String.eqb t (Text.decimal (year (dt_date now)))).
Qed.

Lemma steps_numbers conn conn' :
  unique_ids conn -> steps conn conn' ->
  exists added,
    map Row.number (invoices conn')
    = map Row.number (invoices conn) ++ added.
Proof.
  intros Hnd. induction 1 as [|conn conn1 conn2 Hsteps IH Hstep].
  - exists []. now rewrite app_nil_r.
  - destruct (IH Hnd) as [added E].
    pose proof (steps_unique_ids _ _ Hnd Hsteps) as Hnd1.
    destruct (step_numbers conn1 conn2 Hnd1 Hstep) as [E'|[now E']];
      rewrite E', E.
    + now exists added.
    + exists (added ++ [_invoice_number now conn1]).
      now rewrite app_assoc.
Qed.

(** Calls that leave the number of invoices as it was have created
    none. *)
Lemma steps_same_numbers conn conn' :
  unique_ids conn -> steps conn conn' ->
  List.length (invoices conn') = List.length (invoices conn) ->
  map Row.number (invoices conn') = map Row.number (invoices conn).
Proof.
  intros Hnd Hsteps Hlen.
  destruct (steps_numbers conn conn' Hnd Hsteps) as [added E].
  assert (List.length (map Row.number (invoices conn'))
          = List.length (map Row.number (invoices conn) ++ added)) as H
    by now rewrite E.
  rewrite length_app, !length_map, Hlen in H.
  destruct added; [now rewrite app_nil_r in E | simpl in H; lia].
Qed.

(** X20.  Two invoices created one after the other in the same year, in
    a store built by the operations, have consecutive numbers: the
    second is INV-<year>-<k+1> when the first is INV-<year>-<k>, whatever
    calls came in between as long as they added no invoice; and the first
    invoice of a year without invoices is INV-<year>-00001. *)
Theorem consecutive_numbers now1 uuid1 name1 email1 items1 tax1 days1 disc1
    notes1 cur1 now2 uuid2 name2 email2 items2 tax2 days2 disc2 notes2 cur2
    conn inv1 conn2 inv2 :
  reachable conn ->
  outcome (create_invoice now1 uuid1 name1 email1 items1 tax1 days1 disc1
             notes1 cur1 conn) = Ok inv1 ->
  let conn1 :=
    store (create_invoice now1 uuid1 name1 email1 items1 tax1 days1 disc1
             notes1 cur1 conn) in
  steps conn1 conn2 ->
  List.length (invoices conn2) = List.length (invoices conn1) ->
  outcome (create_invoice now2 uuid2 name2 email2 items2 tax2 days2 disc2
             notes2 cur2 conn2) = Ok inv2 ->
  year (dt_date now2) = year (dt_date now1) ->
  let t := Text.decimal (year (dt_date now1)) in
  exists k,
    1 <= k
    /\ Invoice.number inv1 = Number.make t k
    /\ Invoice.number inv2 = Number.make t (k + 1)
    /\ (Number.of_year t conn = [] ->
        k = 1 /\ Invoice.number inv1 = ("INV-" ++ t ++ "-00001")%string).
Proof.
  intros Hreach Hok1 conn1 Hsteps Hlen Hok2 Hyear t.
  assert (reachable conn1) as Hreach1
    by (eapply reachable_step; [exact Hreach | apply step_create]).
  pose proof (steps_same_numbers conn1 conn2
                (proj1 (reachable_well_formed _ Hreach1)) Hsteps Hlen)
    as Hsame.
  destruct (create_invoice_ok _ _ _ _ _ _ _ _ _ _ _ _ Hok1)
    as (_ & _ & _ & (due1 & _ & Hinv1) & _ & Hrows1 & _).
  destruct (create_invoice_ok _ _ _ _ _ _ _ _ _ _ _ _ Hok2)
    as (_ & _ & _ & (due2 & _ & Hinv2) & _).
  fold conn1 in Hrows1.
  pose proof (all_digits_decimal (year (dt_date now1))) as Ht. fold t in Ht.
  assert (Invoice.number inv1 = _invoice_number now1 conn) as E1
    by (subst inv1; reflexivity).
  assert (Invoice.number inv2 = _invoice_number now2 conn2) as E2
    by (subst inv2; reflexivity).
  assert (map Row.number (invoices conn1)
          = map Row.number (invoices conn) ++ [_invoice_number now1 conn])
    as Hnum1 by (rewrite Hrows1, map_app; subst inv1; reflexivity).
  assert (Number.of_year t conn2
          = Number.of_year t conn ++ [_invoice_number now1 conn]) as Hof.
  { unfold Number.of_year at 1. rewrite Hsame.
    fold (Number.of_year t conn1).
    rewrite (of_year_create now1 conn conn1 t Hnum1 Ht).
    unfold t. now rewrite String.eqb_refl. }
  exists (Z.of_nat (List.length (Number.of_year t conn)) + 1).
  split; [lia|]. split; [|split].
  - rewrite E1. apply invoice_number_make.
  - rewrite E2, invoice_number_make, Hyear. fold t.
    rewrite Hof, length_app. cbn [List.length]. do 2 f_equal. lia.
  - intros Hnone. rewrite Hnone. split; [reflexivity|].
    rewrite E1, invoice_number_make. fold t. rewrite Hnone. reflexivity.
Qed.

(** The first two invoices of the sample store. *)
Lemma consecutive_numbers_witness :
  reachable empty_db
  /\ exists inv1 inv2,
       outcome (Demo.create Demo.uuid4 "Acme Corp" Demo.items empty_db)
       = Ok inv1
       /\ outcome (Demo.create Demo.uuid4' "Globex" Demo.items Demo.acme_db)
          = Ok inv2
       /\ Invoice.number inv1 = "INV-2026-00001"
       /\ Invoice.number inv2 = Number.make "2026" 2.
Proof.
  split; [exact reachable_init|].
  assert (outcome (Demo.create Demo.uuid4 "Acme Corp" Demo.items empty_db)
          = Ok (load Demo.acme_db Demo.acme_row)) as H1
    by (vm_compute; reflexivity).
  destruct (outcome (Demo.create Demo.uuid4' "Globex" Demo.items
                       Demo.acme_db)) as [inv2|e] eqn:H2;
    [|vm_compute in H2; discriminate H2].
  exists (load Demo.acme_db Demo.acme_row), inv2.
  split; [exact H1|]. split; [reflexivity|].
  destruct (consecutive_numbers Demo.now Demo.uuid4 "Acme Corp"
              "billing@example.com" Demo.items (literal 1 1) 30
              (literal 5 2) EmptyString "USD" Demo.now Demo.uuid4' "Globex"
              "billing@example.com" Demo.items (literal 1 1) 30
              (literal 5 2) EmptyString "USD" empty_db _ Demo.acme_db inv2
              reachable_init H1 (steps_refl _) eq_refl H2 eq_refl)
    as (k & _ & _ & Hsecond & Hfirst).
  destruct (Hfirst eq_refl) as [-> Hone].
  split; [exact Hone | exact Hsecond].
Defined.

(* ------------------------------------------------------------------ *)
(** * The sweep past the bound on host parameters *)
(* ------------------------------------------------------------------ *)



